(** * Abaqus thermal ODB downgrader: exporter and importer

    A shallow embedding of [export_odb_nt11.py] and
    [import_odb_nt11_2019.py], and the properties of their field bucketing,
    value coercion, write ordering and handle discipline.

    Conventions of the embedding.
    - A Python exception is a value of [exn]; a computation that may raise
      returns a [result].  Code that talks to a store or to the file system
      runs in [prog St], a state-and-exception monad in which the state (the
      log of calls made so far) survives a raise, so that what had been
      done when the process died can be inspected.
    - Python [float] is IEEE binary64, modelled by [spec_float].
    - A symbolic constant of [abaqusConstants] is identified by its name.
    - A [str]/[unicode] value is a [string]; the two Python types are not
      told apart, so [to_str] is the identity on strings.
    - A parsed JSON object is a record; a key read with [d.get(k, default)]
      is a [jfield] (absent, null or a value), a key read with [d[k]] is a
      plain field.
    - An insertion-ordered [dict] whose iteration order is observable is an
      association list; the lookup tables of the importer are [gmap]s.  Where
      the importer iterates a dictionary (the instances of the mesh
      document, the element groups of an instance) the list stands for
      whichever order the interpreter yields, and statements are made up
      to that order.
    - The input files of the importer hold documents of the interchange
      schema; the stream file is the list of its records.  The calls of the
      store API are logged and taken to succeed. *)

From Stdlib Require Import ZArith String Ascii List Lia.
From Stdlib Require Import DecimalString DecimalZ SpecFloat.
From stdpp Require Import base option list strings gmap.

Local Open Scope Z_scope.

(** ** Python preliminaries *)

Inductive exn : Type :=
| KeyError (key : string)
| IndexError
| TypeError
| OverflowError
| RuntimeError (msg : string)
| IOError (path : string)
| OdbError (path : string)
| SystemExit (code : Z).

Inductive result (A : Type) : Type :=
| Ok (a : A)
| Raise (e : exn).
Arguments Ok {A} a.
Arguments Raise {A} e.

#[global] Instance result_ret : MRet result := fun A a => Ok a.
#[global] Instance result_bind : MBind result := fun A B f m =>
  match m with
  | Ok a => f a
  | Raise e => Raise e
  end.

(** [try: body  except: handler] with a bare [except]. *)
Definition try_except {A} (body : result A) (handler : exn -> result A) : result A :=
  match body with
  | Ok a => Ok a
  | Raise e => handler e
  end.

Definition is_ok {A} (r : result A) : bool :=
  match r with Ok _ => true | Raise _ => false end.

(** A loop [for x in xs: acc = body(acc, x)] that may raise. *)
Fixpoint foldM {A B} (body : B -> A -> result B) (acc : B) (xs : list A) : result B :=
  match xs with
  | [] => Ok acc
  | x :: xs' => acc' ← body acc x; foldM body acc' xs'
  end.

Fixpoint mapM {A B} (f : A -> result B) (xs : list A) : result (list B) :=
  match xs with
  | [] => Ok []
  | x :: xs' => y ← f x; ys ← mapM f xs'; Ok (y :: ys)
  end.

(** The state-and-exception monad: the state is returned on a raise too. *)
Definition prog (St A : Type) : Type := St -> result A * St.

#[global] Instance prog_ret {St} : MRet (prog St) := fun A a st => (Ok a, st).
#[global] Instance prog_bind {St} : MBind (prog St) := fun A B f m st =>
  match m st with
  | (Ok a, st') => f a st'
  | (Raise e, st') => (Raise e, st')
  end.

Definition raise {St A} (e : exn) : prog St A := fun st => (Raise e, st).
Definition lift {St A} (r : result A) : prog St A := fun st => (r, st).
Definition get_state {St} : prog St St := fun st => (Ok st, st).
Definition modify {St} (f : St -> St) : prog St unit := fun st => (Ok tt, f st).

(** [for x in xs: body(x)] *)
Fixpoint for_each {St A} (xs : list A) (body : A -> prog St unit) : prog St unit :=
  match xs with
  | [] => mret tt
  | x :: xs' => body x ;; for_each xs' body
  end.

(** [enumerate(xs)] from index [i]. *)
Fixpoint enumerate_from {A} (i : Z) (xs : list A) : list (Z * A) :=
  match xs with
  | [] => []
  | x :: xs' => (i, x) :: enumerate_from (i + 1) xs'
  end.
Definition enumerate {A} (xs : list A) : list (Z * A) := enumerate_from 0 xs.

(** Floats. *)
Definition float : Type := spec_float.
Definition float_zero : float := S754_zero false.

(** [float(n)] for an [int]: round to nearest even, [OverflowError] beyond
    the largest double. *)
Definition float_of_int (z : Z) : result float :=
  match binary_normalize 53 1024 z 0 false with
  | S754_infinity _ => Raise OverflowError
  | f => Ok f
  end.

(** [max(a, b)]: the first argument unless the second is greater. *)
Definition py_max (a b : float) : float :=
  if SFltb a b then b else a.

(** Attributes read with [getattr(o, name, default)] or [hasattr]. *)
Inductive attr (A : Type) : Type :=
| NoAttr
| Attr (a : A).
Arguments NoAttr {A}.
Arguments Attr {A} a.

Definition getattr {A} (a : attr A) (default : A) : A :=
  match a with
  | NoAttr => default
  | Attr x => x
  end.

(** Keys of a parsed JSON object read with [dict.get]. *)
Inductive jfield (A : Type) : Type :=
| Absent
| Null
| Val (a : A).
Arguments Absent {A}.
Arguments Null {A}.
Arguments Val {A} a.

(** [d.get(k, None)]: absent and null both give [None]. *)
Definition get_or_none {A} (f : jfield A) : option A :=
  match f with
  | Val a => Some a
  | _ => None
  end.

(** Insertion-ordered dictionaries. *)
Section Dict.
Context {K V : Type} `{EqDecision K}.

Fixpoint dict_get (k : K) (d : list (K * V)) : option V :=
  match d with
  | [] => None
  | (k', v) :: d' => if decide (k' = k) then Some v else dict_get k d'
  end.

(** [d.setdefault(k, v)], as far as the dictionary is concerned. *)
Definition dict_setdefault (k : K) (v : V) (d : list (K * V)) : list (K * V) :=
  match dict_get k d with
  | Some _ => d
  | None => d ++ [(k, v)]
  end.

(** In-place mutation of the object stored under [k]. *)
Fixpoint dict_alter (f : V -> V) (k : K) (d : list (K * V)) : list (K * V) :=
  match d with
  | [] => []
  | (k', v) :: d' =>
      if decide (k' = k) then (k', f v) :: d' else (k', v) :: dict_alter f k d'
  end.
End Dict.

(** Symbolic constants of [abaqusConstants]. *)
Record SymbolicConstant : Type := SymConst { sc_name : string }.

#[global] Instance SymbolicConstant_eq_dec : EqDecision SymbolicConstant.
Proof. solve_decision. Defined.

Definition NODAL : SymbolicConstant := SymConst "NODAL".
Definition ELEMENT_NODAL : SymbolicConstant := SymConst "ELEMENT_NODAL".
Definition INTEGRATION_POINT : SymbolicConstant := SymConst "INTEGRATION_POINT".
Definition WHOLE_ELEMENT : SymbolicConstant := SymConst "WHOLE_ELEMENT".
Definition TIME : SymbolicConstant := SymConst "TIME".
Definition THREE_D : SymbolicConstant := SymConst "THREE_D".
Definition DEFORMABLE_BODY : SymbolicConstant := SymConst "DEFORMABLE_BODY".
Definition SCALAR : SymbolicConstant := SymConst "SCALAR".

(** [a == b] on symbolic constants. *)
Definition sc_eqb (a b : SymbolicConstant) : bool := bool_decide (a = b).

(** [str(c)] *)
Definition sc_str (c : SymbolicConstant) : string := sc_name c.

(** ** Strings *)

Definition dquote : ascii := "034"%char.
Definition backslash : ascii := "\"%char.

(** [sep.join(parts)] *)
Fixpoint str_join (sep : string) (parts : list string) : string :=
  match parts with
  | [] => ""
  | [p] => p
  | p :: ps => p +:+ sep +:+ str_join sep ps
  end.

(** [s.split(sep)] for a one-character separator. *)
Fixpoint str_split (sep : ascii) (s : string) : list string :=
  match s with
  | EmptyString => [""%string]
  | String c s' =>
      let r := str_split sep s' in
      if Ascii.eqb c sep then ""%string :: r
      else match r with
           | h :: t => String c h :: t
           | [] => [String c ""]
           end
  end.

(** White space of [str.strip()]: space, tab, newline, vertical tab, form
    feed and carriage return. *)
Definition is_space (c : ascii) : bool :=
  let n := N_of_ascii c in
  ((n =? 32) || ((9 <=? n) && (n <=? 13)))%N.

Fixpoint lstrip (s : string) : string :=
  match s with
  | EmptyString => EmptyString
  | String c s' => if is_space c then lstrip s' else s
  end.

Fixpoint rstrip (s : string) : string :=
  match s with
  | EmptyString => EmptyString
  | String c s' =>
      match rstrip s' with
      | EmptyString => if is_space c then EmptyString else String c EmptyString
      | r => String c r
      end
  end.

Definition strip (s : string) : string := rstrip (lstrip s).

(** Truth value of a string: non-empty. *)
Definition str_truthy (s : string) : bool :=
  match s with EmptyString => false | _ => true end.

(** [os.path.join(a, b)] for a relative [b]; which separator the platform
    uses plays no role below. *)
Definition os_path_join (a b : string) : string := a +:+ "/" +:+ b.

(** ** [json.dumps] on the values the exporter uses as dictionary keys *)

Definition hex_digit (n : N) : ascii :=
  ascii_of_N (if (n <? 10)%N then 48 + n else 87 + n)%N.

(** One character inside a JSON string literal, [ensure_ascii=True]: the
    quote, the backslash and the short control escapes, a [\u00xx] escape
    for everything else outside the printable range [' '..'~'].  Characters
    are code points below 256. *)
Definition escape_char (c : ascii) : string :=
  let n := N_of_ascii c in
  if (n =? 34)%N then String backslash (String dquote "")
  else if (n =? 92)%N then String backslash (String backslash "")
  else if (n =? 10)%N then String backslash "n"
  else if (n =? 13)%N then String backslash "r"
  else if (n =? 9)%N then String backslash "t"
  else if (n =? 8)%N then String backslash "b"
  else if (n =? 12)%N then String backslash "f"
  else if ((n <? 32) || (126 <? n))%N then
    String backslash
      ("u00" +:+ String (hex_digit (n / 16)) (String (hex_digit (n mod 16)) ""))
  else String c "".

Fixpoint escape (s : string) : string :=
  match s with
  | EmptyString => EmptyString
  | String c s' => escape_char c +:+ escape s'
  end.

Definition json_dumps_str (s : string) : string :=
  String dquote (escape s +:+ String dquote "").

Definition json_dumps_int (z : Z) : string :=
  NilZero.string_of_int (Z.to_int z).

(** A key of an object: not written when absent, [null], or the encoded
    value. *)
Definition json_dumps_field {A} (enc : A -> string) (f : jfield A) : option string :=
  match f with
  | Absent => None
  | Null => Some "null"%string
  | Val a => Some (enc a)
  end.

(** An object from its keys in sorted order, with the default separators
    [", "] and [": "]. *)
Definition json_dumps_object (items : list (string * option string)) : string :=
  "{" +:+
  str_join ", "
    (omap (fun kv => match kv.2 with
                     | Some v => Some (json_dumps_str kv.1 +:+ ": " +:+ v)
                     | None => None
                     end) items)
  +:+ "}".

(** ** The interchange schema *)

(** [{"number": int, "description": str}] *)
Record sp_obj : Type := SpObj {
  so_number : jfield Z;
  so_description : jfield string
}.

(** One entry of ["values"]: a sequence, or a bare scalar. *)
Inductive value_entry : Type :=
| Scalar (x : float)
| Seq (xs : list float).

(** One line of the field-value stream. *)
Record stream_rec : Type := StreamRec {
  r_step : string;
  r_frame_index : Z;
  r_frame_value : float;
  r_instance : string;
  r_position : string;
  r_section_point : jfield sp_obj;
  r_labels : list Z;
  r_values : list value_entry
}.

Record frame_doc : Type := FrameDoc {
  fd_index : Z;
  fd_value : jfield float;
  fd_description : jfield string
}.

Record step_doc : Type := StepDoc {
  sd_name : string;
  sd_domain : string;
  sd_numFrames : Z;
  sd_frames : jfield (list frame_doc)
}.

Record steps_doc : Type := StepsDoc {
  steps : jfield (list step_doc)
}.

Record element_doc : Type := ElementDoc {
  ed_label : Z;
  ed_type : string;
  ed_connectivity : list Z
}.

Definition node_doc : Type := Z * float * float * float.

Record instance_doc : Type := InstanceDoc {
  id_nodes : jfield (list node_doc);
  id_elements : jfield (list element_doc)
}.

(** [{"instances": {name: {...}}}], the object in iteration order. *)
Record mesh_doc : Type := MeshDoc {
  instances : list (string * instance_doc)
}.

(** [json.dumps(sp, sort_keys=True)] for a section point or [None]. *)
Definition json_dumps_sp (sp : option sp_obj) : string :=
  match sp with
  | None => "null"
  | Some d =>
      json_dumps_object
        [ ("description"%string, json_dumps_field json_dumps_str (so_description d));
          ("number"%string, json_dumps_field json_dumps_int (so_number d)) ]
  end.

(** ** The exporter, [export_odb_nt11.py] *)

Module Exporter.

(** *** The source store, as the object graph the exporter reads *)

(** A section-point handle.  Two handles may carry the same number and
    description and still be different objects ([sp_handle]).  A missing
    attribute and an attribute holding [None] are read alike by
    [getattr(sp, name, None)], hence the [option]s. *)
Record SectionPoint : Type := {
  sp_handle : nat;
  sp_number : option Z;
  sp_description : option string
}.

(** What [v.data] may hold. *)
#[local] Unset Elimination Schemes.
Inductive pyval : Type :=
| PyNone
| PyInt (z : Z)
| PyFloat (x : float)
| PyList (items : list pyval)
| PyTuple (items : list pyval).
#[local] Set Elimination Schemes.

Record FieldValue : Type := {
  v_instance_name : string;                 (* v.instance.name *)
  v_position : SymbolicConstant;
  v_sectionPoint : attr (option SectionPoint);
  v_nodeLabel : attr (option Z);
  v_elementLabel : attr (option Z);
  v_data : pyval
}.

Record FieldOutput : Type := { fo_values : list FieldValue }.

Record Frame : Type := {
  fr_frameValue : float;
  fr_description : attr string;
  fr_fieldOutputs : list (string * FieldOutput)
}.

Record Step : Type := {
  step_domain : SymbolicConstant;
  step_frames : list Frame
}.

Record Node : Type := { n_label : Z; n_coordinates : list float }.
Record Element : Type := {
  e_label : Z;
  e_type : string;
  e_connectivity : list Z
}.
Record Instance : Type := {
  inst_nodes : list Node;
  inst_elements : list Element
}.

Record Odb : Type := {
  odb_instances : list (string * Instance);   (* rootAssembly.instances *)
  odb_steps : list (string * Step)
}.

(** *** What the exporter does to the outside world *)

Inductive document : Type :=
| Mesh (m : mesh_doc)
| Steps (s : steps_doc).

Inductive event : Type :=
| MakeDirs (p : string)
| OpenOdb (path : string) (readOnly : bool)
| CloseOdb
| WriteJson (path : string) (doc : document)
| OpenFile (path : string)
| WriteLine (rec : stream_rec)
| CloseFile.

Record env : Type := {
  isdir : string -> bool;
  odb_at : string -> option Odb
}.

Definition emit (e : event) : prog (list event) unit :=
  modify (fun tr => tr ++ [e]).

(** *** [parse_args] *)

Definition is_flag (a : string) (long short : string) : bool :=
  String.eqb a long || String.eqb a short.

Fixpoint parse_loop (argv : list string)
    (odb_path out_dir : option string) (step_filter : option (list string))
    : result (option string * option string * option (list string)) :=
  match argv with
  | [] => Ok (odb_path, out_dir, step_filter)
  | a :: rest =>
      if is_flag a "--odb" "-i" then
        match rest with
        | [] => Raise IndexError
        | x :: rest' => parse_loop rest' (Some x) out_dir step_filter
        end
      else if is_flag a "--out" "-o" then
        match rest with
        | [] => Raise IndexError
        | x :: rest' => parse_loop rest' odb_path (Some x) step_filter
        end
      else if is_flag a "--steps" "-s" then
        match rest with
        | [] => Raise IndexError
        | x :: rest' =>
            parse_loop rest' odb_path out_dir
              (Some (filter (fun s => str_truthy s = true)
                       (strip <$> str_split "," x)))
        end
      else parse_loop rest odb_path out_dir step_filter
  end.

Definition parse_args (argv : list string)
    : result (string * string * option (list string)) :=
  '(odb_path, out_dir, step_filter) ← parse_loop argv None None None;
  match odb_path, out_dir with
  | Some o, Some d =>
      if str_truthy o && str_truthy d then Ok (o, d, step_filter)
      else Raise (SystemExit 2)
  | _, _ => Raise (SystemExit 2)
  end.

Definition ensure_dir (E : env) (p : string) : prog (list event) unit :=
  if isdir E p then mret tt else emit (MakeDirs p).

(** *** [position_name], [sp_to_dict] *)

Definition position_name (pos : SymbolicConstant) : string :=
  if sc_eqb pos NODAL then "NODAL"
  else if sc_eqb pos ELEMENT_NODAL then "ELEMENT_NODAL"
  else if sc_eqb pos INTEGRATION_POINT then "INTEGRATION_POINT"
  else if sc_eqb pos WHOLE_ELEMENT then "WHOLE_ELEMENT"
  else sc_str pos.

Definition sp_to_dict (sp : option SectionPoint) : option sp_obj :=
  match sp with
  | None => None
  | Some sp =>
      let num := sp_number sp in
      let desc := sp_description sp in
      Some {| so_number := match num with Some n => Val n | None => Null end;
              so_description := match desc with Some d => Val d | None => Null end |}
  end.

(** *** [export_mesh] *)

(** One node row; [coords[2]] of a tuple shorter than three that is not
    of length two does not exist. *)
Definition node_row (n : Node) : result node_doc :=
  let coords := n_coordinates n in
  let coords :=
    match coords with
    | [x; y] => [x; y; float_zero]
    | _ => coords
    end in
  match coords with
  | x :: y :: z :: _ => Ok (n_label n, x, y, z)
  | _ => Raise IndexError
  end.

Definition element_row (e : Element) : element_doc :=
  {| ed_label := e_label e; ed_type := e_type e;
     ed_connectivity := e_connectivity e |}.

Definition instance_rec (inst : Instance) : result instance_doc :=
  nodes ← mapM node_row (inst_nodes inst);
  Ok {| id_nodes := Val nodes;
        id_elements := Val (element_row <$> inst_elements inst) |}.

(** [out["instances"][iname] = inst_rec]: a later instance of the same
    name replaces the earlier one in place. *)
Definition dict_set {V} (k : string) (v : V) (d : list (string * V))
    : list (string * V) :=
  match dict_get k d with
  | Some _ => dict_alter (fun _ => v) k d
  | None => d ++ [(k, v)]
  end.

Definition mesh_of (odb : Odb) : result mesh_doc :=
  insts ← foldM (fun out '(iname, inst) =>
                   inst_rec ← instance_rec inst;
                   Ok (dict_set iname inst_rec out))
                [] (odb_instances odb);
  Ok {| instances := insts |}.

Definition export_mesh (odb : Odb) (out_dir : string) : prog (list event) unit :=
  out ← lift (mesh_of odb);
  emit (WriteJson (os_path_join out_dir "mesh.json") (Mesh out)).

(** *** [export_steps] *)

(** [step_filter and sname not in step_filter] *)
Definition filtered_out (step_filter : option (list string)) (sname : string) : bool :=
  match step_filter with
  | None | Some [] => false
  | Some names => negb (bool_decide (sname ∈ names))
  end.

Definition frame_meta (idx : Z) (fr : Frame) : frame_doc :=
  {| fd_index := idx;
     fd_value := Val (fr_frameValue fr);
     fd_description := Val (getattr (fr_description fr) "") |}.

Definition step_meta (sname : string) (step : Step) : step_doc :=
  {| sd_name := sname;
     sd_domain := if sc_eqb (step_domain step) TIME then "TIME"
                  else sc_str (step_domain step);
     sd_numFrames := Z.of_nat (length (step_frames step));
     sd_frames := Val ((fun '(idx, fr) => frame_meta idx fr)
                         <$> enumerate (step_frames step)) |}.

Definition steps_of (odb : Odb) (step_filter : option (list string)) : steps_doc :=
  {| steps := Val ((fun '(sname, step) => step_meta sname step)
                     <$> filter (fun '(sname, _) => filtered_out step_filter sname = false)
                                (odb_steps odb)) |}.

Definition export_steps (odb : Odb) (step_filter : option (list string))
    (out_dir : string) : prog (list event) unit :=
  emit (WriteJson (os_path_join out_dir "steps.json")
          (Steps (steps_of odb step_filter))).

(** *** [export_nt11] *)

(** The dictionary kept per bucket while a frame is read. *)
Record bucket : Type := {
  b_labels : list Z;
  b_values : list (list float);
  b_instance : string;
  b_position : string;
  b_section_point : option sp_obj
}.

Definition bucket_key : Type := string * string * string.

Definition value_sp (v : FieldValue) : option sp_obj :=
  sp_to_dict (getattr (v_sectionPoint v) None).

(** [(iname, pos, json.dumps(sp, sort_keys=True))] *)
Definition key_of (v : FieldValue) : bucket_key :=
  (v_instance_name v, position_name (v_position v), json_dumps_sp (value_sp v)).

(** [getattr(v, "nodeLabel", getattr(v, "elementLabel", None))] *)
Definition value_label (v : FieldValue) : option Z :=
  getattr (v_nodeLabel v) (getattr (v_elementLabel v) None).

(** [int(lbl)] *)
Definition py_int (lbl : option Z) : result Z :=
  match lbl with
  | Some z => Ok z
  | None => Raise TypeError
  end.

(** [float(val)] *)
Definition py_float (val : pyval) : result float :=
  match val with
  | PyFloat x => Ok x
  | PyInt z => float_of_int z
  | PyNone | PyList _ | PyTuple _ => Raise TypeError
  end.

(** The items of [val] when [isinstance(val, (list, tuple))]. *)
Definition sequence_items (val : pyval) : option (list pyval) :=
  match val with
  | PyList items | PyTuple items => Some items
  | _ => None
  end.

(** The [try: valf = float(val)  except: ...] block. *)
Definition value_to_float (val : pyval) : result float :=
  try_except (py_float val)
    (fun e =>
       match sequence_items val with
       | Some [x] => py_float x
       | _ => Raise e
       end).

Definition new_bucket (v : FieldValue) : bucket :=
  {| b_labels := []; b_values := [];
     b_instance := v_instance_name v;
     b_position := position_name (v_position v);
     b_section_point := value_sp v |}.

Definition bucket_append (l : Z) (valf : float) (b : bucket) : bucket :=
  {| b_labels := b_labels b ++ [l];
     b_values := b_values b ++ [[valf]];
     b_instance := b_instance b;
     b_position := b_position b;
     b_section_point := b_section_point b |}.

(** The body of [for v in fo.values]. *)
Definition add_value (buckets : list (bucket_key * bucket)) (v : FieldValue)
    : result (list (bucket_key * bucket)) :=
  let key := key_of v in
  let buckets := dict_setdefault key (new_bucket v) buckets in
  let lbl := value_label v in
  valf ← value_to_float (v_data v);
  l ← py_int lbl;
  Ok (dict_alter (bucket_append l valf) key buckets).

Definition bucket_values (vs : list FieldValue)
    : result (list (bucket_key * bucket)) :=
  foldM add_value [] vs.

Definition bucket_record (sname : string) (fidx : Z) (fr : Frame) (b : bucket)
    : stream_rec :=
  {| r_step := sname;
     r_frame_index := fidx;
     r_frame_value := fr_frameValue fr;
     r_instance := b_instance b;
     r_position := b_position b;
     r_section_point := match b_section_point b with
                        | Some d => Val d
                        | None => Null
                        end;
     r_labels := b_labels b;
     r_values := Seq <$> b_values b |}.

(** The body of [for fidx in range(len(step.frames))]. *)
Definition export_frame (sname : string) (fidx : Z) (fr : Frame)
    : prog (list event) unit :=
  match dict_get "NT11"%string (fr_fieldOutputs fr) with
  | None => mret tt
  | Some fo =>
      match fo_values fo with
      | [] => mret tt
      | vs =>
          buckets ← lift (bucket_values vs);
          for_each buckets
            (fun '(_, b) => emit (WriteLine (bucket_record sname fidx fr b)))
      end
  end.

Definition export_step (step_filter : option (list string))
    (sname : string) (step : Step) : prog (list event) unit :=
  if filtered_out step_filter sname then mret tt
  else for_each (enumerate (step_frames step))
         (fun '(fidx, fr) => export_frame sname fidx fr).

Definition export_nt11 (odb : Odb) (step_filter : option (list string))
    (out_dir : string) : prog (list event) unit :=
  emit (OpenFile (os_path_join out_dir "nt11.jsonl")) ;;
  for_each (odb_steps odb)
    (fun '(sname, step) => export_step step_filter sname step) ;;
  emit CloseFile.

(** *** [main] *)

Definition openOdb (E : env) (path : string) (readOnly : bool)
    : prog (list event) Odb :=
  match odb_at E path with
  | Some odb => emit (OpenOdb path readOnly) ;; mret odb
  | None => raise (OdbError path)
  end.

Definition main (E : env) (argv : list string) : prog (list event) unit :=
  '(odb_path, out_dir, step_filter) ← lift (parse_args argv);
  ensure_dir E out_dir ;;
  odb ← openOdb E odb_path true;
  export_mesh odb out_dir ;;
  export_steps odb step_filter out_dir ;;
  export_nt11 odb step_filter out_dir ;;
  emit CloseOdb.

(** The records written to [nt11.jsonl], in order. *)
Definition lines_written (tr : list event) : list stream_rec :=
  omap (fun e => match e with WriteLine r => Some r | _ => None end) tr.

(** Whether a store handle is open after the calls of [tr]. *)
Definition handle_open (tr : list event) : bool :=
  foldl (fun o e => match e with
                    | OpenOdb _ _ => true
                    | CloseOdb => false
                    | _ => o
                    end) false tr.

End Exporter.

(** ** The importer, [import_odb_nt11_2019.py] *)

Module Importer.

(** *** The target store, as the calls the importer makes on it

    Every object the store API returns is a fresh handle.  The calls are
    logged in order; the store itself is taken to accept each call. *)

Definition handle : Type := nat.

Inductive event : Type :=
| NewOdb (name analysisTitle description path : string)
| Part (h : handle) (name : string) (embeddedSpace type : SymbolicConstant)
| AddNodes (part : handle) (nodeData : list node_doc)
| AddElements (part : handle) (elementData : list (list Z)) (type : string)
| NewInstance (h : handle) (name : string) (object : handle)
| Save
| Close
| OpenOdb (path : string) (readOnly : bool)
| SectionCategory (h : handle) (name description : string)
| NewSectionPoint (h : handle) (category : handle) (number : Z) (description : string)
| NewStep (h : handle) (name description : string) (domain : SymbolicConstant)
    (timePeriod : float)
| NewFrame (h : handle) (step : handle) (incrementNumber : Z) (frameValue : float)
    (description : string)
| NewFieldOutput (h : handle) (frame : handle) (name description : string)
    (type : SymbolicConstant)
| AddData (fieldOutput : handle) (position : SymbolicConstant) (instance : handle)
    (labels : list Z) (data : list (list float)) (sectionPoint : option handle).

(** The store log, the instance repository of the store, and the local
    tables of [main]. *)
Record state : Type := {
  calls : list event;
  fresh : handle;
  assembly : gmap string handle;            (* rootAssembly.instances *)
  inst_map : gmap string handle;
  sp_pool : gmap (Z * string) handle;
  step_objs : gmap string handle;
  frame_objs : gmap (string * Z) handle;
  nt11_cache : gmap (string * Z) handle
}.

Definition initial : state :=
  {| calls := []; fresh := 0%nat; assembly := ∅; inst_map := ∅; sp_pool := ∅;
     step_objs := ∅; frame_objs := ∅; nt11_cache := ∅ |}.

(** The input files. *)
Record env : Type := {
  mesh_at : string -> option mesh_doc;
  steps_at : string -> option steps_doc;
  nt11_at : string -> option (list stream_rec)
}.

Definition call (e : event) : prog state unit :=
  modify (fun st =>
    {| calls := calls st ++ [e]; fresh := fresh st; assembly := assembly st;
       inst_map := inst_map st; sp_pool := sp_pool st; step_objs := step_objs st;
       frame_objs := frame_objs st; nt11_cache := nt11_cache st |}).

Definition new_handle : prog state handle :=
  fun st =>
    (Ok (fresh st),
     {| calls := calls st; fresh := S (fresh st); assembly := assembly st;
        inst_map := inst_map st; sp_pool := sp_pool st; step_objs := step_objs st;
        frame_objs := frame_objs st; nt11_cache := nt11_cache st |}).

Definition set_assembly (f : gmap string handle -> gmap string handle) : prog state unit :=
  modify (fun st =>
    {| calls := calls st; fresh := fresh st; assembly := f (assembly st);
       inst_map := inst_map st; sp_pool := sp_pool st; step_objs := step_objs st;
       frame_objs := frame_objs st; nt11_cache := nt11_cache st |}).

Definition set_inst_map (m : gmap string handle) : prog state unit :=
  modify (fun st =>
    {| calls := calls st; fresh := fresh st; assembly := assembly st;
       inst_map := m; sp_pool := sp_pool st; step_objs := step_objs st;
       frame_objs := frame_objs st; nt11_cache := nt11_cache st |}).

Definition set_sp_pool (k : Z * string) (h : handle) : prog state unit :=
  modify (fun st =>
    {| calls := calls st; fresh := fresh st; assembly := assembly st;
       inst_map := inst_map st; sp_pool := <[k := h]> (sp_pool st);
       step_objs := step_objs st; frame_objs := frame_objs st;
       nt11_cache := nt11_cache st |}).

Definition set_step_obj (k : string) (h : handle) : prog state unit :=
  modify (fun st =>
    {| calls := calls st; fresh := fresh st; assembly := assembly st;
       inst_map := inst_map st; sp_pool := sp_pool st;
       step_objs := <[k := h]> (step_objs st); frame_objs := frame_objs st;
       nt11_cache := nt11_cache st |}).

Definition set_frame_obj (k : string * Z) (h : handle) : prog state unit :=
  modify (fun st =>
    {| calls := calls st; fresh := fresh st; assembly := assembly st;
       inst_map := inst_map st; sp_pool := sp_pool st; step_objs := step_objs st;
       frame_objs := <[k := h]> (frame_objs st); nt11_cache := nt11_cache st |}).

Definition set_nt11_cache (k : string * Z) (h : handle) : prog state unit :=
  modify (fun st =>
    {| calls := calls st; fresh := fresh st; assembly := assembly st;
       inst_map := inst_map st; sp_pool := sp_pool st; step_objs := step_objs st;
       frame_objs := frame_objs st; nt11_cache := <[k := h]> (nt11_cache st) |}).

(** *** Helpers *)

(** [to_str(s)]; [s] is a string or [None], and [str(None)] is ["None"]. *)
Definition to_str (s : option string) : string :=
  match s with
  | Some s => s
  | None => "None"
  end.

(** [d.get(k, default)] as a Python value: [None] for a null. *)
Definition dict_get_default {A} (f : jfield A) (default : A) : option A :=
  match f with
  | Absent => Some default
  | Null => None
  | Val a => Some a
  end.

Definition pos_from_name (name : string) : SymbolicConstant :=
  let name := to_str (Some name) in
  if String.eqb name "NODAL" then NODAL
  else if String.eqb name "ELEMENT_NODAL" then ELEMENT_NODAL
  else if String.eqb name "INTEGRATION_POINT" then INTEGRATION_POINT
  else if String.eqb name "WHOLE_ELEMENT" then WHOLE_ELEMENT
  else NODAL.

Definition load_json {A St} (files : string -> option A) (path : string) : prog St A :=
  match files path with
  | Some doc => mret doc
  | None => raise (IOError path)
  end.

Definition ensure_tuple_seq (seq : list value_entry) : list (list float) :=
  (fun x => match x with Seq xs => xs | Scalar x => [x] end) <$> seq.

Definition ensure_tuple (seq : list Z) : list Z := seq.

(** [float(x)] of a value read with [get]: [None] is a [TypeError]. *)
Definition py_float (x : option float) : result float :=
  match x with
  | Some x => Ok x
  | None => Raise TypeError
  end.

(** [for x in xs] over a value read with [get]: [None] is not iterable. *)
Definition py_iter {A} (xs : option (list A)) : result (list A) :=
  match xs with
  | Some xs => Ok xs
  | None => Raise TypeError
  end.

(** Truth value of a list read with [get]. *)
Definition list_truthy {A} (xs : option (list A)) : bool :=
  match xs with
  | Some (_ :: _) => true
  | _ => false
  end.

(** *** [parse_args] *)

Fixpoint parse_loop (argv : list string)
    (mesh_path steps_path nt11_path out_odb : option string)
    : result (option string * option string * option string * option string) :=
  match argv with
  | [] => Ok (mesh_path, steps_path, nt11_path, out_odb)
  | a :: rest =>
      if String.eqb a "--mesh" then
        match rest with
        | [] => Raise IndexError
        | x :: rest' => parse_loop rest' (Some x) steps_path nt11_path out_odb
        end
      else if String.eqb a "--steps" then
        match rest with
        | [] => Raise IndexError
        | x :: rest' => parse_loop rest' mesh_path (Some x) nt11_path out_odb
        end
      else if String.eqb a "--nt11" then
        match rest with
        | [] => Raise IndexError
        | x :: rest' => parse_loop rest' mesh_path steps_path (Some x) out_odb
        end
      else if String.eqb a "--out" || String.eqb a "--odb" then
        match rest with
        | [] => Raise IndexError
        | x :: rest' => parse_loop rest' mesh_path steps_path nt11_path (Some x)
        end
      else parse_loop rest mesh_path steps_path nt11_path out_odb
  end.

Definition parse_args (argv : list string)
    : result (string * string * string * string) :=
  '(mesh_path, steps_path, nt11_path, out_odb) ← parse_loop argv None None None None;
  match mesh_path, steps_path, nt11_path, out_odb with
  | Some m, Some s, Some n, Some o =>
      if str_truthy m && str_truthy s && str_truthy n && str_truthy o
      then Ok (m, s, n, o)
      else Raise (SystemExit 2)
  | _, _, _, _ => Raise (SystemExit 2)
  end.

(** *** The store API *)

Definition api_Odb (name analysisTitle description path : string) : prog state unit :=
  call (NewOdb name analysisTitle description path).

Definition api_Part (name : string) (embeddedSpace type : SymbolicConstant)
    : prog state handle :=
  h ← new_handle; call (Part h name embeddedSpace type) ;; mret h.

Definition api_addNodes (p : handle) (nodeData : list node_doc) : prog state unit :=
  call (AddNodes p nodeData).

Definition api_addElements (p : handle) (elementData : list (list Z)) (type : string)
    : prog state unit :=
  call (AddElements p elementData type).

Definition api_Instance (name : string) (object : handle) : prog state handle :=
  h ← new_handle;
  call (NewInstance h name object) ;;
  set_assembly (fun a => <[name := h]> a) ;;
  mret h.

Definition api_save : prog state unit := call Save.
Definition api_close : prog state unit := call Close.

Definition api_openOdb (path : string) (readOnly : bool) : prog state unit :=
  call (OpenOdb path readOnly).

Definition api_SectionCategory (name description : string) : prog state handle :=
  h ← new_handle; call (SectionCategory h name description) ;; mret h.

Definition api_SectionPoint (sCat : handle) (number : Z) (description : string)
    : prog state handle :=
  h ← new_handle; call (NewSectionPoint h sCat number description) ;; mret h.

Definition api_Step (name description : string) (domain : SymbolicConstant)
    (timePeriod : float) : prog state handle :=
  h ← new_handle; call (NewStep h name description domain timePeriod) ;; mret h.

Definition api_Frame (stp : handle) (incrementNumber : Z) (frameValue : float)
    (description : string) : prog state handle :=
  h ← new_handle;
  call (NewFrame h stp incrementNumber frameValue description) ;; mret h.

Definition api_FieldOutput (fobj : handle) (name description : string)
    (type : SymbolicConstant) : prog state handle :=
  h ← new_handle; call (NewFieldOutput h fobj name description type) ;; mret h.

Definition api_addData (fo : handle) (position : SymbolicConstant) (instance : handle)
    (labels : list Z) (data : list (list float)) (sectionPoint : option handle)
    : prog state unit :=
  call (AddData fo position instance labels data sectionPoint).

(** *** Stage 1: geometry *)

Definition element_row (e : element_doc) : list Z :=
  ed_label e :: ed_connectivity e.

(** [groups.setdefault(ety, []).append(row)] over the elements.  The
    groups are listed in the order in which their types first occur; the
    order in which [groups.items()] yields them is that of the interpreter's
    dictionary, which the source does not fix, so the statements about the
    groups and about the calls made for them hold up to their order. *)
Definition group_elements (elements : list element_doc)
    : list (string * list (list Z)) :=
  foldl (fun groups e =>
           let ety := to_str (Some (ed_type e)) in
           dict_alter (fun rows => rows ++ [element_row e]) ety
             (dict_setdefault ety [] groups))
        [] elements.

(** The body of [for iname_u, inst_rec in mesh['instances'].items()]. *)
Definition build_instance (iname_u : string) (inst_rec : instance_doc)
    : prog state unit :=
  let iname := to_str (Some iname_u) in
  let part_name := to_str (Some ("PART_FROM_" +:+ iname)) in
  p ← api_Part part_name THREE_D DEFORMABLE_BODY;
  match dict_get_default (id_nodes inst_rec) [] with
  | Some ((_ :: _) as nodes) => api_addNodes p nodes
  | _ => mret tt
  end ;;
  match dict_get_default (id_elements inst_rec) [] with
  | Some ((_ :: _) as elements) =>
      for_each (group_elements elements)
        (fun '(ety, eData) => api_addElements p eData ety)
  | _ => mret tt
  end ;;
  api_Instance iname p ;;
  mret tt.

(** *** Stage 2: results *)

Definition get_or_make_sp (sCat : handle) (sp_dict : option sp_obj)
    : prog state (option handle) :=
  match sp_dict with
  | None => mret None
  | Some sp_dict =>
      let num := get_or_none (so_number sp_dict) in
      let desc := dict_get_default (so_description sp_dict) ""%string in
      let key := (match num with Some n => n | None => 1 end, to_str desc) in
      st ← get_state;
      match sp_pool st !! key with
      | Some sp_obj => mret (Some sp_obj)
      | None =>
          sp_obj ← api_SectionPoint sCat key.1 key.2;
          set_sp_pool key sp_obj ;;
          mret (Some sp_obj)
      end
  end.

(** [d[k]] on a key that may be missing. *)
Definition getitem {A} (k : string) (f : jfield A) : result (option A) :=
  match f with
  | Absent => Raise (KeyError k)
  | Null => Ok None
  | Val a => Ok (Some a)
  end.

(** [s['frames'][-1]] *)
Definition last_item {A} (xs : option (list A)) : result A :=
  match xs with
  | None => Raise TypeError
  | Some xs => match last xs with
               | Some x => Ok x
               | None => Raise IndexError
               end
  end.

(** The time period chosen for a step. *)
Definition time_period (s : step_doc) : result float :=
  if list_truthy (get_or_none (sd_frames s)) then
    try_except
      (frames ← getitem "frames" (sd_frames s);
       fr ← last_item frames;
       v ← getitem "value" (fd_value fr);
       py_float v)
      (fun _ => Ok float_zero)
  else Ok float_zero.

(** The body of [for fr in s.get('frames', [])]. *)
Definition create_frame (sname : string) (stp : handle) (fr : frame_doc)
    : prog state unit :=
  let fidx := fd_index fr in
  fval ← lift (py_float (dict_get_default (fd_value fr) float_zero));
  let fdesc := to_str (dict_get_default (fd_description fr) ""%string) in
  fobj ← api_Frame stp fidx fval fdesc;
  set_frame_obj (sname, fidx) fobj.

(** The body of [for s in steps_json.get('steps', [])]. *)
Definition create_step (s : step_doc) : prog state unit :=
  let sname := to_str (Some (sd_name s)) in
  let domain := TIME in
  tp ← lift (time_period s);
  stp ← api_Step sname (to_str (Some "Imported step"%string)) domain
          (py_max tp float_zero);
  set_step_obj sname stp ;;
  frames ← lift (py_iter (dict_get_default (sd_frames s) []));
  for_each frames (create_frame sname stp).

(** The body of [for rec in stream_jsonl(nt11_path)]. *)
Definition write_record (sCat : handle) (rec : stream_rec) : prog state unit :=
  let sname := to_str (Some (r_step rec)) in
  let fidx := r_frame_index rec in
  let fval_check := r_frame_value rec in
  let iname := to_str (Some (r_instance rec)) in
  let pos := pos_from_name (r_position rec) in
  let sp := get_or_none (r_section_point rec) in
  let labels := r_labels rec in
  let values := r_values rec in
  let fkey := (sname, fidx) in
  st ← get_state;
  match frame_objs st !! fkey with
  | Some _ => mret tt
  | None =>
      match step_objs st !! sname with
      | None => raise (KeyError sname)
      | Some stp =>
          fobj ← api_Frame stp fidx fval_check (to_str (Some ""%string));
          set_frame_obj fkey fobj
      end
  end ;;
  st ← get_state;
  fobj ← lift (match frame_objs st !! fkey with
               | Some fobj => Ok fobj
               | None => Raise (KeyError sname)
               end);
  fo ← match nt11_cache st !! fkey with
       | Some fo => mret fo
       | None =>
           fo ← api_FieldOutput fobj (to_str (Some "NT11"%string))
                  (to_str (Some "Imported temperature"%string)) SCALAR;
           set_nt11_cache fkey fo ;;
           mret fo
       end;
  sp_obj ← get_or_make_sp sCat sp;
  let labels_t := ensure_tuple labels in
  let data_t := ensure_tuple_seq values in
  st ← get_state;
  match inst_map st !! iname with
  | None =>
      raise (RuntimeError ("Instance '" +:+ iname +:+ "' not found when writing NT11."))
  | Some inst =>
      if bool_decide (sp_obj ≠ None) && sc_eqb pos INTEGRATION_POINT
      then api_addData fo pos inst labels_t data_t sp_obj
      else api_addData fo pos inst labels_t data_t None
  end.

(** *** [main] *)

(** Stage 1 of [main], from [Odb(...)] to the commit of the geometry.
    The instances are taken in the order of the document; the order in
    which [mesh['instances'].items()] yields them is that of the
    interpreter's dictionary, which the source does not fix, so the
    statements about the instances rebuilt hold up to their order. *)
Definition geometry_stage (E : env) (mesh_path out_odb : string) : prog state unit :=
  api_Odb (to_str (Some "derivedNT11"%string))
          (to_str (Some "Imported from JSON(L)"%string))
          (to_str (Some "Mesh + NT11 reconstructed from export"%string))
          out_odb ;;
  mesh ← load_json (mesh_at E) mesh_path;
  for_each (instances mesh)
    (fun '(iname_u, inst_rec) => build_instance iname_u inst_rec) ;;
  api_save ;;
  api_close.

(** What stage 2 of [main] writes once the store is open again, up to
    the last record of the stream. *)
Definition results_writes (E : env) (steps_path nt11_path : string) : prog state unit :=
  st ← get_state;
  set_inst_map (assembly st) ;;
  sCat ← api_SectionCategory (to_str (Some "GEN_SEC_CAT"%string))
           (to_str (Some "Generic section category for imported IP data"%string));
  steps_json ← load_json (steps_at E) steps_path;
  step_list ← lift (py_iter (dict_get_default (steps steps_json) []));
  for_each step_list create_step ;;
  recs ← load_json (nt11_at E) nt11_path;
  for_each recs (write_record sCat).

(** Stage 2 of [main]. *)
Definition results_stage (E : env) (steps_path nt11_path out_odb : string)
    : prog state unit :=
  api_openOdb out_odb false ;;
  results_writes E steps_path nt11_path ;;
  api_save ;;
  api_close.

Definition main (E : env) (argv : list string) : prog state unit :=
  '(mesh_path, steps_path, nt11_path, out_odb) ← lift (parse_args argv);
  let out_odb := to_str (Some out_odb) in
  geometry_stage E mesh_path out_odb ;;
  results_stage E steps_path nt11_path out_odb.

(** *** Reading the log *)

Definition is_geometry_write (e : event) : bool :=
  match e with
  | Part _ _ _ _ | AddNodes _ _ | AddElements _ _ _ | NewInstance _ _ _ => true
  | _ => false
  end.

Definition is_results_write (e : event) : bool :=
  match e with
  | SectionCategory _ _ _ | NewSectionPoint _ _ _ _ | NewStep _ _ _ _ _
  | NewFrame _ _ _ _ _ | NewFieldOutput _ _ _ _ _ | AddData _ _ _ _ _ _ => true
  | _ => false
  end.

(** Whether a store handle is open after the calls of [tr]. *)
Definition handle_open (tr : list event) : bool :=
  foldl (fun o e => match e with
                    | NewOdb _ _ _ _ | OpenOdb _ _ => true
                    | Close => false
                    | _ => o
                    end) false tr.

End Importer.

(** ** Vocabulary of the statements *)

(** Reading one escaped character back from the front of a string; the
    inverse of [escape_char], by which the encoding is shown injective. *)
Definition unhex (c : ascii) : N :=
  let n := N_of_ascii c in
  (if n <? 58 then n - 48 else n - 87)%N.

Definition unescape_char (s : string) : option (ascii * string) :=
  match s with
  | EmptyString => None
  | String c rest =>
      if Ascii.eqb c dquote then None
      else if Ascii.eqb c backslash then
        match rest with
        | EmptyString => None
        | String d rest' =>
            if Ascii.eqb d "u" then
              match rest' with
              | String _ (String _ (String h (String l rest''))) =>
                  Some (ascii_of_N (16 * unhex h + unhex l), rest'')
              | _ => None
              end
            else if Ascii.eqb d "n" then Some ("010"%char, rest')
            else if Ascii.eqb d "r" then Some ("013"%char, rest')
            else if Ascii.eqb d "t" then Some ("009"%char, rest')
            else if Ascii.eqb d "b" then Some ("008"%char, rest')
            else if Ascii.eqb d "f" then Some ("012"%char, rest')
            else Some (d, rest')
        end
      else Some (c, rest)
  end.

(** A program only adds to the log, and what it adds satisfies [P]. *)
Definition appends {St E A} (log : St -> list E) (P : E -> Prop) (m : prog St A) : Prop :=
  forall st, exists tr, log (m st).2 = log st ++ tr /\ Forall P tr.

(** A program never raises. *)
Definition total {St A} (m : prog St A) : Prop :=
  forall st, exists a, (m st).1 = Ok a.

(** The text of the keys of a section-point object. *)
Definition num_text (n : option Z) : string :=
  match n with Some z => json_dumps_int z | None => "null" end.
Definition desc_text (d : option string) : string :=
  match d with Some s => json_dumps_str s | None => "null" end.
Definition description_key : string := "{" +:+ json_dumps_str "description" +:+ ": ".
Definition number_key : string := " " +:+ json_dumps_str "number" +:+ ": ".

Module ExporterSpec.
Import Exporter.

(** The section point a value record carries, if any. *)
Definition section_point_of (v : FieldValue) : option SectionPoint :=
  getattr (v_sectionPoint v) None.

(** What a section point says, leaving the handle out. *)
Definition sp_content (sp : option SectionPoint) : option (option Z * option string) :=
  (fun sp => (sp_number sp, sp_description sp)) <$> sp.

(** Where a value record belongs: instance name, position, and the number
    and description of its section point. *)
Definition slot_of (v : FieldValue)
    : string * SymbolicConstant * option (option Z * option string) :=
  (v_instance_name v, v_position v, sp_content (section_point_of v)).

(** The label and value a record contributes to its bucket. *)
Definition entry_of (v : FieldValue) : result (Z * float) :=
  valf ← value_to_float (v_data v);
  l ← py_int (value_label v);
  Ok (l, valf).

(** A bucket after the entries [es] were appended to it. *)
Definition extend (b : bucket) (es : list (Z * float)) : bucket :=
  {| b_labels := b_labels b ++ es.*1;
     b_values := b_values b ++ ((fun x => [x]) <$> es.*2);
     b_instance := b_instance b;
     b_position := b_position b;
     b_section_point := b_section_point b |}.

(** The records of a frame that fall under key [k], in source order. *)
Definition under_key (k : bucket_key) (vs : list FieldValue) : list FieldValue :=
  filter (fun v => key_of v = k) vs.

(** The source assigns at most one value per label and slot. *)
Definition unique_labels (vs : list FieldValue) : Prop :=
  NoDup ((fun v => (slot_of v, value_label v)) <$> vs).

(** The same, for every temperature field of the store. *)
Definition store_unique_labels (odb : Odb) : Prop :=
  forall sname step fr fo,
    (sname, step) ∈ odb_steps odb ->
    fr ∈ step_frames step ->
    dict_get "NT11"%string (fr_fieldOutputs fr) = Some fo ->
    unique_labels (fo_values fo).

(** What [export_nt11] may add to the log: the opening and closing of the
    stream file, and records of buckets of retained frames. *)
Definition stream_event (R : stream_rec -> Prop) (e : event) : Prop :=
  match e with
  | WriteLine rec => R rec
  | OpenFile _ | CloseFile => True
  | _ => False
  end.

(** [rec] is the record of bucket [(k, b)] of the temperature field [fo]
    of a retained frame. *)
Definition record_of_bucket (odb : Odb) (step_filter : option (list string))
    (fo : FieldOutput) (k : bucket_key) (b : bucket) (rec : stream_rec) : Prop :=
  exists sname step fidx fr bs,
    (sname, step) ∈ odb_steps odb /\
    filtered_out step_filter sname = false /\
    (fidx, fr) ∈ enumerate (step_frames step) /\
    dict_get "NT11"%string (fr_fieldOutputs fr) = Some fo /\
    bucket_values (fo_values fo) = Ok bs /\
    (k, b) ∈ bs /\
    rec = bucket_record sname fidx fr b.
End ExporterSpec.

Module ImporterSpec.
Import Importer.

Definition is_add_data (e : event) : bool :=
  match e with AddData _ _ _ _ _ _ => true | _ => false end.

(** A results write whose step, if it creates one, is in the time domain. *)
Definition is_timed_results_write (e : event) : bool :=
  is_results_write e &&
  match e with
  | NewStep _ _ _ domain _ => sc_eqb domain TIME
  | _ => true
  end.

(** Whether the barrier, a save and a close followed by the reopening,
    starts at [e], the rest of the log being [rest]. *)
Definition barrier_at (e : event) (rest : list event) : bool :=
  match e, rest with
  | Save, Close :: OpenOdb _ _ :: _ => true
  | _, _ => false
  end.

(** How often the barrier occurs in a log. *)
Fixpoint count_barriers (tr : list event) : nat :=
  match tr with
  | [] => 0
  | e :: rest => ((if barrier_at e rest then 1 else 0) + count_barriers rest)%nat
  end.

(** Whether the log ever opens a store handle. *)
Definition ever_opened (tr : list event) : bool :=
  existsb (fun e => match e with NewOdb _ _ _ _ | OpenOdb _ _ => true | _ => false end) tr.

(** The calls that open or close the store. *)
Definition is_handle_event (e : event) : bool :=
  match e with
  | NewOdb _ _ _ _ | OpenOdb _ _ | Close => true
  | _ => false
  end.

(** What one call does to the state of the handle. *)
Definition handle_step (o : bool) (e : event) : bool :=
  match e with
  | NewOdb _ _ _ _ | OpenOdb _ _ => true
  | Close => false
  | _ => o
  end.

Definition set_position (p : string) (rec : stream_rec) : stream_rec :=
  {| r_step := r_step rec; r_frame_index := r_frame_index rec;
     r_frame_value := r_frame_value rec; r_instance := r_instance rec;
     r_position := p; r_section_point := r_section_point rec;
     r_labels := r_labels rec; r_values := r_values rec |}.

(** A catalog with the domain of every step blanked. *)
Definition forget_step_domain (s : step_doc) : step_doc :=
  {| sd_name := sd_name s; sd_domain := ""; sd_numFrames := sd_numFrames s;
     sd_frames := sd_frames s |}.

Definition forget_domains (doc : steps_doc) : steps_doc :=
  {| steps := match steps doc with
              | Val l => Val (forget_step_domain <$> l)
              | Null => Null
              | Absent => Absent
              end |}.

(** A step created by the call, if any, is in the time domain. *)
Definition step_in_time (e : event) : Prop :=
  match e with
  | NewStep _ _ _ domain _ => domain = TIME
  | _ => True
  end.

(** The input files with the domains of the catalogs blanked. *)
Definition forget_env (E : env) : env :=
  {| mesh_at := mesh_at E;
     steps_at := fun p => forget_domains <$> steps_at E p;
     nt11_at := nt11_at E |}.

(** The key of the frame a record belongs to. *)
Definition frame_key (rec : stream_rec) : string * Z :=
  (to_str (Some (r_step rec)), r_frame_index rec).

(** The key of a section point in the pool. *)
Definition sp_key (d : sp_obj) : Z * string :=
  (match get_or_none (so_number d) with Some n => n | None => 1 end,
   to_str (dict_get_default (so_description d) ""%string)).

(** The labeled-data write of a record, to field output [fo] and instance
    [inst], with section-point argument [sp_arg]. *)
Definition add_data_of (rec : stream_rec) (fo inst : handle) (sp_arg : option handle)
    : event :=
  AddData fo (pos_from_name (r_position rec)) inst (ensure_tuple (r_labels rec))
    (ensure_tuple_seq (r_values rec)) sp_arg.

Definition missing_instance (rec : stream_rec) : exn :=
  RuntimeError ("Instance '" +:+ to_str (Some (r_instance rec))
                +:+ "' not found when writing NT11.").

(** The store log with one more call. *)
Definition with_call (e : event) (st : state) : state :=
  {| calls := calls st ++ [e]; fresh := fresh st; assembly := assembly st;
     inst_map := inst_map st; sp_pool := sp_pool st; step_objs := step_objs st;
     frame_objs := frame_objs st; nt11_cache := nt11_cache st |}.

(** The positions the stream format documents. *)
Definition known_positions : list string :=
  ["NODAL"; "ELEMENT_NODAL"; "INTEGRATION_POINT"; "WHOLE_ELEMENT"]%string.
End ImporterSpec.

Module ExporterHandles.
Import Exporter.

Definition ever_opened (tr : list event) : bool :=
  existsb (fun e => match e with OpenOdb _ _ => true | _ => false end) tr.

Definition is_handle_event (e : event) : bool :=
  match e with
  | OpenOdb _ _ | CloseOdb => true
  | _ => false
  end.
End ExporterHandles.

(** Calls that leave the store handle as it is. *)
Definition quiet_x (e : Exporter.event) : Prop := ExporterHandles.is_handle_event e = false.
Definition quiet_i (e : Importer.event) : Prop := ImporterSpec.is_handle_event e = false.

(** ** Sample stores and documents *)

Module Samples.
Import Exporter.

Definition f1 : float := Eval vm_compute in binary_normalize 53 1024 1 0 false.
Definition f2 : float := Eval vm_compute in binary_normalize 53 1024 2 0 false.

(** Two handles for the same section point. *)
Definition sp_top_a : SectionPoint :=
  {| sp_handle := 1; sp_number := Some 5; sp_description := Some "Top"%string |}.
Definition sp_top_b : SectionPoint :=
  {| sp_handle := 2; sp_number := Some 5; sp_description := Some "Top"%string |}.

Definition v_ip_a : FieldValue :=
  {| v_instance_name := "PART-1-1"; v_position := INTEGRATION_POINT;
     v_sectionPoint := Attr (Some sp_top_a);
     v_nodeLabel := NoAttr; v_elementLabel := Attr (Some 7);
     v_data := PyFloat f1 |}.
Definition v_ip_b : FieldValue :=
  {| v_instance_name := "PART-1-1"; v_position := INTEGRATION_POINT;
     v_sectionPoint := Attr (Some sp_top_b);
     v_nodeLabel := NoAttr; v_elementLabel := Attr (Some 8);
     v_data := PyTuple [PyFloat f2] |}.
Definition v_ip_plain : FieldValue :=
  {| v_instance_name := "PART-1-1"; v_position := INTEGRATION_POINT;
     v_sectionPoint := Attr None;
     v_nodeLabel := NoAttr; v_elementLabel := Attr (Some 7);
     v_data := PyInt 2 |}.
Definition v_bad : FieldValue :=
  {| v_instance_name := "PART-1-1"; v_position := NODAL;
     v_sectionPoint := NoAttr;
     v_nodeLabel := Attr (Some 1); v_elementLabel := NoAttr;
     v_data := PyList [PyNone] |}.

Definition values_ok : list FieldValue := [v_ip_a; v_ip_plain; v_ip_b].

Definition buckets_ok : list (bucket_key * bucket) :=
  Eval vm_compute in
    match bucket_values values_ok with Ok bs => bs | Raise _ => [] end.

Definition frame_of (vs : list FieldValue) : Frame :=
  {| fr_frameValue := f1; fr_description := Attr "Increment 1"%string;
     fr_fieldOutputs := [("NT11"%string, {| fo_values := vs |})] |}.

Definition odb_of (vs : list FieldValue) : Odb :=
  {| odb_instances :=
       [("PART-1-1"%string,
         {| inst_nodes := [ {| n_label := 1; n_coordinates := [f1; f2] |} ];
            inst_elements := [] |})];
     odb_steps :=
       [("Step-1"%string, {| step_domain := TIME; step_frames := [frame_of vs] |})] |}.

Definition odb_ok : Odb := odb_of values_ok.
Definition odb_bad : Odb := odb_of [v_bad].

Definition record_ok : stream_rec :=
  {| r_step := "Step-1"; r_frame_index := 0; r_frame_value := f1;
     r_instance := "PART-1-1"; r_position := "INTEGRATION_POINT";
     r_section_point := Val {| so_number := Val 5; so_description := Val "Top"%string |};
     r_labels := [7; 8];
     r_values := [Seq [f1]; Seq [f2]] |}.

Definition export_env (odb : Odb) : Exporter.env :=
  {| isdir := fun _ => true;
     odb_at := fun p => if String.eqb p "job.odb" then Some odb else None |}.

Definition export_argv : list string := ["--odb"; "job.odb"; "--out"; "out"]%string.
End Samples.

Module ImportSamples.
Import Importer.

Definition f1 : float := Samples.f1.

Definition mesh : mesh_doc :=
  {| instances :=
       [("PART-1-1"%string,
         {| id_nodes := Val [(1, f1, f1, float_zero); (2, Samples.f2, f1, float_zero)];
            id_elements := Val [ {| ed_label := 1; ed_type := "DC2D4";
                                    ed_connectivity := [1; 2] |} ] |})] |}.

Definition catalog (domain : string) : steps_doc :=
  {| steps :=
       Val [ {| sd_name := "Step-1"; sd_domain := domain; sd_numFrames := 1;
                sd_frames := Val [ {| fd_index := 0; fd_value := Val f1;
                                      fd_description := Val "Increment 1"%string |} ] |} ] |}.

Definition record_of (inst : string) (fidx : Z) (step position : string)
    (sp : jfield sp_obj) : stream_rec :=
  {| r_step := step; r_frame_index := fidx; r_frame_value := f1;
     r_instance := inst; r_position := position; r_section_point := sp;
     r_labels := [1; 2]; r_values := [Seq [f1]; Seq [Samples.f2]] |}.

Definition record : string -> string -> jfield sp_obj -> stream_rec :=
  record_of "PART-1-1" 0.
Definition record_at (inst : string) : string -> string -> jfield sp_obj -> stream_rec :=
  record_of inst 0.
Definition record_frame (fidx : Z) : string -> string -> jfield sp_obj -> stream_rec :=
  record_of "PART-1-1" fidx.

Definition files (doc : steps_doc) (recs : list stream_rec) : env :=
  {| mesh_at := fun p => if String.eqb p "mesh.json" then Some mesh else None;
     steps_at := fun p => if String.eqb p "steps.json" then Some doc else None;
     nt11_at := fun p => if String.eqb p "nt11.jsonl" then Some recs else None |}.

Definition argv : list string :=
  ["--mesh"; "mesh.json"; "--steps"; "steps.json"; "--nt11"; "nt11.jsonl";
   "--out"; "out.odb"]%string.

(** The tables and the log once the sample files were imported with an
    empty stream. *)
Definition after_empty_run : state :=
  Eval vm_compute in
    (main (files (catalog "TIME") []) argv initial).2.

(** The section category created by then. *)
Definition sCat : handle := 2%nat.
End ImportSamples.

(** ** Further vocabulary *)

Module ExporterMore.
Import Exporter ExporterSpec.

(** How many labels the buckets of a frame hold. *)
Definition total_labels (bs : list (bucket_key * bucket)) : nat :=
  sum_list_with (fun kb => length (b_labels kb.2)) bs.

(** A frame without temperature data: no field of that name, or a field
    without values. *)
Definition no_nt11 (fr : Frame) : Prop :=
  match dict_get "NT11"%string (fr_fieldOutputs fr) with
  | None => True
  | Some fo => fo_values fo = []
  end.

(** The row of a node: label, the first two coordinates, and the third
    coordinate or zero when there is none; nothing for a node with fewer
    than two coordinates. *)
Definition padded_row (n : Node) : option node_doc :=
  match n_coordinates n !! 0%nat, n_coordinates n !! 1%nat with
  | Some x, Some y =>
      Some (n_label n, x, y, default float_zero (n_coordinates n !! 2%nat))
  | _, _ => None
  end.

(** An instance of the store and its entry in the mesh document. *)
Definition exported_instance (src : string * Instance) (out : string * instance_doc) : Prop :=
  src.1 = out.1 /\
  id_elements out.2 = Val (element_row <$> inst_elements src.2) /\
  exists rows, id_nodes out.2 = Val rows /\ padded_row <$> inst_nodes src.2 = Some <$> rows.

(** A node with fewer than two coordinates somewhere in the store. *)
Definition has_short_node (odb : Odb) : Prop :=
  exists name inst n,
    (name, inst) ∈ odb_instances odb /\ n ∈ inst_nodes inst /\
    (length (n_coordinates n) < 2)%nat.

(** The names of the steps the filter retains, in source order. *)
Definition retained_names (odb : Odb) (step_filter : option (list string)) : list string :=
  filter (fun n => filtered_out step_filter n = false) (odb_steps odb).*1.

(** A step of the store and its entry in the catalog. *)
Definition catalogued_step (src : string * Step) (s : step_doc) : Prop :=
  sd_name s = src.1 /\
  sd_domain s = sc_name (step_domain src.2) /\
  sd_numFrames s = Z.of_nat (length (step_frames src.2)) /\
  exists fs,
    sd_frames s = Val fs /\
    fd_index <$> fs = seqZ 0 (Z.of_nat (length (step_frames src.2))) /\
    fd_value <$> fs = (fun fr => Val (fr_frameValue fr)) <$> step_frames src.2 /\
    fd_description <$> fs
    = (fun fr => Val (getattr (fr_description fr) ""%string)) <$> step_frames src.2.
End ExporterMore.

(** A program keeps an invariant of the state, whether it raises or not. *)
Definition preserves {St A} (I : St -> Prop) (m : prog St A) : Prop :=
  forall st, I st -> I (m st).2.

(** A string that does not start with white space. *)
Definition starts_clean (s : string) : Prop :=
  match s with
  | EmptyString => True
  | String c _ => is_space c = false
  end.

(** A step name as the argument parser keeps it: not empty, and without
    white space at either end. *)
Definition clean_name (s : string) : Prop :=
  s <> ""%string /\ strip s = s.

Module ImporterMore.
Import Importer ImporterSpec.

(** The element rows of one type, in the order of the mesh document. *)
Definition rows_of_type (ety : string) (elements : list element_doc) : list (list Z) :=
  element_row <$> filter (fun e => ed_type e = ety) elements.

(** The store log with more calls. *)
Definition with_calls (l : list event) (st : state) : state :=
  {| calls := calls st ++ l; fresh := fresh st; assembly := assembly st;
     inst_map := inst_map st; sp_pool := sp_pool st; step_objs := step_objs st;
     frame_objs := frame_objs st; nt11_cache := nt11_cache st |}.

(** The node call of an instance: one batch, or none without nodes. *)
Definition node_calls (p : handle) (inst_rec : instance_doc) : list event :=
  match id_nodes inst_rec with
  | Val ((_ :: _) as nodes) => [AddNodes p nodes]
  | _ => []
  end.

(** The element calls of an instance: one batch per type, none without
    elements.  The list follows [group_elements]; the order in which the
    importer makes these calls is that of the iteration of a dictionary,
    so statements about them are made up to their order. *)
Definition element_calls (p : handle) (inst_rec : instance_doc) : list event :=
  match id_elements inst_rec with
  | Val elements => (fun '(ety, eData) => AddElements p eData ety) <$> group_elements elements
  | _ => []
  end.

(** The value of the last frame of a catalog entry, when there is one. *)
Definition last_frame_value (s : step_doc) : option float :=
  match sd_frames s with
  | Val fs => match last fs with
              | Some fr => match fd_value fr with Val v => Some v | _ => None end
              | None => None
              end
  | _ => None
  end.

(** The frames a catalog entry lists. *)
Definition listed_frames (s : step_doc) : list frame_doc :=
  default [] (get_or_none (sd_frames s)).

(** The call that creates a frame of the catalog under handle [h]: the
    value is zero when the entry has none, the description is empty when
    the entry has none and the text None when it is null. *)
Definition frame_call (stp : handle) (h : handle) (fr : frame_doc) : event :=
  NewFrame h stp (fd_index fr) (default float_zero (get_or_none (fd_value fr)))
    (to_str (dict_get_default (fd_description fr) ""%string)).

(** The call that creates the step of a catalog entry under handle [h]. *)
Definition step_call (h : handle) (s : step_doc) : event :=
  NewStep h (sd_name s) "Imported step" TIME
    (py_max (default float_zero (last_frame_value s)) float_zero).

(** A catalog entry the importer can read to the end: the frame list is
    not null and no listed frame has a null value. *)
Definition sound_frames (s : step_doc) : Prop :=
  sd_frames s <> Null /\ Forall (fun fr => fd_value fr <> Null) (listed_frames s).

(** The tables of [st'] know the instances of [st] and keep every step and
    frame [st] has. *)
Definition tables_grow (st st' : state) : Prop :=
  inst_map st' = inst_map st /\
  (forall k, is_Some (step_objs st !! k) -> is_Some (step_objs st' !! k)) /\
  (forall k, is_Some (frame_objs st !! k) -> is_Some (frame_objs st' !! k)).

(** The state once the step of a catalog entry has been created and
    entered in the table of steps. *)
Definition step_started (s : step_doc) (st : state) : state :=
  {| calls := calls st ++ [step_call (fresh st) s]; fresh := S (fresh st);
     assembly := assembly st; inst_map := inst_map st; sp_pool := sp_pool st;
     step_objs := <[sd_name s := fresh st]> (step_objs st);
     frame_objs := frame_objs st; nt11_cache := nt11_cache st |}.

(** The state once the frame of a record is resolved: unchanged when the
    frame is known, with the frame created on the step of the record when
    only the step is known, and nothing when the step is unknown too. *)
Definition frame_ready (rec : stream_rec) (st : state) : option state :=
  match frame_objs st !! frame_key rec with
  | Some _ => Some st
  | None =>
      match step_objs st !! r_step rec with
      | None => None
      | Some stp =>
          Some {| calls := calls st ++ [NewFrame (fresh st) stp (r_frame_index rec)
                                          (r_frame_value rec) ""];
                  fresh := S (fresh st); assembly := assembly st;
                  inst_map := inst_map st; sp_pool := sp_pool st;
                  step_objs := step_objs st;
                  frame_objs := <[frame_key rec := fresh st]> (frame_objs st);
                  nt11_cache := nt11_cache st |}
      end
  end.

(** The field output of the frame of a record and the state once it is
    resolved: the cached one, or a new one on the frame. *)
Definition field_ready (rec : stream_rec) (st : state) : option (handle * state) :=
  match frame_objs st !! frame_key rec with
  | None => None
  | Some fobj =>
      match nt11_cache st !! frame_key rec with
      | Some fo => Some (fo, st)
      | None =>
          Some (fresh st,
                {| calls := calls st ++ [NewFieldOutput (fresh st) fobj "NT11"
                                           "Imported temperature" SCALAR];
                   fresh := S (fresh st); assembly := assembly st;
                   inst_map := inst_map st; sp_pool := sp_pool st;
                   step_objs := step_objs st; frame_objs := frame_objs st;
                   nt11_cache := <[frame_key rec := fresh st]> (nt11_cache st) |})
      end
  end.

(** The frames that were given a field output, and the section points
    that were created, in the order of the log. *)
Definition fo_frames (tr : list event) : list handle :=
  omap (fun e => match e with NewFieldOutput _ f _ _ _ => Some f | _ => None end) tr.
Definition sp_keys (tr : list event) : list (Z * string) :=
  omap (fun e => match e with NewSectionPoint _ _ n d => Some (n, d) | _ => None end) tr.

(** What every run keeps true of the log and the tables: frame handles
    were handed out, no two frame keys share a handle, a frame with a
    field output is cached under every key that leads to it and has only
    one field output, and a section point that was created is pooled and
    was created only once. *)
Definition consistent (st : state) : Prop :=
  (forall k h, frame_objs st !! k = Some h -> (h < fresh st)%nat) /\
  (forall k k' h, frame_objs st !! k = Some h -> frame_objs st !! k' = Some h -> k = k') /\
  (forall f, f ∈ fo_frames (calls st) ->
     (f < fresh st)%nat /\
     forall k, frame_objs st !! k = Some f -> is_Some (nt11_cache st !! k)) /\
  NoDup (fo_frames (calls st)) /\
  (forall k, k ∈ sp_keys (calls st) -> is_Some (sp_pool st !! k)) /\
  NoDup (sp_keys (calls st)).

(** A call that creates neither a field output nor a section point. *)
Definition plain_call (e : event) : Prop :=
  fo_frames [e] = [] /\ sp_keys [e] = [].

Definition is_new_frame (e : event) : bool :=
  match e with NewFrame _ _ _ _ _ => true | _ => false end.

(** The steps a catalog lists. *)
Definition catalog_steps (doc : steps_doc) : list step_doc :=
  default [] (get_or_none (steps doc)).

(** Every frame in the table of frames belongs to a step in the table of
    steps. *)
Definition frames_of_known_steps (st : state) : Prop :=
  forall n i, is_Some (frame_objs st !! (n, i)) -> is_Some (step_objs st !! n).

(** The input the importer accepts: the four arguments are given, the
    three files can be read, the catalog is sound (its step list is not
    null, no frame list is null and no listed frame has a null value), and
    every record of the stream names a step of the catalog and an instance
    of the mesh document. *)
Definition importable (E : env) (argv : list string) : Prop :=
  exists mesh_path steps_path nt11_path out_odb mesh doc recs,
    parse_args argv = Ok (mesh_path, steps_path, nt11_path, out_odb) /\
    mesh_at E mesh_path = Some mesh /\
    steps_at E steps_path = Some doc /\
    nt11_at E nt11_path = Some recs /\
    steps doc <> Null /\
    Forall sound_frames (catalog_steps doc) /\
    forall rec, rec ∈ recs ->
      r_step rec ∈ sd_name <$> catalog_steps doc /\
      r_instance rec ∈ (instances mesh).*1.

(** The labeled data written to the store, in the order of the log:
    position, labels and data of each write. *)
Definition written_data (tr : list event)
    : list (SymbolicConstant * list Z * list (list float)) :=
  omap (fun e => match e with
                 | AddData _ pos _ labels data _ => Some (pos, labels, data)
                 | _ => None
                 end) tr.

(** What the importer writes for a record. *)
Definition record_data (rec : stream_rec)
    : SymbolicConstant * list Z * list (list float) :=
  (pos_from_name (r_position rec), ensure_tuple (r_labels rec),
   ensure_tuple_seq (r_values rec)).

(** The stream a command line points to; empty when the arguments are
    rejected or the file cannot be read. *)
Definition stream_of (E : env) (argv : list string) : list stream_rec :=
  match parse_args argv with
  | Ok (_, _, nt11_path, _) => default [] (nt11_at E nt11_path)
  | Raise _ => []
  end.

(** The data written so far are [w]. *)
Definition keeps_data (w : list (SymbolicConstant * list Z * list (list float)))
    (st : state) : Prop :=
  written_data (calls st) = w.

(** A program that writes no labeled data. *)
Definition unwritten {A} (m : prog state A) : Prop :=
  forall w, preserves (keeps_data w) m.

(** A program that writes the data of the first records of [recs], in
    order, and of all of them when it returns normally. *)
Definition streams {A} (recs : list stream_rec) (m : prog state A) : Prop :=
  forall st, exists n,
    written_data (calls (m st).2)
    = written_data (calls st) ++ (record_data <$> take n recs) /\
    (is_ok (m st).1 = true -> n = length recs).

(** The names of the parts and of the instances created, in the order
    of the log. *)
Definition created_parts (tr : list event) : list string :=
  omap (fun e => match e with Part _ name _ _ => Some name | _ => None end) tr.
Definition created_instances (tr : list event) : list string :=
  omap (fun e => match e with NewInstance _ name _ => Some name | _ => None end) tr.

(** The steps created, in the order of the log: name, description and
    domain of each. *)
Definition created_steps (tr : list event) : list (string * string * SymbolicConstant) :=
  omap (fun e => match e with
                 | NewStep _ name description domain _ => Some (name, description, domain)
                 | _ => None
                 end) tr.

(** The catalog entries a command line points to; none when the arguments
    are rejected or the catalog cannot be read. *)
Definition catalog_of (E : env) (argv : list string) : list step_doc :=
  match parse_args argv with
  | Ok (_, steps_path, _, _) =>
      match steps_at E steps_path with
      | Some doc => catalog_steps doc
      | None => []
      end
  | Raise _ => []
  end.

(** A program that creates no step. *)
Definition stepless {A} (m : prog state A) : Prop :=
  forall w, preserves (fun st => created_steps (calls st) = w) m.

(** A program that creates a step for the first entries of [l], in
    order, in the time domain, and for all of them when it returns
    normally, and no other step. *)
Definition steps_from {A} (l : list step_doc) (m : prog state A) : Prop :=
  forall st, exists n,
    created_steps (calls (m st).2)
    = created_steps (calls st)
      ++ ((fun s => (sd_name s, "Imported step"%string, TIME)) <$> take n l) /\
    (is_ok (m st).1 = true -> n = length l).
End ImporterMore.

(** What the importer reads back from the exporter's text. *)
Module RoundTrip.

(** The position read back for a position of the store: itself when it is
    one of the four the importer knows, and NODAL otherwise. *)
Definition read_position (pos : SymbolicConstant) : SymbolicConstant :=
  if bool_decide (pos ∈ [NODAL; ELEMENT_NODAL; INTEGRATION_POINT; WHOLE_ELEMENT])
  then pos else NODAL.

(** The pool key read back for a section point of the store: number 1
    when it has no number, and the text None when it has no description. *)
Definition read_key (sp : Exporter.SectionPoint) : Z * string :=
  (default 1 (Exporter.sp_number sp), default "None"%string (Exporter.sp_description sp)).

(** Every temperature value of the store belongs to an instance of the
    store. *)
Definition values_in_instances (odb : Exporter.Odb) : Prop :=
  forall sname step fr fo v,
    (sname, step) ∈ Exporter.odb_steps odb ->
    fr ∈ Exporter.step_frames step ->
    dict_get "NT11"%string (Exporter.fr_fieldOutputs fr) = Some fo ->
    v ∈ Exporter.fo_values fo ->
    Exporter.v_instance_name v ∈ (Exporter.odb_instances odb).*1.
End RoundTrip.

(** Further sample data. *)
Module MoreSamples.

(** A store whose only frame has a temperature field without values. *)
Definition odb_no_values : Exporter.Odb := Samples.odb_of [].

(** A catalog entry with one frame, and one whose second frame has a null
    value. *)
Definition frame_ok : frame_doc :=
  {| fd_index := 0; fd_value := Val Samples.f1;
     fd_description := Val "Increment 1"%string |}.
Definition frame_null : frame_doc :=
  {| fd_index := 1; fd_value := Null; fd_description := Absent |}.
Definition step_ok : step_doc :=
  {| sd_name := "Step-1"; sd_domain := "TIME"; sd_numFrames := 1;
     sd_frames := Val [frame_ok] |}.
Definition step_null_value : step_doc :=
  {| sd_name := "Step-1"; sd_domain := "TIME"; sd_numFrames := 2;
     sd_frames := Val [frame_ok; frame_null] |}.

(** The three documents of an export of the sample store, as the files
    of an import. *)
Definition exported_mesh : mesh_doc :=
  Eval vm_compute in
    match Exporter.mesh_of Samples.odb_ok with
    | Ok m => m
    | Raise _ => {| instances := [] |}
    end.
Definition exported_files : Importer.env :=
  {| Importer.mesh_at := fun p => if String.eqb p "mesh.json" then Some exported_mesh else None;
     Importer.steps_at := fun p =>
       if String.eqb p "steps.json" then Some (Exporter.steps_of Samples.odb_ok None)
       else None;
     Importer.nt11_at := fun p =>
       if String.eqb p "nt11.jsonl"
       then Some (Exporter.lines_written
                    (Exporter.export_nt11 Samples.odb_ok None "out" []).2)
       else None |}.

(** A mesh document with two instances, the second a point cloud, and the
    files of an import that reads it. *)
Definition mesh_two : mesh_doc :=
  {| instances :=
       instances ImportSamples.mesh
       ++ [("PART-2-1"%string,
            {| id_nodes := Val [(1, Samples.f1, Samples.f2, float_zero)];
               id_elements := Absent |})] |}.
Definition files_two : Importer.env :=
  {| Importer.mesh_at := fun p => if String.eqb p "mesh.json" then Some mesh_two else None;
     Importer.steps_at := fun _ => None;
     Importer.nt11_at := fun _ => None |}.
End MoreSamples.

(** ** Strings and the JSON encoding *)

Lemma append_nil_l (b : string) : "" +:+ b = b.
Proof. reflexivity. Qed.

Lemma append_cons (x : ascii) (a b : string) : String x a +:+ b = String x (a +:+ b).
Proof. reflexivity. Qed.

Lemma append_assoc (a b c : string) : (a +:+ b) +:+ c = a +:+ (b +:+ c).
Proof.
  induction a as [|x a IH]; rewrite ?append_nil_l, ?append_cons; congruence.
Qed.

Lemma append_length (a b : string) :
  String.length (a +:+ b) = (String.length a + String.length b)%nat.
Proof.
  induction a as [|x a IH]; rewrite ?append_nil_l, ?append_cons; simpl; congruence.
Qed.

Lemma append_inv_tail (a b t : string) : a +:+ t = b +:+ t -> a = b.
Proof.
  intros H.
  assert (Hlen : String.length a = String.length b).
  { apply (f_equal String.length) in H. rewrite !append_length in H. lia. }
  revert b H Hlen. induction a as [|x a IH]; intros [|y b] H Hlen; simpl in Hlen;
    try done.
  rewrite !append_cons in H. injection H as -> H. f_equal. apply IH; [done | lia].
Qed.

Lemma unescape_escape_char (c : ascii) (rest : string) :
  unescape_char (escape_char c +:+ rest) = Some (c, rest).
Proof. destruct c as [[] [] [] [] [] [] [] []]; reflexivity. Qed.

Lemma unescape_dquote (rest : string) : unescape_char (String dquote rest) = None.
Proof. reflexivity. Qed.

Lemma escape_cons (c : ascii) (s : string) :
  escape (String c s) = escape_char c +:+ escape s.
Proof. reflexivity. Qed.

(** The escaped form of a string, followed by the closing quote, determines
    the string and what follows it. *)
Lemma escape_inj (s1 s2 r1 r2 : string) :
  escape s1 +:+ String dquote r1 = escape s2 +:+ String dquote r2 ->
  s1 = s2 /\ r1 = r2.
Proof.
  revert s2. induction s1 as [|c1 s1 IH]; intros [|c2 s2] H;
    rewrite ?escape_cons, ?append_assoc in H;
    apply (f_equal unescape_char) in H as H';
    rewrite ?unescape_escape_char in H'.
  - rewrite !append_nil_l in H. by injection H as ->.
  - done.
  - done.
  - injection H' as -> H'. destruct (IH _ H') as [-> ->]. done.
Qed.

Lemma to_int_nonnil (z : Z) : Z.to_int z <> Decimal.Pos Decimal.Nil /\ Z.to_int z <> Decimal.Neg Decimal.Nil.
Proof.
  destruct z as [|p|p]; simpl; split; try discriminate;
    intros [= H]; by apply DecimalPos.Unsigned.to_uint_nonnil in H.
Qed.

Lemma int_of_string_dumps (z : Z) :
  NilZero.int_of_string (json_dumps_int z) = Some (Z.to_int z).
Proof.
  unfold json_dumps_int. destruct (to_int_nonnil z). by apply NilZero.isi.
Qed.

Lemma json_dumps_int_inj (z1 z2 : Z) : json_dumps_int z1 = json_dumps_int z2 -> z1 = z2.
Proof.
  intros H. apply DecimalZ.to_int_inj.
  apply (f_equal NilZero.int_of_string) in H.
  rewrite !int_of_string_dumps in H. by injection H.
Qed.

Lemma json_dumps_int_not_null (z : Z) : json_dumps_int z <> "null"%string.
Proof.
  intros H. apply (f_equal NilZero.int_of_string) in H.
  rewrite int_of_string_dumps in H. discriminate H.
Qed.

Lemma json_dumps_sp_shape (sp : Exporter.SectionPoint) :
  json_dumps_sp (Exporter.sp_to_dict (Some sp)) =
  description_key +:+
  (desc_text (Exporter.sp_description sp) +:+
   (String "," number_key +:+ (num_text (Exporter.sp_number sp) +:+ "}"))).
Proof.
  destruct sp as [h [n|] [d|]]; unfold json_dumps_sp, json_dumps_object; simpl;
    rewrite ?append_assoc; reflexivity.
Qed.

Lemma desc_text_inj (d1 d2 : option string) (m r1 r2 : string) :
  desc_text d1 +:+ (String "," m +:+ r1) = desc_text d2 +:+ (String "," m +:+ r2) ->
  d1 = d2 /\ r1 = r2.
Proof.
  destruct d1 as [s1|], d2 as [s2|]; unfold desc_text, json_dumps_str; intros H.
  - rewrite !append_cons, !append_assoc, !append_cons, !append_nil_l in H.
    injection H as H. apply escape_inj in H as [-> [= H]].
    apply String.app_inj in H. by subst.
  - rewrite !append_cons in H. discriminate H.
  - rewrite !append_cons in H. discriminate H.
  - apply String.app_inj in H. rewrite !append_cons in H. injection H as H.
    apply String.app_inj in H. by subst.
Qed.

Lemma num_text_inj (n1 n2 : option Z) : num_text n1 = num_text n2 -> n1 = n2.
Proof.
  destruct n1 as [z1|], n2 as [z2|]; unfold num_text; intros H.
  - f_equal. by apply json_dumps_int_inj.
  - by apply json_dumps_int_not_null in H.
  - symmetry in H. by apply json_dumps_int_not_null in H.
  - done.
Qed.

(** The key text of a section point determines its number and description,
    and tells a missing section point from a present one. *)
Lemma json_dumps_sp_inj (sp1 sp2 : option Exporter.SectionPoint) :
  json_dumps_sp (Exporter.sp_to_dict sp1) = json_dumps_sp (Exporter.sp_to_dict sp2) ->
  ExporterSpec.sp_content sp1 = ExporterSpec.sp_content sp2.
Proof.
  destruct sp1 as [sp1|], sp2 as [sp2|]; intros H.
  - rewrite !json_dumps_sp_shape in H.
    apply String.app_inj in H.
    apply desc_text_inj in H as [Hd H].
    apply append_inv_tail in H.
    apply num_text_inj in H.
    unfold ExporterSpec.sp_content; simpl. congruence.
  - rewrite json_dumps_sp_shape in H. discriminate H.
  - rewrite json_dumps_sp_shape in H. discriminate H.
  - done.
Qed.

Lemma json_dumps_sp_content (sp1 sp2 : option Exporter.SectionPoint) :
  ExporterSpec.sp_content sp1 = ExporterSpec.sp_content sp2 ->
  Exporter.sp_to_dict sp1 = Exporter.sp_to_dict sp2.
Proof.
  destruct sp1 as [[h1 n1 d1]|], sp2 as [[h2 n2 d2]|]; unfold ExporterSpec.sp_content;
    simpl; intros H; try done.
  by injection H as -> ->.
Qed.

(** ** Insertion-ordered dictionaries *)

Section DictFacts.
Context {K V : Type} `{EqDecision K}.
Implicit Types (k : K) (v : V) (d : list (K * V)).

Lemma dict_get_None k d : dict_get k d = None <-> k ∉ d.*1.
Proof.
  induction d as [|[k' v'] d IH]; simpl.
  - split; [intros _; apply not_elem_of_nil | done].
  - destruct (decide (k' = k)) as [->|Hk].
    + split; [done | intros Hn; exfalso; apply Hn; left].
    + rewrite IH, not_elem_of_cons. split; [by intros; split | by intros []].
Qed.

Lemma dict_get_snoc k k' v d :
  dict_get k (d ++ [(k', v)]) =
  match dict_get k d with
  | Some x => Some x
  | None => if decide (k' = k) then Some v else None
  end.
Proof.
  induction d as [|[k0 v0] d IH]; simpl; [done |].
  destruct (decide (k0 = k)); [done | apply IH].
Qed.

Lemma dict_get_setdefault k k' v d :
  dict_get k (dict_setdefault k' v d) =
  match dict_get k d with
  | Some x => Some x
  | None => if decide (k' = k) then Some v else None
  end.
Proof.
  unfold dict_setdefault. destruct (dict_get k' d) as [x|] eqn:Hk'.
  - destruct (dict_get k d) eqn:Hk; [done |].
    destruct (decide (k' = k)); subst; congruence.
  - apply dict_get_snoc.
Qed.

Lemma dict_get_alter (f : V -> V) k k' d :
  dict_get k (dict_alter f k' d) =
  if decide (k' = k) then f <$> dict_get k d else dict_get k d.
Proof.
  induction d as [|[k0 v0] d IH]; simpl.
  - by destruct (decide (k' = k)).
  - destruct (decide (k0 = k')) as [->|Hne]; simpl.
    + destruct (decide (k' = k)) as [->|]; simpl; done.
    + destruct (decide (k0 = k)) as [->|]; simpl.
      * destruct (decide (k' = k)); [congruence | done].
      * apply IH.
Qed.

Lemma dict_alter_keys (f : V -> V) k d : (dict_alter f k d).*1 = d.*1.
Proof.
  induction d as [|[k0 v0] d IH]; simpl; [done |].
  destruct (decide (k0 = k)); simpl; [done | by f_equal].
Qed.

Lemma dict_setdefault_NoDup k v d : NoDup d.*1 -> NoDup (dict_setdefault k v d).*1.
Proof.
  intros Hd. unfold dict_setdefault. destruct (dict_get k d) eqn:Hk; [done |].
  rewrite fmap_app. simpl. apply NoDup_app. split; [done |]. split.
  - intros x Hx Hx'. apply list_elem_of_singleton in Hx'. subst.
    by apply dict_get_None in Hk.
  - apply NoDup_singleton.
Qed.

Lemma dict_get_elem_of k v d : NoDup d.*1 -> (k, v) ∈ d <-> dict_get k d = Some v.
Proof.
  induction d as [|[k0 v0] d IH]; simpl; intros Hd.
  - split; [intros Hin; by apply elem_of_nil in Hin | done].
  - apply NoDup_cons in Hd as [Hk0 Hd]. rewrite elem_of_cons.
    destruct (decide (k0 = k)) as [->|Hk].
    + split; [|by intros [= ->]; left].
      intros [[= ->]|Hin]; [done |].
      exfalso. apply Hk0. apply list_elem_of_fmap. by exists (k, v).
    + rewrite <- IH by done. split; [|by right].
      intros [[= ? ?]|Hin]; [by subst | done].
Qed.
End DictFacts.

(** ** The exporter: bucket keys *)

Section ExporterKeys.
Import Exporter ExporterSpec.

Lemma position_name_name (pos : SymbolicConstant) : position_name pos = sc_name pos.
Proof.
  unfold position_name, sc_eqb.
  repeat (case_bool_decide; [by subst |]). done.
Qed.

Lemma position_name_inj (p1 p2 : SymbolicConstant) :
  position_name p1 = position_name p2 -> p1 = p2.
Proof. rewrite !position_name_name. destruct p1, p2; simpl. congruence. Qed.

(** Two records have the same key exactly when they belong to the same
    slot. *)
Lemma key_of_slot (v1 v2 : FieldValue) : key_of v1 = key_of v2 <-> slot_of v1 = slot_of v2.
Proof.
  unfold key_of, slot_of, value_sp, section_point_of. split.
  - intros [= Hi Hp Hs]. apply position_name_inj in Hp.
    apply json_dumps_sp_inj in Hs. congruence.
  - intros [= Hi Hp Hs]. apply json_dumps_sp_content in Hs. congruence.
Qed.

Lemma key_of_None_Some (v1 v2 : FieldValue) (sp : SectionPoint) :
  section_point_of v1 = None -> section_point_of v2 = Some sp -> key_of v1 <> key_of v2.
Proof.
  intros H1 H2 Hk. apply key_of_slot in Hk. unfold slot_of in Hk.
  rewrite H1, H2 in Hk. discriminate Hk.
Qed.
End ExporterKeys.

(** ** The exporter: what a frame's buckets hold *)

Section ExporterBuckets.
Import Exporter ExporterSpec.

Lemma extend_nil (b : bucket) : extend b [] = b.
Proof. destruct b; unfold extend; simpl. by rewrite !app_nil_r. Qed.

Lemma extend_append (b : bucket) (l : Z) (x : float) (es : list (Z * float)) :
  extend (bucket_append l x b) es = extend b ((l, x) :: es).
Proof. unfold extend, bucket_append; simpl. by rewrite <- !app_assoc. Qed.

Lemma add_value_Ok (acc acc' : list (bucket_key * bucket)) (v : FieldValue) :
  add_value acc v = Ok acc' ->
  exists l x,
    entry_of v = Ok (l, x) /\
    acc' = dict_alter (bucket_append l x) (key_of v)
             (dict_setdefault (key_of v) (new_bucket v) acc).
Proof.
  unfold add_value, entry_of.
  destruct (value_to_float (v_data v)) as [x|e]; simpl; [|done].
  destruct (py_int (value_label v)) as [l|e]; simpl; [|done].
  intros [= <-]. by exists l, x.
Qed.

Lemma add_value_keys_NoDup (acc acc' : list (bucket_key * bucket)) (v : FieldValue) :
  add_value acc v = Ok acc' -> NoDup acc.*1 -> NoDup acc'.*1.
Proof.
  intros (l & x & _ & ->)%add_value_Ok Hacc.
  rewrite dict_alter_keys. by apply dict_setdefault_NoDup.
Qed.

Lemma foldM_add_value_NoDup (vs : list FieldValue) :
  forall acc bs, foldM add_value acc vs = Ok bs -> NoDup acc.*1 -> NoDup bs.*1.
Proof.
  induction vs as [|v vs IH]; simpl; intros acc bs H Hacc.
  - by injection H as <-.
  - destruct (add_value acc v) as [acc'|e] eqn:Hv; simpl in H; [|done].
    eapply IH; [done |]. by eapply add_value_keys_NoDup.
Qed.

(** What is found under a key after a run of the loop: the bucket that
    was there, or a new one, with the entries of the records of that key
    appended in order. *)
Lemma foldM_add_value_get (vs : list FieldValue) :
  forall acc bs, foldM add_value acc vs = Ok bs ->
  forall k, exists es,
    mapM entry_of (under_key k vs) = Ok es /\
    dict_get k bs =
    match dict_get k acc with
    | Some b => Some (extend b es)
    | None => match under_key k vs with
              | [] => None
              | v0 :: _ => Some (extend (new_bucket v0) es)
              end
    end.
Proof.
  induction vs as [|v vs IH]; simpl; intros acc bs H k.
  - injection H as <-. exists []. split; [done |].
    destruct (dict_get k acc); [by rewrite extend_nil | done].
  - destruct (add_value acc v) as [acc'|e] eqn:Hv; simpl in H; [|done].
    destruct (add_value_Ok _ _ _ Hv) as (l & x & He & ->).
    destruct (IH _ _ H k) as (es & Hes & Hget).
    rewrite dict_get_alter, dict_get_setdefault in Hget.
    unfold under_key in *. rewrite filter_cons.
    destruct (decide (key_of v = k)) as [Hk|Hk].
    + exists ((l, x) :: es). split.
      * simpl. rewrite He. simpl. by rewrite Hes.
      * rewrite Hget. destruct (dict_get k acc); simpl; by rewrite extend_append.
    + exists es. split; [done |]. rewrite Hget.
      by destruct (dict_get k acc).
Qed.

(** Every bucket of a frame holds exactly the records of its key, in
    source order, and starts from the first of them. *)
Lemma bucket_values_spec (vs : list FieldValue) (bs : list (bucket_key * bucket))
    (k : bucket_key) (b : bucket) :
  bucket_values vs = Ok bs -> (k, b) ∈ bs ->
  exists v0 rest es,
    under_key k vs = v0 :: rest /\
    mapM entry_of (v0 :: rest) = Ok es /\
    b = extend (new_bucket v0) es.
Proof.
  unfold bucket_values. intros H Hin.
  apply dict_get_elem_of in Hin;
    [|by eapply foldM_add_value_NoDup; [done | apply NoDup_nil]].
  destruct (foldM_add_value_get _ _ _ H k) as (es & Hes & Hget).
  simpl in Hget. rewrite Hin in Hget.
  destruct (under_key k vs) as [|v0 rest]; [done |].
  injection Hget as ->. by exists v0, rest, es.
Qed.

(** Every record of a frame that was read has its bucket. *)
Lemma bucket_values_covers (vs : list FieldValue) (bs : list (bucket_key * bucket))
    (v : FieldValue) :
  bucket_values vs = Ok bs -> v ∈ vs -> exists b, (key_of v, b) ∈ bs.
Proof.
  unfold bucket_values. intros H Hin.
  destruct (foldM_add_value_get _ _ _ H (key_of v)) as (es & Hes & Hget).
  simpl in Hget.
  assert (Hv : v ∈ under_key (key_of v) vs) by by apply list_elem_of_filter.
  destruct (under_key (key_of v) vs) as [|v0 rest]; [by apply elem_of_nil in Hv |].
  eexists. apply dict_get_elem_of; [|done].
  by eapply foldM_add_value_NoDup; [done | apply NoDup_nil].
Qed.
End ExporterBuckets.

(** ** Programs and their logs *)

Section ProgFacts.
Context {St E : Type} (log : St -> list E) (P : E -> Prop).

Lemma bind_run {A B} (m : prog St A) (f : A -> prog St B) (st : St) :
  (m ≫= f) st =
  match m st with
  | (Ok a, st') => f a st'
  | (Raise e, st') => (Raise e, st')
  end.
Proof. reflexivity. Qed.

Lemma appends_ret {A} (a : A) : appends log P (mret a : prog St A).
Proof. intros st. exists []. by rewrite app_nil_r. Qed.

Lemma appends_raise {A} (e : exn) : appends log P (raise e : prog St A).
Proof. intros st. exists []. by rewrite app_nil_r. Qed.

Lemma appends_lift {A} (r : result A) : appends log P (lift r : prog St A).
Proof. intros st. exists []. by rewrite app_nil_r. Qed.

Lemma appends_get_state : appends log P (get_state : prog St St).
Proof. intros st. exists []. by rewrite app_nil_r. Qed.

Lemma appends_modify (f : St -> St) (tr : list E) :
  (forall st, log (f st) = log st ++ tr) -> Forall P tr -> appends log P (modify f).
Proof. intros Hf Htr st. exists tr. by rewrite <- Hf. Qed.

Lemma appends_bind {A B} (m : prog St A) (f : A -> prog St B) :
  appends log P m -> (forall a, appends log P (f a)) -> appends log P (m ≫= f).
Proof.
  intros Hm Hf st. rewrite bind_run.
  destruct (Hm st) as (tr & Htr & HP). destruct (m st) as [[a|e] st']; simpl in *.
  - destruct (Hf a st') as (tr' & Htr' & HP'). exists (tr ++ tr').
    rewrite Htr', Htr, <- app_assoc. split; [done | by apply Forall_app].
  - by exists tr.
Qed.

Lemma appends_bind_lift {A B} (r : result A) (f : A -> prog St B) :
  (forall a, r = Ok a -> appends log P (f a)) -> appends log P (lift r ≫= f).
Proof.
  intros Hf st. rewrite bind_run. destruct r as [a|e]; simpl.
  - by apply Hf.
  - exists []. by rewrite app_nil_r.
Qed.

Lemma appends_for_each {A} (xs : list A) (body : A -> prog St unit) :
  (forall x, x ∈ xs -> appends log P (body x)) -> appends log P (for_each xs body).
Proof.
  induction xs as [|x xs IH]; simpl; intros Hbody.
  - apply appends_ret.
  - apply appends_bind.
    + apply Hbody. left.
    + intros _. apply IH. intros y Hy. apply Hbody. by right.
Qed.

Lemma total_bind {A B} (m : prog St A) (f : A -> prog St B) :
  total m -> (forall a, total (f a)) -> total (m ≫= f).
Proof.
  intros Hm Hf st. rewrite bind_run. destruct (Hm st) as [a Ha].
  destruct (m st) as [[a'|e] st']; simpl in *; [|done]. apply Hf.
Qed.

Lemma total_for_each {A} (xs : list A) (body : A -> prog St unit) :
  (forall x, total (body x)) -> total (for_each xs body).
Proof.
  intros Hbody. induction xs as [|x xs IH]; simpl.
  - intros st. by exists tt.
  - apply total_bind; [apply Hbody | by intros _].
Qed.

(** A loop raises as soon as one of its iterations is bound to raise. *)
Lemma for_each_raises {A} (xs : list A) (body : A -> prog St unit) (x : A) :
  x ∈ xs -> (forall st, is_ok (body x st).1 = false) ->
  forall st, is_ok (for_each xs body st).1 = false.
Proof.
  intros Hin Hx. induction xs as [|y xs IH]; [by apply elem_of_nil in Hin |].
  intros st. simpl. rewrite bind_run.
  apply elem_of_cons in Hin as [->|Hin].
  - specialize (Hx st). by destruct (body y st) as [[[]|e] st'].
  - destruct (body y st) as [[[]|e] st']; [by apply IH | done].
Qed.
End ProgFacts.

(** ** The exporter: what is written to the stream *)

Section ExporterStream.
Import Exporter ExporterSpec.

Lemma appends_emit (P : event -> Prop) (e : event) :
  P e -> appends (fun tr => tr) P (emit e).
Proof. intros He. apply (appends_modify _ _ _ [e]); [done | by apply Forall_singleton]. Qed.

Lemma export_frame_appends (odb : Odb) (step_filter : option (list string))
    (sname : string) (step : Step) (fidx : Z) (fr : Frame) :
  (sname, step) ∈ odb_steps odb ->
  filtered_out step_filter sname = false ->
  (fidx, fr) ∈ enumerate (step_frames step) ->
  appends (fun tr => tr)
    (stream_event (fun rec => exists fo k b, record_of_bucket odb step_filter fo k b rec))
    (export_frame sname fidx fr).
Proof.
  intros Hs Hf Hfr. unfold export_frame.
  destruct (dict_get _ (fr_fieldOutputs fr)) as [fo|] eqn:Hfo; [|apply appends_ret].
  destruct (fo_values fo) as [|v vs] eqn:Hvs; [apply appends_ret |].
  apply appends_bind_lift. intros bs Hbs.
  apply appends_for_each. intros [k b] Hkb. apply appends_emit. simpl.
  exists fo, k, b, sname, step, fidx, fr, bs. by rewrite Hvs.
Qed.

(** Whatever [export_nt11] writes to the stream is the record of a bucket
    of a retained frame. *)
Lemma export_nt11_appends (odb : Odb) (step_filter : option (list string))
    (out_dir : string) :
  appends (fun tr => tr)
    (stream_event (fun rec => exists fo k b, record_of_bucket odb step_filter fo k b rec))
    (export_nt11 odb step_filter out_dir).
Proof.
  unfold export_nt11. apply appends_bind; [by apply appends_emit |]. intros _.
  apply appends_bind; [|intros _; by apply appends_emit].
  apply appends_for_each. intros [sname step] Hs. unfold export_step.
  destruct (filtered_out step_filter sname) eqn:Hf; [apply appends_ret |].
  apply appends_for_each. intros [fidx fr] Hfr.
  by eapply export_frame_appends.
Qed.

Lemma lines_written_elem (tr : list event) (rec : stream_rec) :
  rec ∈ lines_written tr <-> WriteLine rec ∈ tr.
Proof.
  unfold lines_written. rewrite list_elem_of_omap. split.
  - intros (e & He & Hrec). destruct e; try done. by injection Hrec as ->.
  - intros He. by exists (WriteLine rec).
Qed.

Lemma mapM_entry_labels (vs : list FieldValue) (es : list (Z * float)) :
  mapM entry_of vs = Ok es -> value_label <$> vs = Some <$> es.*1.
Proof.
  revert es. induction vs as [|v vs IH]; simpl; intros es H.
  - by injection H as <-.
  - destruct (entry_of v) as [[l x]|e] eqn:Hv; simpl in H; [|done].
    destruct (mapM entry_of vs) as [es'|e]; simpl in H; [|done].
    injection H as <-. simpl. f_equal; [|by apply IH].
    unfold entry_of in Hv.
    destruct (value_to_float (v_data v)); simpl in Hv; [|done].
    unfold py_int in Hv. destruct (value_label v); simpl in Hv; [|done].
    by injection Hv as -> _.
Qed.

Lemma NoDup_fmap_weaken {A B C} (f : A -> B) (g : A -> C) (l : list A) :
  (forall x y, x ∈ l -> y ∈ l -> g x = g y -> f x = f y) ->
  NoDup (f <$> l) -> NoDup (g <$> l).
Proof.
  induction l as [|a l IH]; simpl; intros Hfg Hf; [apply NoDup_nil_2 |].
  apply NoDup_cons in Hf as [Ha Hf]. apply NoDup_cons. split.
  - intros (y & Hy & Hin)%list_elem_of_fmap. apply Ha.
    apply list_elem_of_fmap. exists y. split; [|done].
    apply Hfg; [left | by right | done].
  - apply IH; [|done]. intros x y Hx Hy. apply Hfg; by right.
Qed.

(** Under the uniqueness assumption, the labels of the records of one key
    are pairwise distinct. *)
Lemma under_key_labels_NoDup (vs : list FieldValue) (k : bucket_key) :
  unique_labels vs -> NoDup (value_label <$> under_key k vs).
Proof.
  unfold unique_labels, under_key. intros Hu.
  apply (NoDup_fmap_weaken (fun v => (slot_of v, value_label v))).
  - intros x y [Hx _]%list_elem_of_filter [Hy _]%list_elem_of_filter Hl.
    f_equal; [|done]. apply key_of_slot. congruence.
  - eapply sublist_NoDup; [exact Hu |]. apply fmap_sublist, sublist_filter.
Qed.
End ExporterStream.

(** ** The exporter: the claims on bucketing and coercion *)

Section ExporterClaims.
Import Exporter ExporterSpec.

Lemma elem_of_enumerate_from {A} (xs : list A) (i j : Z) (x : A) :
  (j, x) ∈ enumerate_from i xs -> x ∈ xs.
Proof.
  revert i. induction xs as [|y xs IH]; simpl; intros i H.
  - by apply elem_of_nil in H.
  - apply elem_of_cons in H as [[= _ ->]|H]; [left | right; by eapply IH].
Qed.

Lemma extend_new_labels (v0 : FieldValue) (es : list (Z * float)) :
  b_labels (extend (new_bucket v0) es) = es.*1.
Proof. reflexivity. Qed.

Lemma extend_new_values (v0 : FieldValue) (es : list (Z * float)) :
  b_values (extend (new_bucket v0) es) = (fun x => [x]) <$> es.*2.
Proof. reflexivity. Qed.

Lemma zip_entries (es : list (Z * float)) :
  zip es.*1 (Seq <$> ((fun x => [x]) <$> es.*2)) = (fun '(l, x) => (l, Seq [x])) <$> es.
Proof. induction es as [|[l x] es IH]; simpl; [done | by f_equal]. Qed.

(** A value that could not be coerced makes the loop over the frame
    raise. *)
Lemma bucket_values_raises (vs : list FieldValue) (v : FieldValue) :
  v ∈ vs -> is_ok (value_to_float (v_data v)) = false ->
  is_ok (bucket_values vs) = false.
Proof.
  intros Hin Hv. destruct (bucket_values vs) as [bs|e] eqn:Hbs; [|done].
  destruct (bucket_values_covers _ _ _ Hbs Hin) as [b Hb].
  destruct (bucket_values_spec _ _ _ _ Hbs Hb) as (v0 & rest & es & Hk & Hes & _).
  assert (Hv' : v ∈ v0 :: rest) by (rewrite <- Hk; by apply list_elem_of_filter).
  clear Hk. revert es Hes. induction Hv' as [v l|v w l Hl IH]; simpl; intros es Hes.
  - unfold entry_of in Hes. by destruct (value_to_float (v_data v)).
  - destruct (entry_of w); simpl in Hes; [|done].
    destruct (mapM entry_of l) eqn:Hm; simpl in Hes; [|done]. by eapply IH.
Qed.

Lemma export_frame_raises (sname : string) (fidx : Z) (fr : Frame) (fo : FieldOutput)
    (v : FieldValue) (tr : list event) :
  dict_get "NT11"%string (fr_fieldOutputs fr) = Some fo ->
  v ∈ fo_values fo -> is_ok (value_to_float (v_data v)) = false ->
  exists e, export_frame sname fidx fr tr = (Raise e, tr).
Proof.
  intros Hfo Hin Hv. unfold export_frame. rewrite Hfo.
  pose proof (bucket_values_raises _ _ Hin Hv) as Hr.
  destruct (fo_values fo) as [|w l] eqn:Hvs; [by apply elem_of_nil in Hin |].
  rewrite bind_run. unfold lift.
  destruct (bucket_values (w :: l)) as [bs|e]; [done | by exists e].
Qed.

Lemma export_nt11_raises (odb : Odb) (step_filter : option (list string))
    (out_dir sname : string) (step : Step) (fidx : Z) (fr : Frame) (fo : FieldOutput)
    (v : FieldValue) (tr : list event) :
  (sname, step) ∈ odb_steps odb ->
  filtered_out step_filter sname = false ->
  (fidx, fr) ∈ enumerate (step_frames step) ->
  dict_get "NT11"%string (fr_fieldOutputs fr) = Some fo ->
  v ∈ fo_values fo -> is_ok (value_to_float (v_data v)) = false ->
  is_ok (export_nt11 odb step_filter out_dir tr).1 = false.
Proof.
  intros Hs Hf Hfr Hfo Hv Hbad. unfold export_nt11.
  rewrite bind_run. simpl. rewrite bind_run.
  match goal with |- context [for_each ?xs ?body ?st] =>
    assert (Hr : is_ok (for_each xs body st).1 = false);
    [|by destruct (for_each xs body st) as [[[]|e] st']]
  end.
  apply (for_each_raises _ _ (sname, step) Hs). intros st.
  unfold export_step. rewrite Hf.
  apply (for_each_raises _ _ (fidx, fr) Hfr). intros st0.
  destruct (export_frame_raises sname fidx fr fo v st0 Hfo Hv Hbad) as [e ->]. done.
Qed.

Lemma mapM_elem {A B} (f : A -> result B) (xs : list A) (ys : list B) (x : A) :
  mapM f xs = Ok ys -> x ∈ xs -> exists y, f x = Ok y /\ y ∈ ys.
Proof.
  revert ys. induction xs as [|a xs IH]; simpl; intros ys H Hin.
  - by apply elem_of_nil in Hin.
  - destruct (f a) as [b|e] eqn:Ha; simpl in H; [|done].
    destruct (mapM f xs) as [ys'|e]; simpl in H; [|done]. injection H as <-.
    apply elem_of_cons in Hin as [->|Hin].
    + exists b. split; [done | left].
    + destruct (IH ys' eq_refl Hin) as (y & Hy & Hy'). exists y. split; [done | by right].
Qed.

(** C2. Within one frame, two value records with the same instance name,
    the same position and section points of equal number and description
    (or both without a section point) are accumulated into one and the
    same bucket, whatever the handles of the section points; a record
    without a section point and a record with one never share a bucket.
    A bucket holds exactly the records falling under its key. *)
Theorem C2_equal_section_points_share_bucket
    (vs : list FieldValue) (bs : list (bucket_key * bucket)) (v1 v2 : FieldValue) :
  bucket_values vs = Ok bs -> v1 ∈ vs -> v2 ∈ vs ->
  (v_instance_name v1 = v_instance_name v2 ->
   v_position v1 = v_position v2 ->
   sp_content (section_point_of v1) = sp_content (section_point_of v2) ->
   exists k b es,
     (k, b) ∈ bs /\ v1 ∈ under_key k vs /\ v2 ∈ under_key k vs /\
     mapM entry_of (under_key k vs) = Ok es /\
     b_labels b = es.*1 /\ b_values b = (fun x => [x]) <$> es.*2) /\
  (forall sp, section_point_of v1 = None -> section_point_of v2 = Some sp ->
   forall k, ~ (v1 ∈ under_key k vs /\ v2 ∈ under_key k vs)).
Proof.
  intros Hbs H1 H2. split.
  - intros Hi Hp Hs.
    assert (Hk : key_of v2 = key_of v1).
    { apply key_of_slot. unfold slot_of. congruence. }
    destruct (bucket_values_covers _ _ _ Hbs H1) as [b Hb].
    destruct (bucket_values_spec _ _ _ _ Hbs Hb) as (v0 & rest & es & Hu & Hes & ->).
    exists (key_of v1), (extend (new_bucket v0) es), es.
    rewrite Hu, <- Hu. unfold under_key at 1 2. rewrite !list_elem_of_filter.
    rewrite Hu. done.
  - intros sp Hn Hsp k [[Hk1 _]%list_elem_of_filter [Hk2 _]%list_elem_of_filter].
    eapply key_of_None_Some; [exact Hn | exact Hsp | congruence].
Qed.

(** C3, as the code has it. A payload that [float] accepts is stored as
    that float; a list or tuple of one element that [float] accepts is
    unwrapped and stored as the float of its element; every other payload,
    a one-element sequence whose element [float] rejects included, makes
    the value block raise.  A stored value is appended to its bucket as a
    one-element sequence; a raise leaves the frame without any record and
    aborts [export_nt11]. *)
Theorem C3_value_coercion_or_abort :
  (forall val x, py_float val = Ok x -> value_to_float val = Ok x) /\
  (forall val e x,
      sequence_items val = Some [e] -> py_float e = Ok x ->
      value_to_float val = Ok x) /\
  (forall val,
      is_ok (py_float val) = false ->
      (forall e, sequence_items val = Some [e] -> is_ok (py_float e) = false) ->
      is_ok (value_to_float val) = false) /\
  (forall vs bs v,
      bucket_values vs = Ok bs -> v ∈ vs ->
      exists l x b,
        value_to_float (v_data v) = Ok x /\ (key_of v, b) ∈ bs /\
        (l, [x]) ∈ zip (b_labels b) (b_values b)) /\
  (forall odb step_filter out_dir sname step fidx fr fo v,
      (sname, step) ∈ odb_steps odb ->
      filtered_out step_filter sname = false ->
      (fidx, fr) ∈ enumerate (step_frames step) ->
      dict_get "NT11"%string (fr_fieldOutputs fr) = Some fo ->
      v ∈ fo_values fo ->
      is_ok (value_to_float (v_data v)) = false ->
      forall tr,
        (exists e, export_frame sname fidx fr tr = (Raise e, tr)) /\
        is_ok (export_nt11 odb step_filter out_dir tr).1 = false).
Proof.
  split; [|split; [|split; [|split]]].
  - intros val x H. unfold value_to_float. by rewrite H.
  - intros val e x Hs He. unfold value_to_float.
    destruct val; simpl in *; try done; by injection Hs as ->.
  - intros val Hf Hs. unfold value_to_float.
    destruct (py_float val) as [x|err]; [done |]. simpl.
    destruct (sequence_items val) as [[|e [|e' items]]|] eqn:Hi; try done.
    by apply Hs.
  - intros vs bs v Hbs Hin.
    destruct (bucket_values_covers _ _ _ Hbs Hin) as [b Hb].
    destruct (bucket_values_spec _ _ _ _ Hbs Hb) as (v0 & rest & es & Hu & Hes & ->).
    assert (Hv : v ∈ v0 :: rest) by (rewrite <- Hu; by apply list_elem_of_filter).
    destruct (mapM_elem _ _ _ _ Hes Hv) as ([l x] & He & Hlx).
    exists l, x, (extend (new_bucket v0) es). split; [|split; [done |]].
    + unfold entry_of in He.
      destruct (value_to_float (v_data v)) as [x'|]; simpl in He; [|done].
      destruct (py_int (value_label v)); simpl in He; [|done]. by injection He as -> ->.
    + rewrite extend_new_labels, extend_new_values. clear -Hlx.
      induction es as [|[l' x'] es IH]; simpl.
      * by apply elem_of_nil in Hlx.
      * apply elem_of_cons in Hlx as [[= -> ->]|H]; [left | right; by apply IH].
  - intros odb step_filter out_dir sname step fidx fr fo v Hs Hf Hfr Hfo Hv Hbad tr.
    split; [by eapply export_frame_raises |].
    by eapply export_nt11_raises.
Qed.
(** C4. For every record written to the stream, the labels and the values
    have the same length; zipped, they are the labels and coerced values
    of the source records of the bucket, in the order the records were
    read; and when the source assigns at most one value per label and
    slot of a frame, the labels of the record are pairwise distinct. *)
Theorem C4_labels_values_aligned
    (odb : Odb) (step_filter : option (list string)) (out_dir : string)
    (rec : stream_rec) :
  rec ∈ lines_written (export_nt11 odb step_filter out_dir []).2 ->
  length (r_labels rec) = length (r_values rec) /\
  (exists fo k b es,
      record_of_bucket odb step_filter fo k b rec /\
      mapM entry_of (under_key k (fo_values fo)) = Ok es /\
      zip (r_labels rec) (r_values rec) = (fun '(l, x) => (l, Seq [x])) <$> es) /\
  (store_unique_labels odb -> NoDup (r_labels rec)).
Proof.
  intros Hrec. apply lines_written_elem in Hrec.
  destruct (export_nt11_appends odb step_filter out_dir []) as (tr & Htr & HP).
  simpl in Htr. rewrite Htr in Hrec.
  rewrite Forall_forall in HP. apply HP in Hrec as (fo & k & b & Hrb).
  pose proof Hrb as (sname & step & fidx & fr & bs & Hs & Hf & Hfr & Hfo & Hbs & Hkb & ->).
  destruct (bucket_values_spec _ _ _ _ Hbs Hkb) as (v0 & rest & es & Hu & Hes & ->).
  simpl. split; [|split].
  - by rewrite !length_fmap.
  - exists fo, k, (extend (new_bucket v0) es), es. rewrite Hu.
    split; [done |]. split; [done |]. apply zip_entries.
  - intros Hstore.
    assert (Hul : unique_labels (fo_values fo)).
    { eapply Hstore; [exact Hs | | exact Hfo]. by eapply elem_of_enumerate_from. }
    apply (under_key_labels_NoDup _ k) in Hul. rewrite Hu in Hul.
    rewrite (mapM_entry_labels _ _ Hes) in Hul.
    by apply NoDup_fmap_1 in Hul.
Qed.
End ExporterClaims.

(** The records of the sample frame with two handles of one section point. *)
Lemma C2_equal_section_points_share_bucket_witness :
  Exporter.bucket_values Samples.values_ok = Ok Samples.buckets_ok /\
  Exporter.sp_handle Samples.sp_top_a <> Exporter.sp_handle Samples.sp_top_b /\
  (exists k b es,
     (k, b) ∈ Samples.buckets_ok /\
     Samples.v_ip_a ∈ ExporterSpec.under_key k Samples.values_ok /\
     Samples.v_ip_b ∈ ExporterSpec.under_key k Samples.values_ok /\
     mapM ExporterSpec.entry_of (ExporterSpec.under_key k Samples.values_ok) = Ok es /\
     Exporter.b_labels b = es.*1 /\
     Exporter.b_values b = (fun x => [x]) <$> es.*2) /\
  (forall k, ~ (Samples.v_ip_plain ∈ ExporterSpec.under_key k Samples.values_ok /\
                Samples.v_ip_a ∈ ExporterSpec.under_key k Samples.values_ok)).
Proof.
  assert (Hbs : Exporter.bucket_values Samples.values_ok = Ok Samples.buckets_ok)
    by (vm_compute; reflexivity).
  split; [exact Hbs |]. split; [discriminate |]. split.
  - refine (proj1 (C2_equal_section_points_share_bucket Samples.values_ok
                     Samples.buckets_ok Samples.v_ip_a Samples.v_ip_b Hbs _ _) _ _ _);
      [repeat constructor | repeat constructor | reflexivity | reflexivity | reflexivity].
  - refine (proj2 (C2_equal_section_points_share_bucket Samples.values_ok
                     Samples.buckets_ok Samples.v_ip_plain Samples.v_ip_a Hbs _ _)
                  Samples.sp_top_a _ _);
      [repeat constructor | repeat constructor | reflexivity | reflexivity].
Defined.

(** A one-element list whose element [float] rejects is not stored: the
    value block raises, and with it the loop over the frame. *)
Lemma C3_counterexample :
  Exporter.sequence_items (Exporter.PyList [Exporter.PyNone]) = Some [Exporter.PyNone] /\
  Exporter.value_to_float (Exporter.PyList [Exporter.PyNone]) = Raise TypeError /\
  Exporter.bucket_values [Samples.v_bad] = Raise TypeError.
Proof. repeat split; vm_compute; reflexivity. Qed.

Lemma C3_value_coercion_or_abort_witness :
  Exporter.value_to_float (Exporter.PyFloat Samples.f1) = Ok Samples.f1 /\
  Exporter.value_to_float (Exporter.PyTuple [Exporter.PyFloat Samples.f2]) = Ok Samples.f2 /\
  is_ok (Exporter.value_to_float (Exporter.PyTuple [])) = false /\
  (exists l x b,
     Exporter.value_to_float (Exporter.v_data Samples.v_ip_b) = Ok x /\
     (Exporter.key_of Samples.v_ip_b, b) ∈ Samples.buckets_ok /\
     (l, [x]) ∈ zip (Exporter.b_labels b) (Exporter.b_values b)) /\
  ((exists e, Exporter.export_frame "Step-1" 0 (Samples.frame_of [Samples.v_bad]) []
              = (Raise e, [])) /\
   is_ok (Exporter.export_nt11 Samples.odb_bad None "out" []).1 = false).
Proof.
  destruct C3_value_coercion_or_abort as (H1 & H2 & H3 & H4 & H5).
  split; [by apply H1 |]. split; [by eapply H2 |]. split.
  { apply H3; [reflexivity | intros e [=]]. }
  split.
  { apply (H4 Samples.values_ok); [vm_compute; reflexivity | repeat constructor]. }
  eapply (H5 Samples.odb_bad None "out"%string "Step-1"%string _ 0
            (Samples.frame_of [Samples.v_bad]) _ Samples.v_bad);
    [repeat constructor | reflexivity | repeat constructor | reflexivity
    | repeat constructor | reflexivity].
Defined.

Lemma C4_labels_values_aligned_witness :
  Samples.record_ok ∈
    Exporter.lines_written (Exporter.export_nt11 Samples.odb_ok None "out" []).2 /\
  ExporterSpec.store_unique_labels Samples.odb_ok /\
  length (r_labels Samples.record_ok) = length (r_values Samples.record_ok) /\
  (exists fo k b es,
      ExporterSpec.record_of_bucket Samples.odb_ok None fo k b Samples.record_ok /\
      mapM ExporterSpec.entry_of (ExporterSpec.under_key k (Exporter.fo_values fo)) = Ok es /\
      zip (r_labels Samples.record_ok) (r_values Samples.record_ok)
      = (fun '(l, x) => (l, Seq [x])) <$> es) /\
  NoDup (r_labels Samples.record_ok).
Proof.
  assert (Hrec : Samples.record_ok ∈
            Exporter.lines_written (Exporter.export_nt11 Samples.odb_ok None "out" []).2)
    by (vm_compute; repeat constructor).
  assert (Hu : ExporterSpec.store_unique_labels Samples.odb_ok).
  { intros sname step fr fo Hs Hfr Hfo.
    apply list_elem_of_singleton in Hs. injection Hs as -> ->.
    apply list_elem_of_singleton in Hfr. subst fr.
    injection Hfo as <-. unfold ExporterSpec.unique_labels.
    refine (bool_decide_unpack _ _). vm_compute. exact I. }
  destruct (C4_labels_values_aligned Samples.odb_ok None "out"%string
              Samples.record_ok Hrec) as (Hlen & Hzip & Hnd).
  split; [exact Hrec |]. split; [exact Hu |]. split; [exact Hlen |].
  split; [exact Hzip | exact (Hnd Hu)].
Defined.

(** ** The importer: what each part adds to the store log *)

Section ImporterLog.
Import Importer.
Context (P : event -> Prop).

Lemma appends_call (e : event) : P e -> appends calls P (call e).
Proof. intros He st. exists [e]. split; [done | by apply Forall_singleton]. Qed.

Lemma appends_silent {A} (m : prog state A) :
  (forall st, calls (m st).2 = calls st) -> appends calls P m.
Proof. intros Hm st. exists []. by rewrite Hm, app_nil_r. Qed.

Lemma appends_new_handle : appends calls P new_handle.
Proof. by apply appends_silent. Qed.

Lemma appends_load_json {A} (files : string -> option A) (path : string) :
  appends calls P (load_json files path).
Proof. unfold load_json. destruct (files path); [apply appends_ret | apply appends_raise]. Qed.

Lemma total_call (e : event) : total (call e).
Proof. intros st. by exists tt. Qed.

Lemma total_ret {A} (a : A) : total (mret a : prog state A).
Proof. intros st. by exists a. Qed.

Lemma total_new_handle : total new_handle.
Proof. intros st. by exists (fresh st). Qed.
End ImporterLog.

Create HintDb appends.
Create HintDb total.

#[local] Hint Resolve appends_ret appends_raise appends_lift appends_get_state
  appends_call appends_new_handle appends_load_json : appends.
#[local] Hint Resolve total_call total_ret total_new_handle : total.

(** Splits a sequence of binds and closes the leaves from the hint base. *)
Ltac appends_auto :=
  repeat first
    [ solve [eauto with appends]
    | by apply appends_silent
    | apply appends_bind; [|intros ?]
    | apply appends_for_each; intros ? ? ].

Ltac total_auto :=
  repeat first
    [ solve [eauto with total]
    | by (intros ?; eexists)
    | apply total_bind; [|intros ?]
    | apply total_for_each; intros ? ].

Section ImporterStages.
Import Importer.

Lemma build_instance_appends (iname_u : string) (inst_rec : instance_doc) :
  appends calls is_geometry_write (build_instance iname_u inst_rec).
Proof.
  unfold build_instance, api_Part, api_addNodes, api_addElements, api_Instance,
    set_assembly.
  appends_auto.
  - destruct (dict_get_default (id_nodes inst_rec) []) as [[|n ns]|]; appends_auto.
  - destruct (dict_get_default (id_elements inst_rec) []) as [[|e es]|]; appends_auto.
    destruct x as [ety eData]. appends_auto.
Qed.

Lemma build_instance_total (iname_u : string) (inst_rec : instance_doc) :
  total (build_instance iname_u inst_rec).
Proof.
  unfold build_instance, api_Part, api_addNodes, api_addElements, api_Instance,
    set_assembly.
  total_auto.
  - destruct (dict_get_default (id_nodes inst_rec) []) as [[|n ns]|]; total_auto.
  - destruct (dict_get_default (id_elements inst_rec) []) as [[|e es]|]; total_auto.
    destruct x as [ety eData]. total_auto.
Qed.

Lemma get_or_make_sp_appends (sCat : handle) (sp : option sp_obj) :
  appends calls ImporterSpec.is_timed_results_write (get_or_make_sp sCat sp).
Proof.
  unfold get_or_make_sp, api_SectionPoint, set_sp_pool.
  destruct sp as [d|]; appends_auto.
  destruct (sp_pool _ !! _); appends_auto.
Qed.

Lemma create_step_appends (s : step_doc) :
  appends calls ImporterSpec.is_timed_results_write (create_step s).
Proof.
  unfold create_step, create_frame, api_Step, api_Frame, set_step_obj, set_frame_obj.
  appends_auto.
Qed.

#[local] Hint Resolve get_or_make_sp_appends create_step_appends : appends.

Lemma write_record_appends (sCat : handle) (rec : stream_rec) :
  appends calls ImporterSpec.is_timed_results_write (write_record sCat rec).
Proof.
  unfold write_record, api_Frame, api_FieldOutput, api_addData, set_frame_obj,
    set_nt11_cache.
  appends_auto.
  - destruct (frame_objs _ !! _); appends_auto.
    destruct (step_objs _ !! _); appends_auto.
  - destruct (nt11_cache _ !! _); appends_auto.
  - destruct (inst_map _ !! _); appends_auto.
    destruct (_ && _); appends_auto.
Qed.

#[local] Hint Resolve write_record_appends : appends.

Lemma results_writes_appends (E : env) (steps_path nt11_path : string) :
  appends calls ImporterSpec.is_timed_results_write (results_writes E steps_path nt11_path).
Proof.
  unfold results_writes, api_SectionCategory, set_inst_map.
  appends_auto.
Qed.
End ImporterStages.

(** ** The importer: the shape of the store log of a run *)

Section ImporterRun.
Import Importer.

Lemma run_total_appends {A} (Q : event -> Prop) (m : prog state A) (st : state) :
  total m -> appends calls Q m ->
  exists a st' tr, m st = (Ok a, st') /\ calls st' = calls st ++ tr /\ Forall Q tr.
Proof.
  intros Ht Ha. destruct (Ht st) as [a Hres]. destruct (Ha st) as (tr & Htr & HQ).
  destruct (m st) as [res st']. simpl in *. subst res. by exists a, st', tr.
Qed.

Lemma run_appends {A} (Q : event -> Prop) (m : prog state A) (st : state) :
  appends calls Q m ->
  exists res st' tr, m st = (res, st') /\ calls st' = calls st ++ tr /\ Forall Q tr.
Proof.
  intros Ha. destruct (Ha st) as (tr & Htr & HQ).
  destruct (m st) as [res st']. by exists res, st', tr.
Qed.

Lemma geometry_stage_run (E : env) (mesh_path out_odb : string) (st : state) :
  let create := NewOdb "derivedNT11" "Imported from JSON(L)"
                  "Mesh + NT11 reconstructed from export" out_odb in
  match mesh_at E mesh_path with
  | None =>
      exists st', geometry_stage E mesh_path out_odb st = (Raise (IOError mesh_path), st') /\
                  calls st' = calls st ++ [create]
  | Some mesh =>
      exists st' g,
        geometry_stage E mesh_path out_odb st = (Ok tt, st') /\
        calls st' = calls st ++ [create] ++ g ++ [Save; Close] /\
        Forall is_geometry_write g
  end.
Proof.
  intros create. unfold geometry_stage, api_Odb, load_json.
  rewrite bind_run. simpl. rewrite bind_run.
  destruct (mesh_at E mesh_path) as [mesh|]; simpl.
  - rewrite bind_run.
    match goal with |- context [for_each ?xs ?body ?s0] =>
      destruct (run_total_appends is_geometry_write (for_each xs body) s0)
        as ([] & st1 & g & -> & Hcalls & Hg)
    end.
    + apply total_for_each. intros [iname_u inst_rec]. apply build_instance_total.
    + apply appends_for_each. intros [iname_u inst_rec] _. apply build_instance_appends.
    + eexists _, g. split; [reflexivity |]. simpl. rewrite Hcalls. simpl.
      split; [|done]. by rewrite <- !app_assoc.
  - eexists. split; [reflexivity | done].
Qed.

Lemma results_stage_run (E : env) (steps_path nt11_path out_odb : string) (st : state) :
  exists res st' r,
    results_stage E steps_path nt11_path out_odb st = (res, st') /\
    calls st' =
      calls st ++ [OpenOdb out_odb false] ++ r ++ (if is_ok res then [Save; Close] else []) /\
    Forall ImporterSpec.is_timed_results_write r.
Proof.
  unfold results_stage, api_openOdb, api_save, api_close.
  rewrite bind_run. simpl. rewrite bind_run.
  match goal with |- context [results_writes ?a ?b ?c ?s0] =>
    destruct (run_appends ImporterSpec.is_timed_results_write (results_writes a b c) s0)
      as (res & st1 & r & -> & Hcalls & Hr); [apply results_writes_appends |]
  end.
  simpl in Hcalls. destruct res as [[]|e].
  - eexists (Ok tt), _, r. split; [reflexivity |]. simpl. rewrite Hcalls.
    split; [|done]. by rewrite <- !app_assoc.
  - eexists (Raise e), _, r. split; [reflexivity |]. simpl. rewrite Hcalls.
    split; [|done]. by rewrite <- !app_assoc, app_nil_r.
Qed.

(** The store log of a whole run. *)
Lemma main_run (E : env) (argv : list string) :
  match parse_args argv with
  | Raise e => main E argv initial = (Raise e, initial)
  | Ok (mesh_path, steps_path, nt11_path, out_odb) =>
      let create := NewOdb "derivedNT11" "Imported from JSON(L)"
                      "Mesh + NT11 reconstructed from export" out_odb in
      match mesh_at E mesh_path with
      | None =>
          exists st, main E argv initial = (Raise (IOError mesh_path), st) /\
                     calls st = [create]
      | Some mesh =>
          exists res st g r,
            main E argv initial = (res, st) /\
            calls st = [create] ++ g ++ [Save; Close; OpenOdb out_odb false] ++ r
                       ++ (if is_ok res then [Save; Close] else []) /\
            Forall is_geometry_write g /\ Forall ImporterSpec.is_timed_results_write r
      end
  end.
Proof.
  unfold main. rewrite bind_run. unfold lift.
  destruct (parse_args argv) as [[[[mesh_path steps_path] nt11_path] out_odb]|e];
    [|done].
  simpl. rewrite bind_run.
  pose proof (geometry_stage_run E mesh_path out_odb initial) as Hg. simpl in Hg.
  destruct (mesh_at E mesh_path) as [mesh|].
  - destruct Hg as (st1 & g & -> & Hcalls & Hgeo).
    destruct (results_stage_run E steps_path nt11_path out_odb st1)
      as (res & st2 & r & -> & Hcalls2 & Hres).
    exists res, st2, g, r. split; [done |]. rewrite Hcalls2, Hcalls.
    split; [|done]. simpl. rewrite <- !app_assoc. done.
  - destruct Hg as (st1 & -> & Hcalls). by exists st1.
Qed.
End ImporterRun.

(** ** The importer: ordering of the phases (C1) and the domain of steps (C9) *)

Section ImporterPhases.
Import Importer ImporterSpec.

Lemma count_barriers_skip (l rest : list event) :
  Forall (fun e => e <> Save) l -> count_barriers (l ++ rest) = count_barriers rest.
Proof.
  induction 1 as [|e l He _ IH]; simpl; [done |].
  rewrite IH. by destruct e.
Qed.

Lemma geometry_write_not_save (l : list event) :
  Forall is_geometry_write l -> Forall (fun e => e <> Save) l.
Proof. intros H. eapply Forall_impl; [exact H |]. by intros [] ?. Qed.

Lemma results_write_not_save (l : list event) :
  Forall is_results_write l -> Forall (fun e => e <> Save) l.
Proof. intros H. eapply Forall_impl; [exact H |]. by intros [] ?. Qed.

Lemma timed_results_write (l : list event) :
  Forall is_timed_results_write l -> Forall is_results_write l.
Proof.
  intros H. eapply Forall_impl; [exact H |].
  intros e He. unfold is_timed_results_write in He.
  by apply andb_prop_elim in He as [He _].
Qed.

Lemma timed_results_in_time (l : list event) :
  Forall is_timed_results_write l -> Forall step_in_time l.
Proof.
  intros H. eapply Forall_impl; [exact H |].
  intros e He. unfold is_timed_results_write in He.
  apply andb_prop_elim in He as [_ He]. destruct e; simpl; try done.
  unfold sc_eqb in He. by apply bool_decide_unpack in He.
Qed.

Lemma geometry_in_time (l : list event) :
  Forall is_geometry_write l -> Forall step_in_time l.
Proof. intros H. eapply Forall_impl; [exact H |]. by intros [] ?. Qed.

(** C1. In every run the store log is: the creation of the store, then
    geometry writes only, then the barrier (one save, one close, one
    reopening in write mode), then results writes only, then the final
    save and close if the run did not raise.  The barrier occurs exactly
    once.  A run that stops before the mesh is read has written nothing. *)
Theorem C1_single_barrier_between_phases (E : env) (argv : list string) :
  let tr := calls (main E argv initial).2 in
  match parse_args argv with
  | Raise _ => tr = []
  | Ok (mesh_path, steps_path, nt11_path, out_odb) =>
      let create := NewOdb "derivedNT11" "Imported from JSON(L)"
                      "Mesh + NT11 reconstructed from export" out_odb in
      match mesh_at E mesh_path with
      | None => tr = [create]
      | Some _ =>
          exists g r fin,
            tr = [create] ++ g ++ [Save; Close; OpenOdb out_odb false] ++ r ++ fin /\
            Forall is_geometry_write g /\
            Forall is_results_write r /\
            (fin = [] \/ fin = [Save; Close]) /\
            count_barriers tr = 1%nat
      end
  end.
Proof.
  intros tr. subst tr. pose proof (main_run E argv) as H.
  destruct (parse_args argv) as [[[[mesh_path steps_path] nt11_path] out_odb]|e].
  - simpl in H. destruct (mesh_at E mesh_path) as [mesh|].
    + destruct H as (res & st & g & r & -> & Hcalls & Hg & Hr). simpl.
      apply timed_results_write in Hr.
      exists g, r, (if is_ok res then [Save; Close] else []).
      split; [done |]. split; [done |]. split; [done |]. split.
      * destruct (is_ok res); [by right | by left].
      * rewrite Hcalls. simpl.
        rewrite count_barriers_skip by by apply geometry_write_not_save.
        simpl. rewrite count_barriers_skip by by apply results_write_not_save.
        by destruct (is_ok res).
    + destruct H as (st & -> & Hcalls). done.
  - by rewrite H.
Qed.

Lemma create_step_forget (s : step_doc) : create_step (forget_step_domain s) = create_step s.
Proof. reflexivity. Qed.

Lemma for_each_fmap {St A B} (f : A -> B) (xs : list A) (body : B -> prog St unit) :
  for_each (f <$> xs) body = for_each xs (fun x => body (f x)).
Proof.
  induction xs as [|x xs IH]; [done |].
  rewrite fmap_cons. cbn [for_each]. by rewrite IH.
Qed.

(** The results stage reads a catalog only up to the domains. *)
Lemma results_writes_forget_env (E : env) (steps_path nt11_path : string) (st : state) :
  results_writes (forget_env E) steps_path nt11_path st
  = results_writes E steps_path nt11_path st.
Proof.
  unfold results_writes, load_json, forget_env. simpl.
  destruct (steps_at E steps_path) as [[[| |l]]|]; simpl; try done.
  rewrite !bind_run. simpl. rewrite !bind_run. simpl. rewrite !bind_run. simpl.
  rewrite !bind_run. simpl. rewrite !bind_run. simpl.
  by rewrite for_each_fmap.
Qed.

Lemma results_writes_ext (E E' : env) (steps_path nt11_path : string) (st : state) :
  (forall p, nt11_at E p = nt11_at E' p) ->
  (forall p, steps_at E p = steps_at E' p) ->
  results_writes E steps_path nt11_path st = results_writes E' steps_path nt11_path st.
Proof.
  intros Hn Hs. unfold results_writes, load_json.
  by rewrite (Hn nt11_path), (Hs steps_path).
Qed.

Lemma results_writes_forget (E E' : env) (steps_path nt11_path : string) (st : state) :
  (forall p, nt11_at E p = nt11_at E' p) ->
  (forall p, forget_domains <$> steps_at E p = forget_domains <$> steps_at E' p) ->
  results_writes E steps_path nt11_path st = results_writes E' steps_path nt11_path st.
Proof.
  intros Hn Hs.
  rewrite <- (results_writes_forget_env E), <- (results_writes_forget_env E').
  by apply results_writes_ext.
Qed.

Lemma main_forget (E E' : env) (argv : list string) (st : state) :
  (forall p, mesh_at E p = mesh_at E' p) ->
  (forall p, nt11_at E p = nt11_at E' p) ->
  (forall p, forget_domains <$> steps_at E p = forget_domains <$> steps_at E' p) ->
  main E argv st = main E' argv st.
Proof.
  intros Hm Hn Hs. unfold main. rewrite !bind_run. unfold lift.
  destruct (parse_args argv) as [[[[mesh_path steps_path] nt11_path] out_odb]|e];
    [|done].
  simpl. rewrite !bind_run.
  assert (Hg : geometry_stage E mesh_path out_odb st
               = geometry_stage E' mesh_path out_odb st).
  { unfold geometry_stage, load_json. by rewrite (Hm mesh_path). }
  rewrite Hg. destruct (geometry_stage E' mesh_path out_odb st) as [[[]|e] st1]; [|done].
  unfold results_stage. rewrite !bind_run. simpl. rewrite !bind_run.
  by rewrite (results_writes_forget E E').
Qed.

End ImporterPhases.

(** ** The importer: one record of the stream *)

Section ImporterRecord.
Import Importer ImporterSpec.

Lemma pos_from_name_known (name : string) :
  pos_from_name name = INTEGRATION_POINT <-> name = "INTEGRATION_POINT"%string.
Proof.
  unfold pos_from_name, NODAL, ELEMENT_NODAL, INTEGRATION_POINT, WHOLE_ELEMENT. simpl.
  destruct (String.eqb_spec name "NODAL") as [->|?];
    [split; intros H; inversion H |].
  destruct (String.eqb_spec name "ELEMENT_NODAL") as [->|?];
    [split; intros H; inversion H |].
  destruct (String.eqb_spec name "INTEGRATION_POINT") as [->|?]; [done |].
  destruct (String.eqb_spec name "WHOLE_ELEMENT") as [->|?];
    [split; intros H; inversion H |].
  split; intros H; [inversion H | congruence].
Qed.

Lemma pos_from_name_unknown (name : string) :
  name ∉ known_positions -> pos_from_name name = NODAL.
Proof.
  unfold known_positions. rewrite !not_elem_of_cons. intros (H1 & H2 & H3 & H4 & _).
  unfold pos_from_name. simpl.
  destruct (String.eqb_spec name "NODAL"); [done |].
  destruct (String.eqb_spec name "ELEMENT_NODAL"); [done |].
  destruct (String.eqb_spec name "INTEGRATION_POINT"); [done |].
  by destruct (String.eqb_spec name "WHOLE_ELEMENT").
Qed.

(** The run of [get_or_make_sp]: it never raises, answers with a handle
    exactly when there is a section point, takes the handle from the pool
    when the key is there and creates and pools one otherwise. *)
Lemma get_or_make_sp_run (sCat : handle) (sp : option sp_obj) (st : state) :
  match sp with
  | None => get_or_make_sp sCat sp st = (Ok None, st)
  | Some d =>
      match sp_pool st !! sp_key d with
      | Some h => get_or_make_sp sCat sp st = (Ok (Some h), st)
      | None =>
          get_or_make_sp sCat sp st =
          (Ok (Some (fresh st)),
           {| calls := calls st ++ [NewSectionPoint (fresh st) sCat (sp_key d).1 (sp_key d).2];
              fresh := S (fresh st); assembly := assembly st; inst_map := inst_map st;
              sp_pool := <[sp_key d := fresh st]> (sp_pool st);
              step_objs := step_objs st; frame_objs := frame_objs st;
              nt11_cache := nt11_cache st |})
      end
  end.
Proof.
  destruct sp as [d|]; [|done].
  unfold get_or_make_sp, sp_key. rewrite bind_run. simpl.
  by destruct (sp_pool st !! _).
Qed.

Lemma get_or_make_sp_summary (sCat : handle) (sp : option sp_obj) (st : state) :
  exists r st' pre,
    get_or_make_sp sCat sp st = (Ok r, st') /\
    calls st' = calls st ++ pre /\
    Forall (fun e => is_add_data e = false) pre /\
    (is_Some r <-> is_Some sp) /\
    inst_map st' = inst_map st.
Proof.
  pose proof (get_or_make_sp_run sCat sp st) as H.
  destruct sp as [d|].
  - destruct (sp_pool st !! sp_key d) as [h|]; rewrite H.
    + exists (Some h), st, []. rewrite app_nil_r. by repeat split.
    + eexists (Some (fresh st)), _, [_]. split; [reflexivity |].
      simpl. repeat split; try done. by repeat constructor.
  - rewrite H. exists None, st, []. rewrite app_nil_r. by repeat split.
Qed.
Ltac sp_step :=
  match goal with
  | |- context [get_or_make_sp ?c ?sp ?s] =>
      let r := fresh "r" in let st' := fresh "st'" in let pre := fresh "pre" in
      let Hrun := fresh "Hrun" in let Hc := fresh "Hc" in let HQ := fresh "HQ" in
      let Hr := fresh "Hr" in let Hi := fresh "Hi" in
      destruct (get_or_make_sp_summary c sp s) as (r & st' & pre & Hrun & Hc & HQ & Hr & Hi);
      rewrite Hrun; simpl in Hc, Hi; simpl; rewrite Hi
  end.


(** The run of the loop body on one record.  Without a frame and without
    a step for the record it raises [KeyError] at once; otherwise it
    resolves or creates frame, field output and section point, none of
    which writes data, and then either misses the instance or ends with
    the one labeled-data write. *)
Lemma write_record_run (sCat : handle) (rec : stream_rec) (st : state) :
  match frame_objs st !! frame_key rec, step_objs st !! to_str (Some (r_step rec)) with
  | None, None => write_record sCat rec st = (Raise (KeyError (r_step rec)), st)
  | _, _ =>
      exists st3 pre fo sp_arg,
        calls st3 = calls st ++ pre /\
        Forall (fun e => is_add_data e = false) pre /\
        (is_Some sp_arg <-> is_Some (get_or_none (r_section_point rec))) /\
        write_record sCat rec st =
        match inst_map st !! to_str (Some (r_instance rec)) with
        | None => (Raise (missing_instance rec), st3)
        | Some inst =>
            (Ok tt,
             with_call
               (add_data_of rec fo inst
                  (if sc_eqb (pos_from_name (r_position rec)) INTEGRATION_POINT
                   then sp_arg else None)) st3)
        end
  end.
Proof.
  unfold write_record, frame_key, api_Frame, api_FieldOutput, api_addData,
    set_frame_obj, set_nt11_cache, call, new_handle, modify, get_state, lift, raise.
  unfold mbind, prog_bind, mret, prog_ret. simpl.
  destruct (frame_objs st !! _) as [fobj|] eqn:Hf; simpl;
    [rewrite Hf
    |destruct (step_objs st !! _) as [stp|] eqn:Hs; simpl;
       [rewrite lookup_insert_eq | done]];
    simpl;
    (destruct (nt11_cache st !! _) as [fo|] eqn:Hn; simpl);
    sp_step;
    (eexists st', _, _, r;
     split; [rewrite Hc; rewrite <- ?app_assoc; reflexivity |];
     split; [repeat first [done | apply Forall_app; split | apply Forall_cons; split
                          | apply Forall_nil] |];
     split; [done |];
     destruct (inst_map st !! _); [|done];
     destruct r; destruct (sc_eqb _ _); done).
Qed.

(** A record whose frame is not known resolves it from the step table:
    with the step the frame is created, without it the lookup raises. *)
Lemma write_record_missing_step (sCat : handle) (rec : stream_rec) (st : state) :
  frame_objs st !! frame_key rec = None ->
  step_objs st !! r_step rec = None ->
  write_record sCat rec st = (Raise (KeyError (r_step rec)), st).
Proof.
  intros Hf Hs. pose proof (write_record_run sCat rec st) as H.
  simpl in H. by rewrite Hf, Hs in H.
Qed.

(** C5. The loop body writes labeled data at most once, as its last call,
    and that write carries a section-point argument exactly when the
    position of the record is INTEGRATION_POINT and the record has a
    section point that is not null. *)
Theorem C5_section_point_argument_iff (sCat : handle) (rec : stream_rec) (st : state) :
  exists pre,
    Forall (fun e => is_add_data e = false) pre /\
    match (write_record sCat rec st).1 with
    | Ok _ =>
        exists fo inst sp_arg,
          calls (write_record sCat rec st).2
          = calls st ++ pre ++ [add_data_of rec fo inst sp_arg] /\
          (is_Some sp_arg <->
           r_position rec = "INTEGRATION_POINT"%string /\
           exists d, r_section_point rec = Val d)
    | Raise _ => calls (write_record sCat rec st).2 = calls st ++ pre
    end.
Proof.
  pose proof (write_record_run sCat rec st) as H.
  assert (Hrun :
    write_record sCat rec st = (Raise (KeyError (r_step rec)), st) \/
    exists st3 pre fo sp_arg,
      calls st3 = calls st ++ pre /\
      Forall (fun e => is_add_data e = false) pre /\
      (is_Some sp_arg <-> is_Some (get_or_none (r_section_point rec))) /\
      write_record sCat rec st =
      match inst_map st !! to_str (Some (r_instance rec)) with
      | None => (Raise (missing_instance rec), st3)
      | Some inst =>
          (Ok tt,
           with_call
             (add_data_of rec fo inst
                (if sc_eqb (pos_from_name (r_position rec)) INTEGRATION_POINT
                 then sp_arg else None)) st3)
      end).
  { destruct (frame_objs st !! frame_key rec); [auto |].
    destruct (step_objs st !! to_str (Some (r_step rec))); auto. }
  clear H. destruct Hrun as [->|(st3 & pre & fo & sp_arg & Hc & HQ & Hsp & ->)].
  - exists []. split; [done |]. simpl. by rewrite app_nil_r.
  - exists pre. split; [done |].
    destruct (inst_map st !! _) as [inst|]; simpl; [|done].
    eexists fo, inst, _. rewrite Hc, <- app_assoc. split; [reflexivity |].
    unfold sc_eqb. case_bool_decide as Hpos.
    + rewrite Hsp. apply pos_from_name_known in Hpos. split.
      * intros [d Hd]. split; [done |].
        destruct (r_section_point rec) as [| |d']; try done. by exists d'.
      * intros [_ [d ->]]. by exists d.
    + split; [by intros [? ?] |]. intros [Hp _]. by apply pos_from_name_known in Hp.
Qed.

(** C8. A position string outside the four documented ones is read as
    NODAL: the record is handled exactly as if it said "NODAL", so the
    string itself never makes the importer raise, and when the frame (or
    its step) and the instance are known the record is written as nodal
    data without a section-point argument. *)
Theorem C8_unknown_position_written_as_nodal
    (sCat : handle) (rec : stream_rec) (st : state) :
  r_position rec ∉ known_positions ->
  pos_from_name (r_position rec) = NODAL /\
  write_record sCat rec st = write_record sCat (set_position "NODAL" rec) st /\
  (forall inst,
      inst_map st !! r_instance rec = Some inst ->
      is_Some (frame_objs st !! frame_key rec) \/ is_Some (step_objs st !! r_step rec) ->
      exists st' pre fo,
        write_record sCat rec st = (Ok tt, st') /\
        calls st' = calls st ++ pre ++ [AddData fo NODAL inst (r_labels rec)
                                          (ensure_tuple_seq (r_values rec)) None] /\
        Forall (fun e => is_add_data e = false) pre).
Proof.
  intros Hpos. apply pos_from_name_unknown in Hpos. split; [done |]. split.
  - unfold write_record. simpl. by rewrite Hpos.
  - intros inst Hi Hfs. pose proof (write_record_run sCat rec st) as H.
    simpl in H, Hi. rewrite Hi in H. unfold add_data_of in H. rewrite Hpos in H.
    assert (Hrun : exists st3 pre fo,
              calls st3 = calls st ++ pre /\
              Forall (fun e => is_add_data e = false) pre /\
              write_record sCat rec st =
              (Ok tt, with_call (AddData fo NODAL inst (ensure_tuple (r_labels rec))
                                   (ensure_tuple_seq (r_values rec)) None) st3)).
    { unfold frame_key in Hfs. simpl in Hfs.
      destruct (frame_objs st !! _) as [fobj|];
        [destruct H as (st3 & pre & fo & sp_arg & Hc & HQ & _ & Hw);
         by exists st3, pre, fo |].
      destruct (step_objs st !! _) as [stp|];
        [destruct H as (st3 & pre & fo & sp_arg & Hc & HQ & _ & Hw);
         by exists st3, pre, fo |].
      destruct Hfs as [[? [=]]|[? [=]]]. }
    destruct Hrun as (st3 & pre & fo & Hc & HQ & ->).
    eexists _, pre, fo. split; [reflexivity |]. split; [|done].
    simpl. by rewrite Hc, <- app_assoc.
Qed.

(** C10. A section point whose number is null or missing is created and
    pooled as number 1: when the pool has nothing under number 1 and its
    description, [get_or_make_sp] creates the section point with number 1
    and that description and pools it under that key; when the pool has a
    handle there, it returns that handle and creates nothing.  The section
    point of number 1 with the same description does exactly the same; so
    the two get one and the same handle, whichever comes first, and the
    second of them creates nothing. *)
Theorem C10_null_number_keyed_as_one
    (sCat : handle) (n : jfield Z) (desc : jfield string) (st : state) :
  get_or_none n = None ->
  let unnumbered := Some {| so_number := n; so_description := desc |} in
  let numbered := Some {| so_number := Val 1; so_description := desc |} in
  let description := to_str (dict_get_default desc ""%string) in
  let created :=
    {| calls := calls st ++ [NewSectionPoint (fresh st) sCat 1 description];
       fresh := S (fresh st); assembly := assembly st; inst_map := inst_map st;
       sp_pool := <[(1, description) := fresh st]> (sp_pool st);
       step_objs := step_objs st; frame_objs := frame_objs st;
       nt11_cache := nt11_cache st |} in
  match sp_pool st !! (1, description) with
  | Some h =>
      get_or_make_sp sCat unnumbered st = (Ok (Some h), st) /\
      get_or_make_sp sCat numbered st = (Ok (Some h), st)
  | None =>
      get_or_make_sp sCat unnumbered st = (Ok (Some (fresh st)), created) /\
      get_or_make_sp sCat numbered st = (Ok (Some (fresh st)), created)
  end /\
  (exists h st1,
      get_or_make_sp sCat unnumbered st = (Ok (Some h), st1) /\
      get_or_make_sp sCat numbered st1 = (Ok (Some h), st1)) /\
  (exists h st1,
      get_or_make_sp sCat numbered st = (Ok (Some h), st1) /\
      get_or_make_sp sCat unnumbered st1 = (Ok (Some h), st1)).
Proof.
  intros Hn unnumbered numbered description created.
  assert (Hku : sp_key {| so_number := n; so_description := desc |}
                = (1, description)).
  { unfold sp_key. simpl. by rewrite Hn. }
  assert (Hkn : sp_key {| so_number := Val 1; so_description := desc |}
                = (1, description)) by done.
  assert (Hrun : forall d st0,
            sp_key d = (1, description) ->
            match sp_pool st0 !! (1, description) with
            | Some h => get_or_make_sp sCat (Some d) st0 = (Ok (Some h), st0)
            | None =>
                get_or_make_sp sCat (Some d) st0 =
                (Ok (Some (fresh st0)),
                 {| calls := calls st0
                             ++ [NewSectionPoint (fresh st0) sCat 1 description];
                    fresh := S (fresh st0); assembly := assembly st0;
                    inst_map := inst_map st0;
                    sp_pool := <[(1, description) := fresh st0]> (sp_pool st0);
                    step_objs := step_objs st0; frame_objs := frame_objs st0;
                    nt11_cache := nt11_cache st0 |})
            end).
  { intros d st0 Hd. pose proof (get_or_make_sp_run sCat (Some d) st0) as H.
    cbv beta iota in H. rewrite Hd in H. exact H. }
  assert (Hboth : forall a b,
            sp_key a = (1, description) -> sp_key b = (1, description) ->
            exists h st1,
              get_or_make_sp sCat (Some a) st = (Ok (Some h), st1) /\
              get_or_make_sp sCat (Some b) st1 = (Ok (Some h), st1)).
  { intros a b Ha Hb. pose proof (Hrun a st Ha) as Hra.
    destruct (sp_pool st !! (1, description)) as [h|] eqn:Hp.
    - exists h, st. split; [done |]. pose proof (Hrun b st Hb) as Hrb.
      by rewrite Hp in Hrb.
    - eexists _, _. split; [exact Hra |].
      match goal with |- get_or_make_sp _ _ ?s = _ =>
        pose proof (Hrun b s Hb) as Hrb end.
      simpl in Hrb. by rewrite lookup_insert_eq in Hrb. }
  split; [|split; by apply Hboth].
  pose proof (Hrun _ st Hku) as Hu. pose proof (Hrun _ st Hkn) as Hnum.
  by destruct (sp_pool st !! (1, description)).
Qed.
End ImporterRecord.

(** ** Store handles on the exit paths (C7) *)

Section Handles.

Lemma appends_weaken {St E A} (log : St -> list E) (P Q : E -> Prop) (m : prog St A) :
  (forall e, P e -> Q e) -> appends log P m -> appends log Q m.
Proof.
  intros HPQ Hm st. destruct (Hm st) as (tr & Htr & HP). exists tr.
  split; [done |]. eapply Forall_impl; [exact HP | done].
Qed.

(** *** The exporter *)

Lemma exporter_handle_quiet (o : bool) (l : list Exporter.event) :
  Forall quiet_x l ->
  foldl (fun o e => match e with
                    | Exporter.OpenOdb _ _ => true
                    | Exporter.CloseOdb => false
                    | _ => o
                    end) o l = o.
Proof.
  intros H. revert o. induction H as [|e l He _ IH]; intros o; simpl; [done |].
  rewrite IH. by destruct e.
Qed.

Lemma exporter_opened_quiet (l : list Exporter.event) :
  Forall quiet_x l -> ExporterHandles.ever_opened l = false.
Proof.
  unfold ExporterHandles.ever_opened.
  induction 1 as [|e l He _ IH]; simpl; [done |]. rewrite IH. by destruct e.
Qed.

Lemma exporter_body_appends (odb : Exporter.Odb) (step_filter : option (list string))
    (out_dir : string) :
  appends (fun tr => tr) quiet_x
    (Exporter.export_mesh odb out_dir ;;
     Exporter.export_steps odb step_filter out_dir ;;
     Exporter.export_nt11 odb step_filter out_dir).
Proof.
  apply appends_bind.
  { unfold Exporter.export_mesh. apply appends_bind_lift. intros out _.
    by apply appends_emit. }
  intros _. apply appends_bind.
  { unfold Exporter.export_steps. by apply appends_emit. }
  intros _. eapply appends_weaken; [|apply export_nt11_appends].
  by intros [].
Qed.

Lemma exporter_main_run (E : Exporter.env) (argv : list string) :
  match Exporter.parse_args argv with
  | Raise e => Exporter.main E argv [] = (Raise e, [])
  | Ok (odb_path, out_dir, step_filter) =>
      exists pre,
        Forall quiet_x pre /\
        match Exporter.odb_at E odb_path with
        | None => Exporter.main E argv [] = (Raise (OdbError odb_path), pre)
        | Some odb =>
            exists res body,
              Exporter.main E argv []
              = (res, pre ++ [Exporter.OpenOdb odb_path true] ++ body
                      ++ (if is_ok res then [Exporter.CloseOdb] else [])) /\
              Forall quiet_x body
        end
  end.
Proof.
  unfold Exporter.main. rewrite bind_run. unfold lift.
  destruct (Exporter.parse_args argv) as [[[odb_path out_dir] step_filter]|e]; [|done].
  simpl. rewrite bind_run. unfold Exporter.ensure_dir.
  exists (if Exporter.isdir E out_dir then [] else [Exporter.MakeDirs out_dir]).
  split; [destruct (Exporter.isdir E out_dir); by repeat constructor |].
  assert (Hpre : (if Exporter.isdir E out_dir then mret tt
                  else Exporter.emit (Exporter.MakeDirs out_dir)) []
                 = (Ok tt, if Exporter.isdir E out_dir then []
                           else [Exporter.MakeDirs out_dir])).
  { by destruct (Exporter.isdir E out_dir). }
  rewrite Hpre. clear Hpre.
  set (pre := if Exporter.isdir E out_dir then [] else [Exporter.MakeDirs out_dir]).
  rewrite bind_run. unfold Exporter.openOdb.
  destruct (Exporter.odb_at E odb_path) as [odb|]; [|done].
  rewrite bind_run. simpl.
  pose proof (exporter_body_appends odb step_filter out_dir
                (pre ++ [Exporter.OpenOdb odb_path true])) as (body & Hbody & Hq).
  simpl in Hbody.
  match type of Hbody with (?m ?s).2 = _ =>
    assert (Hrun : exists res, m s = (res, s ++ body))
  end.
  { eexists. rewrite <- Hbody. by apply surjective_pairing. }
  destruct Hrun as [res Hrun].
  exists res, body. split; [|done].
  rewrite !bind_run in Hrun. rewrite !bind_run.
  destruct (Exporter.export_mesh odb out_dir _) as [[[]|e1] tr1]; simpl in *.
  - rewrite !bind_run in Hrun. rewrite !bind_run.
    destruct (Exporter.export_steps odb step_filter out_dir tr1) as [[[]|e2] tr2];
      simpl in *.
    + rewrite !bind_run.
      destruct (Exporter.export_nt11 odb step_filter out_dir tr2) as [[[]|e3] tr3];
        simpl in *; injection Hrun as <- ->; unfold Exporter.emit, modify; simpl;
        rewrite <- ?app_assoc, ?app_nil_r; simpl; by rewrite ?app_nil_r.
    + injection Hrun as <- ->. simpl. rewrite <- ?app_assoc, ?app_nil_r. simpl.
      by rewrite ?app_nil_r.
  - injection Hrun as <- ->. simpl. rewrite <- ?app_assoc, ?app_nil_r. simpl.
    by rewrite ?app_nil_r.
Qed.

(** *** The importer *)

Lemma importer_handle_open_foldl (tr : list Importer.event) :
  Importer.handle_open tr = foldl ImporterSpec.handle_step false tr.
Proof. reflexivity. Qed.

Lemma importer_handle_quiet (o : bool) (l : list Importer.event) :
  Forall quiet_i l -> foldl ImporterSpec.handle_step o l = o.
Proof.
  intros H. revert o. induction H as [|e l He _ IH]; intros o; simpl; [done |].
  rewrite IH. by destruct e.
Qed.

Lemma geometry_quiet (l : list Importer.event) :
  Forall Importer.is_geometry_write l -> Forall quiet_i l.
Proof. intros H. eapply Forall_impl; [exact H |]. by intros [] ?. Qed.

Lemma results_quiet (l : list Importer.event) :
  Forall ImporterSpec.is_timed_results_write l -> Forall quiet_i l.
Proof. intros H. eapply Forall_impl; [exact H |]. by intros [] ?. Qed.

(** C7, as the code has it. Neither tool has a cleanup action: the store
    handle is closed on the exit path without an error, and on no other.
    At exit the handle is open exactly when the run raised after a handle
    had been opened; errors ahead of the first opening (usage and argument
    errors) leave nothing open. *)
Theorem C7_handle_open_iff_raised_after_open :
  (forall E argv,
      let run := Exporter.main E argv [] in
      Exporter.handle_open run.2
      = negb (is_ok run.1) && ExporterHandles.ever_opened run.2) /\
  (forall E argv,
      let run := Importer.main E argv Importer.initial in
      Importer.handle_open (Importer.calls run.2)
      = negb (is_ok run.1) && ImporterSpec.ever_opened (Importer.calls run.2)).
Proof.
  split; intros E argv run; subst run.
  - pose proof (exporter_main_run E argv) as H.
    destruct (Exporter.parse_args argv) as [[[odb_path out_dir] step_filter]|e];
      [|by rewrite H].
    destruct H as (pre & Hpre & H).
    unfold Exporter.handle_open, ExporterHandles.ever_opened.
    destruct (Exporter.odb_at E odb_path) as [odb|].
    + destruct H as (res & body & -> & Hbody). cbn [fst snd].
      rewrite !foldl_app, !existsb_app.
      rewrite (exporter_handle_quiet _ pre Hpre). cbn [foldl existsb].
      rewrite (exporter_handle_quiet _ body Hbody).
      destruct res; simpl; by rewrite ?orb_true_r.
    + rewrite H. simpl. rewrite (exporter_handle_quiet _ pre Hpre).
      symmetry. by apply exporter_opened_quiet.
  - pose proof (main_run E argv) as H.
    destruct (Importer.parse_args argv)
      as [[[[mesh_path steps_path] nt11_path] out_odb]|e]; [|by rewrite H].
    simpl in H. destruct (Importer.mesh_at E mesh_path) as [mesh|].
    + destruct H as (res & st & g & r & -> & Hcalls & Hg & Hr). simpl.
      rewrite Hcalls, importer_handle_open_foldl. cbn [foldl].
      rewrite foldl_app, (importer_handle_quiet _ g (geometry_quiet _ Hg)).
      cbn [foldl].
      rewrite foldl_app, (importer_handle_quiet _ r (results_quiet _ Hr)).
      by destruct res.
    + destruct H as (st & -> & Hcalls). simpl. by rewrite Hcalls.
Qed.
End Handles.

(** A bad value shape in the export, and a missing instance in the import:
    both runs raise, and both leave their store handle open. *)
Lemma C7_counterexample :
  (let run := Exporter.main (Samples.export_env Samples.odb_bad) Samples.export_argv [] in
   run.1 = Raise TypeError /\
   Exporter.handle_open run.2 = true) /\
  (let run := Importer.main
                (ImportSamples.files (ImportSamples.catalog "TIME")
                   [ImportSamples.record_at "PART-9" "Step-1" "NODAL" Null])
                ImportSamples.argv Importer.initial in
   run.1 = Raise (RuntimeError "Instance 'PART-9' not found when writing NT11.") /\
   Importer.handle_open (Importer.calls run.2) = true).
Proof. split; split; by vm_compute. Qed.

(** C6. A record whose step is missing from the catalog: the frame lookup
    falls back on the step table, which has no such step, and the run stops
    with a [KeyError] before any data of the record is written.  (A record
    of a catalogued step with a frame the catalog did not list is written:
    the frame is created on the way.) *)
Theorem C6_step_absent_from_catalog_raises :
  (let run := Importer.main
                (ImportSamples.files (ImportSamples.catalog "TIME")
                   [ImportSamples.record "Step-2" "NODAL" Null])
                ImportSamples.argv Importer.initial in
   run.1 = Raise (KeyError "Step-2") /\
   existsb ImporterSpec.is_add_data (Importer.calls run.2) = false) /\
  (let run := Importer.main
                (ImportSamples.files (ImportSamples.catalog "TIME")
                   [ImportSamples.record_frame 7 "Step-1" "NODAL" Null])
                ImportSamples.argv Importer.initial in
   run.1 = Ok tt /\
   existsb ImporterSpec.is_add_data (Importer.calls run.2) = true).
Proof. split; split; by vm_compute. Qed.

Lemma C8_unknown_position_written_as_nodal_witness :
  let rec := ImportSamples.record "Step-1" "CENTROID" Null in
  let st := ImportSamples.after_empty_run in
  (r_position rec ∉ ImporterSpec.known_positions) /\
  Importer.pos_from_name (r_position rec) = NODAL /\
  Importer.write_record ImportSamples.sCat rec st
  = Importer.write_record ImportSamples.sCat (ImporterSpec.set_position "NODAL" rec) st /\
  (exists st' pre fo,
      Importer.write_record ImportSamples.sCat rec st = (Ok tt, st') /\
      Importer.calls st'
      = Importer.calls st ++ pre ++ [Importer.AddData fo NODAL 1%nat (r_labels rec)
                                       (Importer.ensure_tuple_seq (r_values rec)) None] /\
      Forall (fun e => ImporterSpec.is_add_data e = false) pre).
Proof.
  intros rec st.
  assert (Hpos : r_position rec ∉ ImporterSpec.known_positions).
  { refine (bool_decide_unpack _ _). vm_compute. exact I. }
  destruct (C8_unknown_position_written_as_nodal ImportSamples.sCat rec st Hpos)
    as (H1 & H2 & H3).
  split; [exact Hpos |]. split; [exact H1 |]. split; [exact H2 |].
  apply H3; [by vm_compute | left; eexists; by vm_compute].
Defined.

Lemma C10_null_number_keyed_as_one_witness :
  let st := ImportSamples.after_empty_run in
  let unnumbered := Some {| so_number := Null; so_description := Val "Top"%string |} in
  let numbered := Some {| so_number := Val 1; so_description := Val "Top"%string |} in
  let created :=
    {| Importer.calls :=
         Importer.calls st
         ++ [Importer.NewSectionPoint (Importer.fresh st) ImportSamples.sCat 1 "Top"];
       Importer.fresh := S (Importer.fresh st);
       Importer.assembly := Importer.assembly st;
       Importer.inst_map := Importer.inst_map st;
       Importer.sp_pool := <[(1, "Top"%string) := Importer.fresh st]> (Importer.sp_pool st);
       Importer.step_objs := Importer.step_objs st;
       Importer.frame_objs := Importer.frame_objs st;
       Importer.nt11_cache := Importer.nt11_cache st |} in
  get_or_none (Null : jfield Z) = None /\
  Importer.sp_pool st !! (1, "Top"%string) = None /\
  (Importer.get_or_make_sp ImportSamples.sCat unnumbered st
   = (Ok (Some (Importer.fresh st)), created) /\
   Importer.get_or_make_sp ImportSamples.sCat numbered st
   = (Ok (Some (Importer.fresh st)), created)) /\
  (exists h st1,
      Importer.get_or_make_sp ImportSamples.sCat unnumbered st = (Ok (Some h), st1) /\
      Importer.get_or_make_sp ImportSamples.sCat numbered st1 = (Ok (Some h), st1)) /\
  (exists h st1,
      Importer.get_or_make_sp ImportSamples.sCat numbered st = (Ok (Some h), st1) /\
      Importer.get_or_make_sp ImportSamples.sCat unnumbered st1 = (Ok (Some h), st1)).
Proof.
  intros st unnumbered numbered created. split; [reflexivity |].
  assert (Hp : Importer.sp_pool st !! (1, "Top"%string) = None) by by vm_compute.
  split; [exact Hp |].
  pose proof (C10_null_number_keyed_as_one ImportSamples.sCat Null (Val "Top"%string) st
                eq_refl) as H.
  cbv zeta in H. cbn [Importer.to_str Importer.dict_get_default] in H.
  fold st in H. rewrite Hp in H. exact H.
Defined.

(** ** The exporter: the buckets of a frame as a partition *)

Section BucketPartition.
Import Exporter ExporterSpec ExporterMore.

Lemma total_labels_snoc (bs : list (bucket_key * bucket)) (k : bucket_key) (v : FieldValue) :
  total_labels (bs ++ [(k, new_bucket v)]) = total_labels bs.
Proof.
  unfold total_labels. rewrite sum_list_with_app. simpl. lia.
Qed.

Lemma total_labels_alter (bs : list (bucket_key * bucket)) (k : bucket_key)
    (l : Z) (x : float) :
  k ∈ bs.*1 ->
  total_labels (dict_alter (bucket_append l x) k bs) = S (total_labels bs).
Proof.
  unfold total_labels. induction bs as [|[k0 b0] bs IH]; simpl; intros Hk.
  - by apply elem_of_nil in Hk.
  - destruct (decide (k0 = k)) as [->|Hne]; simpl.
    + rewrite length_app. simpl. lia.
    + apply elem_of_cons in Hk as [->|Hk]; [done |]. rewrite IH by done. lia.
Qed.

Lemma dict_setdefault_has_key {K V} `{EqDecision K} (k : K) (v : V) (d : list (K * V)) :
  k ∈ (dict_setdefault k v d).*1.
Proof.
  apply dec_stable. intros Hn. apply dict_get_None in Hn.
  rewrite dict_get_setdefault in Hn. destruct (dict_get k d); [done |].
  by rewrite decide_True in Hn.
Qed.

Lemma add_value_total_labels (acc acc' : list (bucket_key * bucket)) (v : FieldValue) :
  add_value acc v = Ok acc' -> total_labels acc' = S (total_labels acc).
Proof.
  intros (l & x & _ & ->)%add_value_Ok.
  rewrite total_labels_alter by apply dict_setdefault_has_key.
  f_equal. unfold dict_setdefault. destruct (dict_get (key_of v) acc); [done |].
  apply total_labels_snoc.
Qed.

Lemma foldM_add_value_total_labels (vs : list FieldValue) :
  forall acc bs, foldM add_value acc vs = Ok bs ->
  total_labels bs = (total_labels acc + length vs)%nat.
Proof.
  induction vs as [|v vs IH]; simpl; intros acc bs H.
  - injection H as <-. lia.
  - destruct (add_value acc v) as [acc'|e] eqn:Hv; simpl in H; [|done].
    rewrite (IH _ _ H), (add_value_total_labels _ _ _ Hv). lia.
Qed.

Lemma mapM_length {A B} (f : A -> result B) (xs : list A) (ys : list B) :
  mapM f xs = Ok ys -> length ys = length xs.
Proof.
  revert ys. induction xs as [|x xs IH]; simpl; intros ys H.
  - by injection H as <-.
  - destruct (f x); simpl in H; [|done].
    destruct (mapM f xs) as [ys'|]; simpl in H; [|done].
    injection H as <-. simpl. f_equal. by apply IH.
Qed.

Lemma bucket_not_empty (vs : list FieldValue) (bs : list (bucket_key * bucket))
    (k : bucket_key) (b : bucket) :
  bucket_values vs = Ok bs -> (k, b) ∈ bs ->
  b_labels b <> [] /\ length (b_labels b) = length (under_key k vs).
Proof.
  intros Hbs Hin.
  destruct (bucket_values_spec _ _ _ _ Hbs Hin) as (v0 & rest & es & Hu & Hes & ->).
  rewrite extend_new_labels, Hu, length_fmap, (mapM_length _ _ _ Hes). split; [|done].
  intros Hnil. apply (f_equal length) in Hnil.
  rewrite length_fmap, (mapM_length _ _ _ Hes) in Hnil. done.
Qed.

(** X1. The buckets of a frame partition its records: the keys of the
    buckets are pairwise distinct and are exactly the keys that occur among
    the records; no bucket is empty, each holds as many labels as there are
    records of its key, and together the buckets hold one label per
    record. *)
Theorem X1_buckets_partition_the_frame
    (vs : list FieldValue) (bs : list (bucket_key * bucket)) :
  bucket_values vs = Ok bs ->
  NoDup bs.*1 /\
  (forall k, k ∈ bs.*1 <-> exists v, v ∈ vs /\ key_of v = k) /\
  (forall k b, (k, b) ∈ bs ->
     b_labels b <> [] /\ length (b_labels b) = length (under_key k vs)) /\
  total_labels bs = length vs.
Proof.
  intros Hbs.
  assert (Hnd : NoDup bs.*1).
  { eapply foldM_add_value_NoDup; [exact Hbs | apply NoDup_nil_2]. }
  split; [done |]. split; [|split].
  - intros k. split.
    + intros ((k' & b) & -> & Hin)%list_elem_of_fmap. simpl.
      destruct (bucket_values_spec _ _ _ _ Hbs Hin) as (v0 & rest & es & Hu & _ & _).
      assert (Hv0 : v0 ∈ under_key k' vs) by (rewrite Hu; left).
      apply list_elem_of_filter in Hv0 as [? ?]. by exists v0.
    + intros (v & Hv & <-). destruct (bucket_values_covers _ _ _ Hbs Hv) as [b Hb].
      apply list_elem_of_fmap. by exists (key_of v, b).
  - intros k b Hin. by eapply bucket_not_empty.
  - unfold bucket_values in Hbs. by rewrite (foldM_add_value_total_labels _ _ _ Hbs).
Qed.

(** X2. Records that share a bucket belong to the same instance, have the
    same position and carry section points of the same number and
    description: the key text tells different slots apart. *)
Theorem X2_bucket_mates_share_slot
    (vs : list FieldValue) (k : bucket_key) (v1 v2 : FieldValue) :
  v1 ∈ under_key k vs -> v2 ∈ under_key k vs ->
  v_instance_name v1 = v_instance_name v2 /\
  v_position v1 = v_position v2 /\
  sp_content (section_point_of v1) = sp_content (section_point_of v2).
Proof.
  intros [H1 _]%list_elem_of_filter [H2 _]%list_elem_of_filter.
  assert (Hs : slot_of v1 = slot_of v2) by (apply key_of_slot; congruence).
  unfold slot_of in Hs. by injection Hs.
Qed.
End BucketPartition.

Lemma X1_buckets_partition_the_frame_witness :
  Exporter.bucket_values Samples.values_ok = Ok Samples.buckets_ok /\
  NoDup Samples.buckets_ok.*1 /\
  ExporterMore.total_labels Samples.buckets_ok = 3%nat.
Proof.
  assert (H : Exporter.bucket_values Samples.values_ok = Ok Samples.buckets_ok)
    by (vm_compute; reflexivity).
  destruct (X1_buckets_partition_the_frame _ _ H) as (H1 & _ & _ & H4).
  split; [exact H |]. split; [exact H1 | exact H4].
Defined.

Lemma X2_bucket_mates_share_slot_witness :
  let k := Exporter.key_of Samples.v_ip_a in
  Samples.v_ip_a ∈ ExporterSpec.under_key k Samples.values_ok /\
  Samples.v_ip_b ∈ ExporterSpec.under_key k Samples.values_ok /\
  ExporterSpec.sp_content (ExporterSpec.section_point_of Samples.v_ip_a)
  = ExporterSpec.sp_content (ExporterSpec.section_point_of Samples.v_ip_b).
Proof.
  intros k.
  assert (Ha : Samples.v_ip_a ∈ ExporterSpec.under_key k Samples.values_ok)
    by (vm_compute; repeat constructor).
  assert (Hb : Samples.v_ip_b ∈ ExporterSpec.under_key k Samples.values_ok)
    by (vm_compute; repeat constructor).
  split; [exact Ha |]. split; [exact Hb |].
  exact (proj2 (proj2 (X2_bucket_mates_share_slot _ _ _ _ Ha Hb))).
Defined.

(** ** The exporter: the stream file *)

Section StreamFile.
Import Exporter ExporterSpec ExporterMore.

Lemma elem_of_enumerate_from_lookup {A} (xs : list A) (i j : Z) (x : A) :
  (j, x) ∈ enumerate_from i xs <-> exists n : nat, j = (i + Z.of_nat n)%Z /\ xs !! n = Some x.
Proof.
  revert i. induction xs as [|y xs IH]; simpl; intros i.
  - split; [intros H; by apply elem_of_nil in H | by intros (n & _ & ?)].
  - rewrite elem_of_cons, IH. split.
    + intros [[= -> ->]|(n & -> & Hn)].
      * exists 0%nat. split; [lia | done].
      * exists (S n). split; [lia | done].
    + intros ([|n] & -> & Hn); simpl in Hn.
      * left. injection Hn as ->. f_equal. lia.
      * right. exists n. split; [lia | done].
Qed.

(** X3. Every record written to the stream is well formed: its labels are
    not empty, every entry of its values is a sequence of exactly one float,
    its section point is null or an object carrying both keys, its step is
    one the filter retains and its frame index is not negative. *)
Theorem X3_written_records_well_formed
    (odb : Odb) (step_filter : option (list string)) (out_dir : string)
    (rec : stream_rec) :
  rec ∈ lines_written (export_nt11 odb step_filter out_dir []).2 ->
  r_labels rec <> [] /\
  Forall (fun e => exists x, e = Seq [x]) (r_values rec) /\
  r_section_point rec <> Absent /\
  (forall d, r_section_point rec = Val d ->
     so_number d <> Absent /\ so_description d <> Absent) /\
  filtered_out step_filter (r_step rec) = false /\
  (0 <= r_frame_index rec)%Z.
Proof.
  intros Hrec. apply lines_written_elem in Hrec.
  destruct (export_nt11_appends odb step_filter out_dir []) as (tr & Htr & HP).
  simpl in Htr. rewrite Htr in Hrec.
  rewrite Forall_forall in HP. apply HP in Hrec as (fo & k & b & Hrb).
  destruct Hrb as (sname & step & fidx & fr & bs & Hs & Hf & Hfr & Hfo & Hbs & Hkb & ->).
  destruct (bucket_not_empty _ _ _ _ Hbs Hkb) as [Hne _].
  destruct (bucket_values_spec _ _ _ _ Hbs Hkb) as (v0 & rest & es & Hu & Hes & ->).
  simpl. split; [done |]. split; [|split; [|split; [|split; [done |]]]].
  - rewrite Forall_fmap, Forall_fmap. apply Forall_true. intros x. by exists x.
  - unfold value_sp. by destruct (sp_to_dict _).
  - unfold value_sp, sp_to_dict. intros d Hd.
    destruct (getattr (v_sectionPoint v0) None) as [[h [n|] [ds|]]|];
      simpl in Hd; try done; by injection Hd as <-.
  - apply elem_of_enumerate_from_lookup in Hfr as (n & -> & _). lia.
Qed.

Lemma for_each_skip {St A} (xs : list A) (body : A -> prog St unit) (st : St) :
  (forall x, x ∈ xs -> body x st = (Ok tt, st)) -> for_each xs body st = (Ok tt, st).
Proof.
  induction xs as [|x xs IH]; simpl; intros H; [done |].
  rewrite bind_run, H by left. apply IH. intros y Hy. apply H. by right.
Qed.

(** X4. A store whose retained steps hold no temperature data (no field of
    that name, or a field without values, in every frame) gives an empty
    stream file: it is opened and closed, and nothing is written. *)
Theorem X4_no_temperature_data_empty_stream
    (odb : Odb) (step_filter : option (list string)) (out_dir : string)
    (tr : list event) :
  (forall sname step fr,
      (sname, step) ∈ odb_steps odb ->
      filtered_out step_filter sname = false ->
      fr ∈ step_frames step -> no_nt11 fr) ->
  export_nt11 odb step_filter out_dir tr
  = (Ok tt, tr ++ [OpenFile (os_path_join out_dir "nt11.jsonl"); CloseFile]).
Proof.
  intros Hno. unfold export_nt11. rewrite bind_run. simpl. rewrite bind_run.
  rewrite for_each_skip.
  - simpl. unfold emit, modify. by rewrite <- app_assoc.
  - intros [sname step] Hs. unfold export_step.
    destruct (filtered_out step_filter sname) eqn:Hf; [done |].
    apply for_each_skip. intros [fidx fr] Hfr.
    apply elem_of_enumerate_from in Hfr.
    specialize (Hno sname step fr Hs Hf Hfr). unfold no_nt11 in Hno.
    unfold export_frame. destruct (dict_get _ (fr_fieldOutputs fr)) as [fo|]; [|done].
    by rewrite Hno.
Qed.
End StreamFile.

(** ** The exporter: what a run writes, and in which order *)

Section ExporterOutputs.
Import Exporter ExporterSpec ExporterMore.

Lemma all_write_lines (body : list event) :
  Forall (fun e => exists rec, e = WriteLine rec) body ->
  exists lines, body = WriteLine <$> lines.
Proof.
  induction 1 as [|e body [rec ->] _ [lines ->]].
  - by exists [].
  - by exists (rec :: lines).
Qed.

Lemma export_steps_loop_appends (odb : Odb) (step_filter : option (list string)) :
  appends (fun tr => tr) (fun e => exists rec, e = WriteLine rec)
    (for_each (odb_steps odb)
       (fun '(sname, step) => export_step step_filter sname step)).
Proof.
  apply appends_for_each. intros [sname step] _. unfold export_step.
  destruct (filtered_out step_filter sname); [apply appends_ret |].
  apply appends_for_each. intros [fidx fr] _. unfold export_frame.
  destruct (dict_get _ (fr_fieldOutputs fr)) as [fo|]; [|apply appends_ret].
  destruct (fo_values fo) as [|v vs]; [apply appends_ret |].
  apply appends_bind_lift. intros bs _.
  apply appends_for_each. intros [k b] _. apply appends_emit. by eexists.
Qed.

(** The run of [export_nt11]: the file is opened, records are written, and
    the file is closed when, and only when, no record raised. *)
Lemma export_nt11_run (odb : Odb) (step_filter : option (list string))
    (out_dir : string) (tr : list event) :
  exists res lines,
    export_nt11 odb step_filter out_dir tr
    = (res, tr ++ [OpenFile (os_path_join out_dir "nt11.jsonl")]
               ++ (WriteLine <$> lines)
               ++ (if is_ok res then [CloseFile] else [])).
Proof.
  unfold export_nt11. rewrite bind_run. simpl. rewrite bind_run.
  match goal with |- context [for_each ?xs ?body ?s] =>
    destruct (export_steps_loop_appends odb step_filter s) as (body' & Hb & HP);
    destruct (for_each xs body s) as [[[]|e] tr'] eqn:Hrun
  end; simpl in Hb; subst tr'; apply all_write_lines in HP as [lines ->].
  - exists (Ok tt), lines. unfold emit, modify. simpl.
    by rewrite <- !app_assoc.
  - exists (Raise e), lines. simpl. by rewrite <- !app_assoc, app_nil_r.
Qed.

(** X5. What a run of the exporter does, in order: the output directory is
    made if it is missing, the store is opened read-only, the mesh document
    and then the catalog are written, the stream file is opened, records
    are written, and the stream file and the store are closed.  When a node
    of the mesh cannot be read nothing is written at all; when a record
    raises, the documents written so far stay and neither the stream file
    nor the store is closed. *)
Theorem X5_exporter_outputs_in_order (E : env) (argv : list string) :
  match parse_args argv with
  | Raise e => main E argv [] = (Raise e, [])
  | Ok (odb_path, out_dir, step_filter) =>
      let pre := if isdir E out_dir then [] else [MakeDirs out_dir] in
      match odb_at E odb_path with
      | None => main E argv [] = (Raise (OdbError odb_path), pre)
      | Some odb =>
          match mesh_of odb with
          | Raise e => main E argv [] = (Raise e, pre ++ [OpenOdb odb_path true])
          | Ok mesh =>
              exists res lines,
                main E argv []
                = (res,
                   pre ++ [OpenOdb odb_path true;
                           WriteJson (os_path_join out_dir "mesh.json") (Mesh mesh);
                           WriteJson (os_path_join out_dir "steps.json")
                             (Steps (steps_of odb step_filter));
                           OpenFile (os_path_join out_dir "nt11.jsonl")]
                       ++ (WriteLine <$> lines)
                       ++ (if is_ok res then [CloseFile; CloseOdb] else []))
          end
      end
  end.
Proof.
  unfold main. rewrite bind_run. unfold lift.
  destruct (parse_args argv) as [[[odb_path out_dir] step_filter]|e]; [|done].
  simpl. rewrite bind_run. unfold ensure_dir.
  assert (Hpre : (if isdir E out_dir then mret tt else emit (MakeDirs out_dir)) []
                 = (Ok tt, if isdir E out_dir then [] else [MakeDirs out_dir])).
  { by destruct (isdir E out_dir). }
  rewrite Hpre. clear Hpre.
  set (pre := if isdir E out_dir then [] else [MakeDirs out_dir]).
  rewrite bind_run. unfold openOdb.
  destruct (odb_at E odb_path) as [odb|]; [|done].
  rewrite bind_run. simpl. rewrite bind_run.
  unfold export_mesh. rewrite bind_run. unfold lift.
  destruct (mesh_of odb) as [mesh|e]; [|done].
  simpl. rewrite bind_run. unfold export_steps, emit at 1, modify. simpl.
  rewrite bind_run.
  match goal with |- context [export_nt11 ?o ?f ?d ?s] =>
    destruct (export_nt11_run o f d s) as (res & lines & ->)
  end.
  exists res, lines. destruct res as [[]|e]; simpl.
  - unfold emit, modify. simpl. f_equal. rewrite <- !app_assoc. simpl.
    by rewrite <- !app_assoc.
  - f_equal. rewrite <- !app_assoc. simpl. by rewrite app_nil_r.
Qed.
End ExporterOutputs.

(** ** The exporter: the mesh document *)

Section MeshDocument.
Import Exporter ExporterSpec ExporterMore.

Lemma node_row_padded (n : Node) :
  node_row n = match padded_row n with
               | Some r => Ok r
               | None => Raise IndexError
               end.
Proof.
  unfold node_row, padded_row.
  by destruct (n_coordinates n) as [|x [|y [|z rest]]].
Qed.

Lemma padded_row_None (n : Node) :
  padded_row n = None <-> (length (n_coordinates n) < 2)%nat.
Proof.
  unfold padded_row. destruct (n_coordinates n) as [|x [|y rest]]; simpl;
    split; intros H; (done || lia).
Qed.

Lemma mapM_node_row_Ok (nodes : list Node) (rows : list node_doc) :
  mapM node_row nodes = Ok rows -> padded_row <$> nodes = Some <$> rows.
Proof.
  revert rows. induction nodes as [|n nodes IH]; simpl; intros rows H.
  - by injection H as <-.
  - rewrite node_row_padded in H. destruct (padded_row n) as [r|]; simpl in H; [|done].
    destruct (mapM node_row nodes) as [rows'|]; simpl in H; [|done].
    injection H as <-. simpl. f_equal. by apply IH.
Qed.

Lemma mapM_node_row_Raise (nodes : list Node) (e : exn) :
  mapM node_row nodes = Raise e ->
  e = IndexError /\ exists n, n ∈ nodes /\ padded_row n = None.
Proof.
  induction nodes as [|n nodes IH]; simpl; intros H; [done |].
  rewrite node_row_padded in H. destruct (padded_row n) as [r|] eqn:Hn; simpl in H.
  - destruct (mapM node_row nodes) as [rows'|e']; simpl in H; [done |].
    injection H as ->. destruct (IH eq_refl) as (-> & n' & Hn' & Hp).
    split; [done |]. exists n'. split; [by right | done].
  - injection H as <-. split; [done |]. exists n. split; [left | done].
Qed.

Lemma instance_rec_Ok (inst : Instance) (doc : instance_doc) :
  instance_rec inst = Ok doc ->
  id_elements doc = Val (element_row <$> inst_elements inst) /\
  exists rows, id_nodes doc = Val rows /\ padded_row <$> inst_nodes inst = Some <$> rows.
Proof.
  unfold instance_rec. destruct (mapM node_row (inst_nodes inst)) as [rows|] eqn:Hm;
    simpl; [|done].
  intros [= <-]. simpl. split; [done |]. exists rows. split; [done |].
  by apply mapM_node_row_Ok.
Qed.

Lemma dict_set_fresh {V} (k : string) (v : V) (d : list (string * V)) :
  k ∉ d.*1 -> dict_set k v d = d ++ [(k, v)].
Proof. intros Hk. apply dict_get_None in Hk. unfold dict_set. by rewrite Hk. Qed.

Lemma mesh_fold_Ok (insts : list (string * Instance)) :
  forall acc out,
    NoDup (acc.*1 ++ insts.*1) ->
    foldM (fun out '(iname, inst) =>
             inst_rec ← instance_rec inst; Ok (dict_set iname inst_rec out))
          acc insts = Ok out ->
    exists docs, out = acc ++ docs /\ Forall2 exported_instance insts docs.
Proof.
  induction insts as [|[name inst] insts IH]; simpl; intros acc out Hnd H.
  - injection H as <-. exists []. by rewrite app_nil_r.
  - destruct (instance_rec inst) as [doc|] eqn:Hdoc; simpl in H; [|done].
    assert (Hfresh : name ∉ acc.*1).
    { apply NoDup_app in Hnd as (_ & Hd & _). intros Hin. apply (Hd name Hin). left. }
    rewrite dict_set_fresh in H by done.
    destruct (IH (acc ++ [(name, doc)]) out) as (docs & -> & Hdocs); [|done |].
    { rewrite fmap_app. simpl. by rewrite <- app_assoc. }
    exists ((name, doc) :: docs). rewrite <- app_assoc. split; [done |].
    constructor; [|done]. split; [done |]. by apply instance_rec_Ok.
Qed.

Lemma mesh_fold_Ok_nodes (insts : list (string * Instance)) :
  forall acc out,
    foldM (fun out '(iname, inst) =>
             inst_rec ← instance_rec inst; Ok (dict_set iname inst_rec out))
          acc insts = Ok out ->
    forall name inst n, (name, inst) ∈ insts -> n ∈ inst_nodes inst -> padded_row n <> None.
Proof.
  induction insts as [|[name0 inst0] insts IH]; simpl; intros acc out H name inst n Hin Hn.
  - by apply elem_of_nil in Hin.
  - destruct (instance_rec inst0) as [doc|] eqn:Hdoc; simpl in H; [|done].
    apply elem_of_cons in Hin as [[= -> ->]|Hin]; [|by eapply IH].
    apply instance_rec_Ok in Hdoc as (_ & rows & _ & Hrows).
    intros Hp. apply (list_elem_of_fmap_2 padded_row) in Hn. rewrite Hp, Hrows in Hn.
    by apply list_elem_of_fmap in Hn as (? & ? & ?).
Qed.

Lemma mesh_fold_Raise (insts : list (string * Instance)) :
  forall acc e,
    foldM (fun out '(iname, inst) =>
             inst_rec ← instance_rec inst; Ok (dict_set iname inst_rec out))
          acc insts = Raise e ->
    e = IndexError /\
    exists name inst n, (name, inst) ∈ insts /\ n ∈ inst_nodes inst /\ padded_row n = None.
Proof.
  induction insts as [|[name0 inst0] insts IH]; simpl; intros acc e H; [done |].
  destruct (instance_rec inst0) as [doc|e0] eqn:Hdoc; simpl in H.
  - destruct (IH _ _ H) as (-> & name & inst & n & Hin & Hn & Hp).
    split; [done |]. exists name, inst, n. split; [by right | done].
  - injection H as <-. unfold instance_rec in Hdoc.
    destruct (mapM node_row (inst_nodes inst0)) as [rows|e1] eqn:Hm; simpl in Hdoc;
      [done |].
    injection Hdoc as <-. destruct (mapM_node_row_Raise _ _ Hm) as (-> & n & Hn & Hp).
    split; [done |]. exists name0, inst0, n. split; [left | done].
Qed.

Lemma mesh_of_instances (odb : Odb) (mesh : mesh_doc) :
  NoDup (odb_instances odb).*1 ->
  mesh_of odb = Ok mesh ->
  Forall2 exported_instance (odb_instances odb) (instances mesh).
Proof.
  unfold mesh_of. intros Hnd H.
  match type of H with context [foldM ?F ?a ?l] =>
    destruct (foldM F a l) as [out|] eqn:Hfold; simpl in H; [|done]
  end.
  injection H as <-. simpl.
  destruct (mesh_fold_Ok (odb_instances odb) [] out Hnd Hfold) as (docs & -> & Hdocs).
  done.
Qed.

(** X6. The mesh document lists the instances of the store in their order
    and under their names; each entry holds one row per node, in order,
    with the label, the first two coordinates and the third coordinate or
    0.0 where the node has only two, and one element row per element (an
    empty list for an instance without elements). *)
Theorem X6_mesh_document_content (odb : Odb) (mesh : mesh_doc) :
  NoDup (odb_instances odb).*1 ->
  mesh_of odb = Ok mesh ->
  Forall2 exported_instance (odb_instances odb) (instances mesh).
Proof. apply mesh_of_instances. Qed.

(** X7. The mesh extraction fails exactly when some node of the store has
    fewer than two coordinates, and then with an [IndexError]. *)
Theorem X7_mesh_fails_on_short_nodes_only (odb : Odb) :
  match mesh_of odb with
  | Ok _ => ~ has_short_node odb
  | Raise e => e = IndexError /\ has_short_node odb
  end.
Proof.
  unfold mesh_of.
  match goal with |- context [foldM ?F ?a ?l] =>
    destruct (foldM F a l) as [out|e] eqn:Hfold; simpl
  end.
  - intros (name & inst & n & Hin & Hn & Hlen).
    apply (mesh_fold_Ok_nodes _ _ _ Hfold name inst n Hin Hn).
    by apply padded_row_None.
  - destruct (mesh_fold_Raise _ _ _ Hfold) as (-> & name & inst & n & Hin & Hn & Hp).
    split; [done |]. exists name, inst, n. by rewrite <- padded_row_None.
Qed.
End MeshDocument.

Lemma X6_mesh_document_content_witness :
  NoDup (Exporter.odb_instances Samples.odb_ok).*1 /\
  (exists mesh,
      Exporter.mesh_of Samples.odb_ok = Ok mesh /\
      Forall2 ExporterMore.exported_instance
        (Exporter.odb_instances Samples.odb_ok) (instances mesh)).
Proof.
  assert (Hnd : NoDup (Exporter.odb_instances Samples.odb_ok).*1).
  { simpl. apply NoDup_singleton. }
  split; [exact Hnd |]. eexists. split; [vm_compute; reflexivity |].
  apply (X6_mesh_document_content Samples.odb_ok _ Hnd). vm_compute. reflexivity.
Defined.

(** ** The exporter: the catalog, and the stream against it *)

Section Catalog.
Import Exporter ExporterSpec ExporterMore.

Lemma enumerate_from_fst {A} (xs : list A) (i : Z) :
  (enumerate_from i xs).*1 = seqZ i (Z.of_nat (length xs)).
Proof.
  revert i. induction xs as [|x xs IH]; intros i; [done |].
  cbn [enumerate_from length]. rewrite fmap_cons, IH, (seqZ_cons i) by lia.
  simpl. do 2 f_equal; lia.
Qed.

Lemma enumerate_from_snd {A} (xs : list A) (i : Z) : (enumerate_from i xs).*2 = xs.
Proof. revert i. induction xs as [|x xs IH]; intros i; simpl; [done | by f_equal]. Qed.

Lemma step_meta_catalogued (sname : string) (step : Step) :
  catalogued_step (sname, step) (step_meta sname step).
Proof.
  unfold catalogued_step, step_meta. simpl. split; [done |]. split.
  { unfold sc_eqb. case_bool_decide as H; [by rewrite H | done]. }
  split; [done |]. eexists. split; [reflexivity |].
  unfold enumerate. rewrite <- !list_fmap_compose.
  rewrite <- (enumerate_from_fst (step_frames step) 0).
  rewrite <- (enumerate_from_snd (step_frames step) 0) at 4 6.
  rewrite <- !list_fmap_compose.
  repeat split; apply list_fmap_ext; by intros ? [? ?].
Qed.

(** X8. The catalog lists the retained steps in the order of the store,
    each under its name, with the name of its domain, the number of its
    frames, and one frame entry per frame carrying the indices 0, 1, ... in
    order, the frame value and the description (empty when the frame has
    none).  Without a filter, or with an empty one, every step is listed. *)
Theorem X8_catalog_content (odb : Odb) (step_filter : option (list string)) :
  exists l,
    steps (steps_of odb step_filter) = Val l /\
    Forall2 catalogued_step
      (filter (fun '(sname, _) => filtered_out step_filter sname = false) (odb_steps odb)) l /\
    sd_name <$> l = retained_names odb step_filter /\
    (step_filter = None \/ step_filter = Some [] -> sd_name <$> l = (odb_steps odb).*1).
Proof.
  eexists. split; [reflexivity |].
  assert (Hnames :
    sd_name <$> ((fun '(sname, step) => step_meta sname step) <$>
                 filter (fun '(sname, _) => filtered_out step_filter sname = false)
                   (odb_steps odb))
    = retained_names odb step_filter).
  { unfold retained_names. induction (odb_steps odb) as [|[n s] l IH]; [done |].
    rewrite fmap_cons, !filter_cons. simpl.
    destruct (decide (filtered_out step_filter n = false)); simpl;
      [f_equal; exact IH | exact IH]. }
  split; [|split; [done |]].
  - apply Forall2_fmap_r, Forall_Forall2_diag, Forall_forall.
    intros [sname step] _. apply step_meta_catalogued.
  - intros Hf. rewrite Hnames. unfold retained_names.
    assert (Hall : forall n, filtered_out step_filter n = false).
    { intros n. by destruct Hf as [-> | ->]. }
    induction ((odb_steps odb).*1) as [|n l IH]; [done |].
    rewrite filter_cons, decide_True by apply Hall. by rewrite IH.
Qed.

Lemma written_record_catalogued
    (odb : Odb) (step_filter : option (list string)) (out_dir : string)
    (rec : stream_rec) :
  rec ∈ lines_written (export_nt11 odb step_filter out_dir []).2 ->
  exists l s fs fd,
    steps (steps_of odb step_filter) = Val l /\
    s ∈ l /\ sd_name s = r_step rec /\
    sd_frames s = Val fs /\ fd ∈ fs /\
    fd_index fd = r_frame_index rec /\
    fd_value fd = Val (r_frame_value rec).
Proof.
  intros Hrec. apply lines_written_elem in Hrec.
  destruct (export_nt11_appends odb step_filter out_dir []) as (tr & Htr & HP).
  simpl in Htr. rewrite Htr in Hrec.
  rewrite Forall_forall in HP. apply HP in Hrec as (fo & k & b & Hrb).
  destruct Hrb as (sname & step & fidx & fr & bs & Hs & Hf & Hfr & _ & _ & _ & ->).
  eexists _, (step_meta sname step), _, (frame_meta fidx fr).
  split; [reflexivity |]. split; [|split; [done |]].
  - apply list_elem_of_fmap. exists (sname, step). split; [done |].
    by apply list_elem_of_filter.
  - split; [reflexivity |]. split; [|done].
    apply list_elem_of_fmap. by exists (fidx, fr).
Qed.
(** X9. The stream agrees with the catalog of the same run: every record
    written names a step the catalog lists and a frame index the catalog
    lists for that step, and carries the value the catalog gives for that
    frame. *)
Theorem X9_stream_records_are_catalogued
    (odb : Odb) (step_filter : option (list string)) (out_dir : string)
    (rec : stream_rec) :
  rec ∈ lines_written (export_nt11 odb step_filter out_dir []).2 ->
  exists l s fs fd,
    steps (steps_of odb step_filter) = Val l /\
    s ∈ l /\ sd_name s = r_step rec /\
    sd_frames s = Val fs /\ fd ∈ fs /\
    fd_index fd = r_frame_index rec /\
    fd_value fd = Val (r_frame_value rec).
Proof. apply written_record_catalogued. Qed.

End Catalog.

Lemma X9_stream_records_are_catalogued_witness :
  Samples.record_ok ∈
    Exporter.lines_written (Exporter.export_nt11 Samples.odb_ok None "out" []).2 /\
  (exists l s fs fd,
      steps (Exporter.steps_of Samples.odb_ok None) = Val l /\
      s ∈ l /\ sd_name s = r_step Samples.record_ok /\
      sd_frames s = Val fs /\ fd ∈ fs /\
      fd_index fd = r_frame_index Samples.record_ok /\
      fd_value fd = Val (r_frame_value Samples.record_ok)).
Proof.
  assert (Hrec : Samples.record_ok ∈
            Exporter.lines_written (Exporter.export_nt11 Samples.odb_ok None "out" []).2)
    by (vm_compute; repeat constructor).
  split; [exact Hrec |].
  exact (X9_stream_records_are_catalogued Samples.odb_ok None "out"%string _ Hrec).
Defined.

(** ** Command lines *)

Section CommandLines.

Lemma lstrip_starts_clean (s : string) : starts_clean (lstrip s).
Proof.
  induction s as [|c s IH]; simpl; [done |].
  destruct (is_space c) eqn:Hc; [done | by simpl].
Qed.

Lemma rstrip_starts_clean (s : string) : starts_clean s -> starts_clean (rstrip s).
Proof.
  destruct s as [|c s]; simpl; [done |]. intros Hc.
  destruct (rstrip s); simpl; [by rewrite Hc | done].
Qed.

Lemma lstrip_clean (s : string) : starts_clean s -> lstrip s = s.
Proof. destruct s as [|c s]; simpl; [done |]. by intros ->. Qed.

Lemma rstrip_idem (s : string) : rstrip (rstrip s) = rstrip s.
Proof.
  induction s as [|c s IH]; simpl; [done |].
  destruct (rstrip s) as [|a r] eqn:Hr.
  - destruct (is_space c) eqn:Hc; simpl; [done | by rewrite Hc].
  - change (rstrip (String c (String a r))) with
      (match rstrip (String a r) with
       | EmptyString => if is_space c then EmptyString else String c EmptyString
       | r' => String c r'
       end).
    by rewrite IH.
Qed.

Lemma strip_idem (s : string) : strip (strip s) = strip s.
Proof.
  unfold strip.
  rewrite (lstrip_clean (rstrip (lstrip s)))
    by apply rstrip_starts_clean, lstrip_starts_clean.
  apply rstrip_idem.
Qed.

Lemma steps_value_clean (x : string) :
  Forall clean_name (filter (fun s => str_truthy s = true) (strip <$> str_split "," x)).
Proof.
  apply Forall_forall. intros s [Hs Hin]%list_elem_of_filter.
  apply list_elem_of_fmap in Hin as (y & -> & _). split.
  - intros H. by rewrite H in Hs.
  - apply strip_idem.
Qed.

Lemma exporter_parse_loop_result (argv : list string) :
  forall odb_path out_dir step_filter,
    match Exporter.parse_loop argv odb_path out_dir step_filter with
    | Ok (_, _, step_filter') =>
        (forall l, step_filter = Some l -> Forall clean_name l) ->
        forall l, step_filter' = Some l -> Forall clean_name l
    | Raise e => e = IndexError
    end.
Proof.
  remember (length argv) as n eqn:Hn.
  assert (Hle : (length argv <= n)%nat) by lia. clear Hn.
  revert argv Hle. induction n as [|n IHn]; intros argv Hle;
    [destruct argv; [intros; simpl; auto | simpl in Hle; lia] |].
  assert (IH : forall rest : list string, (length rest < length argv)%nat \/ rest = [] ->
               forall o d sf,
                 match Exporter.parse_loop rest o d sf with
                 | Ok (_, _, step_filter') =>
                     (forall l, sf = Some l -> Forall clean_name l) ->
                     forall l, step_filter' = Some l -> Forall clean_name l
                 | Raise e => e = IndexError
                 end).
  { intros rest [Hlt| ->]; [apply IHn; lia | intros; simpl; auto]. }
  clear IHn. intros odb_path out_dir step_filter.
  destruct argv as [|a [|x rest]]; simpl.
  - done.
  - destruct (Exporter.is_flag a "--odb" "-i"); [done |].
    destruct (Exporter.is_flag a "--out" "-o"); [done |].
    by destruct (Exporter.is_flag a "--steps" "-s").
  - destruct (Exporter.is_flag a "--odb" "-i"); [apply IH; left; simpl; lia |].
    destruct (Exporter.is_flag a "--out" "-o"); [apply IH; left; simpl; lia |].
    destruct (Exporter.is_flag a "--steps" "-s").
    + specialize (IH rest ltac:(left; simpl; lia) odb_path out_dir
                    (Some (filter (fun s => str_truthy s = true)
                             (strip <$> str_split "," x)))).
      destruct (Exporter.parse_loop rest _ _ _) as [[[o d] sf]|e]; [|done].
      intros _. apply IH. intros l [= <-]. apply steps_value_clean.
    + apply (IH (x :: rest)). left. simpl. lia.
Qed.

(** X10. The argument parser of the exporter returns only when both the
    store path and the output directory were given and are not empty; the
    names of a step filter it returns are not empty and have no white space
    at their ends.  It fails in two ways only: the usage exit with status
    2, and the [IndexError] of reading past the end of the command line. *)
Theorem X10_exporter_arguments (argv : list string) :
  match Exporter.parse_args argv with
  | Ok (odb_path, out_dir, step_filter) =>
      odb_path <> ""%string /\ out_dir <> ""%string /\
      forall l, step_filter = Some l -> Forall clean_name l
  | Raise e => e = SystemExit 2 \/ e = IndexError
  end.
Proof.
  unfold Exporter.parse_args.
  pose proof (exporter_parse_loop_result argv None None None) as H.
  destruct (Exporter.parse_loop argv None None None) as [[[o d] sf]|e]; simpl;
    [|by right].
  destruct o as [[|c o]|], d as [[|c' d]|]; simpl; try by left.
  split; [done |]. split; [done |]. by apply H.
Qed.

Lemma importer_parse_loop_result (argv : list string) :
  forall mesh_path steps_path nt11_path out_odb e,
    Importer.parse_loop argv mesh_path steps_path nt11_path out_odb = Raise e ->
    e = IndexError.
Proof.
  remember (length argv) as n eqn:Hn.
  assert (Hle : (length argv <= n)%nat) by lia. clear Hn.
  revert argv Hle. induction n as [|n IHn]; intros argv Hle;
    [destruct argv; [by intros | simpl in Hle; lia] |].
  assert (IH : forall rest : list string, (length rest < length argv)%nat ->
               forall m s n o e,
                 Importer.parse_loop rest m s n o = Raise e -> e = IndexError).
  { intros rest Hlt. apply IHn. lia. }
  clear IHn. intros mesh_path steps_path nt11_path out_odb e.
  destruct argv as [|a [|x rest]]; simpl.
  - done.
  - destruct (String.eqb a "--mesh"); [by intros [= <-] |].
    destruct (String.eqb a "--steps"); [by intros [= <-] |].
    destruct (String.eqb a "--nt11"); [by intros [= <-] |].
    by destruct (String.eqb a "--out" || String.eqb a "--odb"); [intros [= <-] |].
  - destruct (String.eqb a "--mesh"); [apply IH; simpl; lia |].
    destruct (String.eqb a "--steps"); [apply IH; simpl; lia |].
    destruct (String.eqb a "--nt11"); [apply IH; simpl; lia |].
    destruct (String.eqb a "--out" || String.eqb a "--odb"); [apply IH; simpl; lia |].
    apply (IH (x :: rest)). simpl. lia.
Qed.

(** X11. The argument parser of the importer returns only when the mesh,
    catalog and stream files and the output store were all given and none
    of the four paths is empty.  It fails in two ways only: the usage exit
    with status 2, and the [IndexError] of reading past the end of the
    command line. *)
Theorem X11_importer_arguments (argv : list string) :
  match Importer.parse_args argv with
  | Ok (mesh_path, steps_path, nt11_path, out_odb) =>
      mesh_path <> ""%string /\ steps_path <> ""%string /\
      nt11_path <> ""%string /\ out_odb <> ""%string
  | Raise e => e = SystemExit 2 \/ e = IndexError
  end.
Proof.
  unfold Importer.parse_args.
  pose proof (importer_parse_loop_result argv None None None None) as H.
  destruct (Importer.parse_loop argv None None None None) as [[[[m s] n] o]|e]; simpl;
    [|right; by apply H].
  destruct m as [[|? m]|], s as [[|? s]|], n as [[|? n]|], o as [[|? o]|]; simpl;
    try by left.
  done.
Qed.
End CommandLines.

(** ** The importer: the geometry of one instance *)

Section InstanceGeometry.
Import Importer ImporterSpec ImporterMore.

Lemma group_step_get (ety : string) (e : element_doc) (groups : list (string * list (list Z))) :
  dict_get ety (dict_alter (fun rows => rows ++ [element_row e]) (ed_type e)
                  (dict_setdefault (ed_type e) [] groups))
  = if decide (ed_type e = ety)
    then Some (default [] (dict_get ety groups) ++ [element_row e])
    else dict_get ety groups.
Proof.
  rewrite dict_get_alter, dict_get_setdefault.
  destruct (decide (ed_type e = ety)) as [Heq|Hne];
    by destruct (dict_get ety groups).
Qed.

Lemma group_fold_get (ety : string) (elements : list element_doc) :
  forall groups,
    dict_get ety
      (foldl (fun groups e =>
                let ety := to_str (Some (ed_type e)) in
                dict_alter (fun rows => rows ++ [element_row e]) ety
                  (dict_setdefault ety [] groups)) groups elements)
    = match dict_get ety groups, rows_of_type ety elements with
      | None, [] => None
      | o, rows => Some (default [] o ++ rows)
      end.
Proof.
  unfold rows_of_type. induction elements as [|e elements IH]; intros groups.
  - simpl. destruct (dict_get ety groups); simpl; [by rewrite app_nil_r | done].
  - cbn [foldl]. rewrite IH. cbv zeta. cbn [to_str].
    rewrite group_step_get, filter_cons.
    destruct (decide (ed_type e = ety)) as [Heq|Hne].
    + rewrite fmap_cons.
      destruct (dict_get ety groups) as [rows|]; simpl;
        destruct (element_row <$> filter _ elements); simpl;
        by rewrite <- ?app_assoc.
    + done.
Qed.

Lemma group_fold_NoDup (elements : list element_doc) :
  forall groups,
    NoDup groups.*1 ->
    NoDup (foldl (fun groups e =>
                    let ety := to_str (Some (ed_type e)) in
                    dict_alter (fun rows => rows ++ [element_row e]) ety
                      (dict_setdefault ety [] groups)) groups elements).*1.
Proof.
  induction elements as [|e elements IH]; intros groups Hnd; [done |].
  cbn [foldl]. apply IH. rewrite dict_alter_keys. by apply dict_setdefault_NoDup.
Qed.

(** X12. The elements of an instance are grouped by type: the groups have
    pairwise distinct types, a type has a group exactly when some element
    is of that type, and the group holds the rows (label followed by the
    connectivity) of the elements of that type, in the order of the mesh
    document. *)
Theorem X12_elements_grouped_by_type (elements : list element_doc) :
  NoDup (group_elements elements).*1 /\
  forall ety rows,
    (ety, rows) ∈ group_elements elements <->
    rows <> [] /\ rows = rows_of_type ety elements.
Proof.
  assert (Hnd : NoDup (group_elements elements).*1).
  { apply group_fold_NoDup. apply NoDup_nil_2. }
  split; [done |]. intros ety rows.
  rewrite (dict_get_elem_of ety rows _ Hnd).
  unfold group_elements. rewrite group_fold_get. simpl.
  destruct (rows_of_type ety elements) as [|r rs]; split.
  - done.
  - by intros [? ->].
  - by intros [= <-].
  - by intros [_ ->].
Qed.

Lemma for_each_call {A} (xs : list A) (f : A -> event) (st : state) :
  for_each xs (fun x => call (f x)) st = (Ok tt, with_calls (f <$> xs) st).
Proof.
  revert st. induction xs as [|x xs IH]; intros st.
  - simpl. unfold with_calls. rewrite app_nil_r. by destruct st.
  - cbn [for_each]. rewrite bind_run. simpl. rewrite IH.
    unfold with_calls. simpl. by rewrite <- app_assoc.
Qed.

Lemma with_calls_nil (st : state) : with_calls [] st = st.
Proof. unfold with_calls. rewrite app_nil_r. by destruct st. Qed.

Lemma for_each_addElements (p : handle) (groups : list (string * list (list Z))) (st : state) :
  for_each groups (fun '(ety, eData) => api_addElements p eData ety) st
  = (Ok tt, with_calls ((fun '(ety, eData) => AddElements p eData ety) <$> groups) st).
Proof.
  revert st. induction groups as [|[ety eData] groups IH]; intros st.
  - by rewrite with_calls_nil.
  - cbn [for_each]. rewrite bind_run. simpl. rewrite IH.
    unfold with_calls. simpl. by rewrite <- app_assoc.
Qed.

Lemma nodes_part_run (p : handle) (inst_rec : instance_doc) (st : state) :
  (match dict_get_default (id_nodes inst_rec) [] with
   | Some ((_ :: _) as nodes) => api_addNodes p nodes
   | _ => mret tt
   end) st = (Ok tt, with_calls (node_calls p inst_rec) st).
Proof.
  unfold node_calls.
  destruct (id_nodes inst_rec) as [| |[|n ns]]; cbn [dict_get_default];
    try by rewrite with_calls_nil.
  reflexivity.
Qed.

Lemma elements_part_run (p : handle) (inst_rec : instance_doc) (st : state) :
  (match dict_get_default (id_elements inst_rec) [] with
   | Some ((_ :: _) as elements) =>
       for_each (group_elements elements)
         (fun '(ety, eData) => api_addElements p eData ety)
   | _ => mret tt
   end) st = (Ok tt, with_calls (element_calls p inst_rec) st).
Proof.
  unfold element_calls.
  destruct (id_elements inst_rec) as [| |[|e es]]; cbn [dict_get_default];
    try by rewrite with_calls_nil.
  apply for_each_addElements.
Qed.

Lemma build_instance_run (iname : string) (inst_rec : instance_doc) (st : state) :
  build_instance iname inst_rec st =
  (Ok tt,
   {| calls := calls st
               ++ [Part (fresh st) ("PART_FROM_" +:+ iname) THREE_D DEFORMABLE_BODY]
               ++ node_calls (fresh st) inst_rec
               ++ element_calls (fresh st) inst_rec
               ++ [NewInstance (S (fresh st)) iname (fresh st)];
      fresh := S (S (fresh st));
      assembly := <[iname := S (fresh st)]> (assembly st);
      inst_map := inst_map st; sp_pool := sp_pool st; step_objs := step_objs st;
      frame_objs := frame_objs st; nt11_cache := nt11_cache st |}).
Proof.
  unfold build_instance. cbv zeta. cbn [to_str].
  rewrite bind_run. 
  match goal with |- context [api_Part ?a ?b ?c st] =>
    change (api_Part a b c st) with
      (Ok (fresh st), with_calls [Part (fresh st) a b c]
         {| calls := calls st; fresh := S (fresh st); assembly := assembly st;
            inst_map := inst_map st; sp_pool := sp_pool st; step_objs := step_objs st;
            frame_objs := frame_objs st; nt11_cache := nt11_cache st |}) end.
  cbv iota beta. rewrite bind_run, nodes_part_run. rewrite bind_run, elements_part_run.
  rewrite bind_run.
  unfold api_Instance, with_calls. simpl. rewrite <- !app_assoc. reflexivity.
Qed.

(** X13. What the import of one instance does to the store, given an
    entry of the schema and store calls that succeed: it creates one part
    named after the instance as a three-dimensional deformable body, adds
    the nodes in one call (no call when there are none), adds the elements
    in one call per type (no call when the entry has no elements, as for a
    point cloud), and last creates the instance on that part and enters it
    in the assembly.  The calls that add the elements are made in the order
    in which the dictionary of the groups is iterated, which the source
    does not fix: they are the calls of [element_calls] in some order. *)
Theorem X13_instance_geometry (iname : string) (inst_rec : instance_doc) (st : state) :
  exists els,
    els ≡ₚ element_calls (fresh st) inst_rec /\
    build_instance iname inst_rec st =
    (Ok tt,
     {| calls := calls st
                 ++ [Part (fresh st) ("PART_FROM_" +:+ iname) THREE_D DEFORMABLE_BODY]
                 ++ node_calls (fresh st) inst_rec
                 ++ els
                 ++ [NewInstance (S (fresh st)) iname (fresh st)];
        fresh := S (S (fresh st));
        assembly := <[iname := S (fresh st)]> (assembly st);
        inst_map := inst_map st; sp_pool := sp_pool st; step_objs := step_objs st;
        frame_objs := frame_objs st; nt11_cache := nt11_cache st |}).
Proof.
  exists (element_calls (fresh st) inst_rec). split; [done |].
  apply build_instance_run.
Qed.
End InstanceGeometry.

(** ** The importer: steps and frames of the catalog *)

Section CatalogSteps.
Import Importer ImporterSpec ImporterMore.

Lemma time_period_value (s : step_doc) :
  time_period s = Ok (default float_zero (last_frame_value s)).
Proof.
  unfold time_period, last_frame_value.
  destruct (sd_frames s) as [| |fs]; simpl; [done | done |].
  destruct fs as [|fr0 fs]; [done |].
  cbn [list_truthy last_item]. 
  destruct (last (fr0 :: fs)) as [fr|] eqn:Hl; simpl; [|done].
  by destruct (fd_value fr).
Qed.

(** X14. The time period of an imported step is the value of the last
    frame the catalog lists for it, and zero when the entry lists no frame
    (frames missing, null or empty) or the last frame has no usable value
    (missing or null); choosing it never raises.  The period handed to the
    store is never below zero. *)
Theorem X14_time_period (s : step_doc) :
  time_period s = Ok (default float_zero (last_frame_value s)) /\
  SFltb (py_max (default float_zero (last_frame_value s)) float_zero) float_zero = false.
Proof.
  split; [apply time_period_value |].
  unfold py_max.
  destruct (SFltb (default float_zero (last_frame_value s)) float_zero) eqn:H;
    [done | exact H].
Qed.

Lemma create_frame_run (sname : string) (stp : handle) (fr : frame_doc) (st : state) :
  fd_value fr <> Null ->
  create_frame sname stp fr st =
  (Ok tt,
   {| calls := calls st ++ [frame_call stp (fresh st) fr]; fresh := S (fresh st);
      assembly := assembly st; inst_map := inst_map st; sp_pool := sp_pool st;
      step_objs := step_objs st;
      frame_objs := <[(sname, fd_index fr) := fresh st]> (frame_objs st);
      nt11_cache := nt11_cache st |}).
Proof.
  intros Hv. unfold create_frame, frame_call.
  by destruct (fd_value fr).
Qed.

Lemma create_frame_null (sname : string) (stp : handle) (fr : frame_doc) (st : state) :
  fd_value fr = Null -> create_frame sname stp fr st = (Raise TypeError, st).
Proof. intros Hv. unfold create_frame. by rewrite Hv. Qed.

Lemma create_frames_run (sname : string) (stp : handle) (fs : list frame_doc) :
  Forall (fun fr => fd_value fr <> Null) fs ->
  forall st, exists st',
    for_each fs (create_frame sname stp) st = (Ok tt, st') /\
    calls st' = calls st ++ imap (fun i => frame_call stp (fresh st + i)%nat) fs /\
    fresh st' = (fresh st + length fs)%nat /\
    tables_grow st st' /\ step_objs st' = step_objs st /\
    sp_pool st' = sp_pool st /\ nt11_cache st' = nt11_cache st /\
    assembly st' = assembly st /\
    forall fr, fr ∈ fs -> is_Some (frame_objs st' !! (sname, fd_index fr)).
Proof.
  induction 1 as [|fr fs Hfr Hfs IH]; intros st.
  - exists st. simpl. rewrite app_nil_r, Nat.add_0_r.
    repeat split; try done. intros fr Hin. by apply elem_of_nil in Hin.
  - cbn [for_each]. rewrite bind_run, create_frame_run by done.
    match goal with |- context [for_each fs _ ?s] => destruct (IH s) as (st' & Hrun & Hc & Hf & Hg & Hs & Hp & Hn & Ha & Hin) end.
    exists st'. simpl in *. rewrite Hrun, Hc, Hf, Hs, Hp, Hn, Ha, <- app_assoc.
    split; [done |]. split.
    { simpl. f_equal. f_equal; [by rewrite Nat.add_0_r |].
      apply imap_ext. intros i x _. simpl. f_equal. lia. }
    split; [lia |]. destruct Hg as (Hi & Hst & Hfo). simpl in *.
    split.
    { repeat split; try done. intros k Hk. apply Hfo.
      destruct (decide (k = (sname, fd_index fr))) as [->|Hne].
      - rewrite lookup_insert_eq. by eexists.
      - by rewrite lookup_insert_ne. }
    repeat split; try done.
    intros fr' [->|Hin']%elem_of_cons; [|by apply Hin].
    apply Hfo. rewrite lookup_insert_eq. by eexists.
Qed.

Lemma create_frames_null (sname : string) (stp : handle) (fs : list frame_doc) :
  Exists (fun fr => fd_value fr = Null) fs ->
  forall st, exists st' n fr,
    for_each fs (create_frame sname stp) st = (Raise TypeError, st') /\
    calls st' = calls st ++ imap (fun i => frame_call stp (fresh st + i)%nat) (take n fs) /\
    fs !! n = Some fr /\ fd_value fr = Null /\
    step_objs st' = step_objs st.
Proof.
  induction fs as [|fr fs IH]; intros Hex st; [by apply Exists_nil in Hex |].
  cbn [for_each]. rewrite bind_run.
  assert (Hgo : fd_value fr <> Null ->
    exists st' n fr0,
      (let (r, st'0) := create_frame sname stp fr st in
       match r with
       | Ok _ => for_each fs (create_frame sname stp) st'0
       | Raise e => (Raise e, st'0)
       end) = (Raise TypeError, st') /\
      calls st' = calls st
        ++ imap (fun i => frame_call stp (fresh st + i)%nat) (take n (fr :: fs)) /\
      (fr :: fs) !! n = Some fr0 /\ fd_value fr0 = Null /\
      step_objs st' = step_objs st).
  { intros Hnn. rewrite create_frame_run by done.
    apply Exists_cons in Hex as [Hex|Hex]; [done |].
    match goal with |- context [for_each fs _ ?s] =>
      destruct (IH Hex s) as (st' & n & fr' & Hrun & Hc & Hn & Hnull & Hs) end.
    exists st', (S n), fr'. simpl in *. rewrite Hrun, Hc, <- app_assoc.
    split; [done |]. split; [|done].
    simpl. f_equal. f_equal; [by rewrite Nat.add_0_r |].
    apply imap_ext. intros i x _. simpl. f_equal. lia. }
  destruct (fd_value fr) as [| |v] eqn:Hv; [by apply Hgo | | by apply Hgo].
  rewrite create_frame_null by done. exists st, 0%nat, fr.
  simpl. by rewrite app_nil_r.
Qed.

Lemma create_step_unfold (s : step_doc) (st : state) :
  create_step s st =
  match sd_frames s with
  | Null => (Raise TypeError, step_started s st)
  | _ => for_each (listed_frames s) (create_frame (sd_name s) (fresh st))
           (step_started s st)
  end.
Proof.
  unfold create_step. cbv zeta. cbn [to_str]. rewrite bind_run.
  unfold lift at 1. rewrite time_period_value. cbv iota beta.
  rewrite bind_run.
  change (api_Step (sd_name s) "Imported step" TIME
            (py_max (default float_zero (last_frame_value s)) float_zero) st)
    with (Ok (fresh st), with_call (step_call (fresh st) s)
            {| calls := calls st; fresh := S (fresh st); assembly := assembly st;
               inst_map := inst_map st; sp_pool := sp_pool st;
               step_objs := step_objs st; frame_objs := frame_objs st;
               nt11_cache := nt11_cache st |}).
  cbv iota beta. rewrite bind_run.
  unfold listed_frames. by destruct (sd_frames s).
Qed.

Lemma tables_grow_refl (st : state) : tables_grow st st.
Proof. by repeat split. Qed.

Lemma tables_grow_trans (st1 st2 st3 : state) :
  tables_grow st1 st2 -> tables_grow st2 st3 -> tables_grow st1 st3.
Proof.
  intros (Hi & Hs & Hf) (Hi' & Hs' & Hf'). repeat split.
  - by rewrite Hi', Hi.
  - intros k Hk. by apply Hs', Hs.
  - intros k Hk. by apply Hf', Hf.
Qed.

Lemma tables_grow_step_started (s : step_doc) (st : state) :
  tables_grow st (step_started s st).
Proof.
  repeat split; try done. intros k Hk. simpl.
  destruct (decide (k = sd_name s)) as [->|Hne].
  - rewrite lookup_insert_eq. by eexists.
  - by rewrite lookup_insert_ne.
Qed.

Lemma create_step_run (s : step_doc) (st : state) :
  sound_frames s ->
  exists st',
    create_step s st = (Ok tt, st') /\
    calls st' = calls st ++ step_call (fresh st) s
                  :: imap (fun i => frame_call (fresh st) (S (fresh st) + i)%nat)
                       (listed_frames s) /\
    tables_grow st st' /\
    step_objs st' !! sd_name s = Some (fresh st) /\
    (forall fr, fr ∈ listed_frames s ->
                is_Some (frame_objs st' !! (sd_name s, fd_index fr))) /\
    sp_pool st' = sp_pool st /\ nt11_cache st' = nt11_cache st /\
    assembly st' = assembly st.
Proof.
  intros [Hnn Hall]. rewrite create_step_unfold.
  destruct (create_frames_run (sd_name s) (fresh st) _ Hall (step_started s st))
    as (st' & Hrun & Hc & _ & Hg & Hs & Hp & Hn & Ha & Hin).
  exists st'. split.
  { by destruct (sd_frames s). }
  rewrite Hc, Hs, Hp, Hn, Ha. simpl. rewrite <- app_assoc.
  repeat split; try done.
  - destruct Hg as (Hi & _). by rewrite Hi.
  - intros k Hk. destruct Hg as (_ & Hst & _). apply Hst.
    by apply (tables_grow_step_started s st).
  - intros k Hk. destruct Hg as (_ & _ & Hf). by apply Hf.
  - by rewrite lookup_insert_eq.
Qed.

(** X15. A catalog entry whose frame list is not null and whose listed
    frames have no null value is imported without error: the importer
    creates one step under the name of the entry, described as imported, in
    the time domain and with the chosen period, then one frame per listed
    frame in the order of the catalog, each with its index, its value (zero
    when the entry has none) and its description; afterwards the step and
    each of its listed frames can be looked up. *)
Theorem X15_catalog_step_created (s : step_doc) (st : state) :
  sound_frames s ->
  exists st',
    create_step s st = (Ok tt, st') /\
    calls st' = calls st ++ step_call (fresh st) s
                  :: imap (fun i => frame_call (fresh st) (S (fresh st) + i)%nat)
                       (listed_frames s) /\
    step_objs st' !! sd_name s = Some (fresh st) /\
    forall fr, fr ∈ listed_frames s ->
               is_Some (frame_objs st' !! (sd_name s, fd_index fr)).
Proof.
  intros Hs. destruct (create_step_run s st Hs) as (st' & Hrun & Hc & _ & Hst & Hfr & _).
  by exists st'.
Qed.

Lemma create_step_malformed (s : step_doc) (st : state) :
  sd_frames s = Null \/ Exists (fun fr => fd_value fr = Null) (listed_frames s) ->
  exists st' n,
    create_step s st = (Raise TypeError, st') /\
    calls st' = calls st ++ step_call (fresh st) s
                  :: imap (fun i => frame_call (fresh st) (S (fresh st) + i)%nat)
                       (take n (listed_frames s)) /\
    step_objs st' !! sd_name s = Some (fresh st) /\
    (sd_frames s <> Null ->
     exists fr, listed_frames s !! n = Some fr /\ fd_value fr = Null).
Proof.
  intros Hbad. rewrite create_step_unfold.
  destruct (sd_frames s) as [| |fs] eqn:Hfs.
  - destruct Hbad as [?|Hex]; [done |]. unfold listed_frames in Hex.
    rewrite Hfs in Hex. by apply Exists_nil in Hex.
  - exists (step_started s st), 0%nat. simpl. rewrite lookup_insert_eq.
    by repeat split.
  - destruct Hbad as [?|Hex]; [done |].
    destruct (create_frames_null (sd_name s) (fresh st) _ Hex (step_started s st))
      as (st' & n & fr & Hrun & Hc & Hn & Hnull & Hst).
    exists st', n. rewrite Hc, Hst. simpl. rewrite <- app_assoc, lookup_insert_eq.
    unfold listed_frames in *. rewrite Hfs in *. simpl in *.
    repeat split; try done. intros _. by exists fr.
Qed.

(** X16. A catalog entry whose frame list is null, or which lists a frame
    with a null value, stops the import with a type error, and only after
    the step has been created in the store: the log then holds the step and
    the frames listed before the first frame with a null value. *)
Theorem X16_malformed_catalog_entry (s : step_doc) (st : state) :
  sd_frames s = Null \/ Exists (fun fr => fd_value fr = Null) (listed_frames s) ->
  exists st' n,
    create_step s st = (Raise TypeError, st') /\
    calls st' = calls st ++ step_call (fresh st) s
                  :: imap (fun i => frame_call (fresh st) (S (fresh st) + i)%nat)
                       (take n (listed_frames s)) /\
    step_objs st' !! sd_name s = Some (fresh st) /\
    (sd_frames s <> Null ->
     exists fr, listed_frames s !! n = Some fr /\ fd_value fr = Null).
Proof. apply create_step_malformed. Qed.

Lemma create_steps_run (l : list step_doc) :
  Forall sound_frames l ->
  forall st, exists st',
    for_each l create_step st = (Ok tt, st') /\
    tables_grow st st' /\
    sp_pool st' = sp_pool st /\ nt11_cache st' = nt11_cache st /\
    forall s, s ∈ l ->
      is_Some (step_objs st' !! sd_name s) /\
      forall fr, fr ∈ listed_frames s ->
                 is_Some (frame_objs st' !! (sd_name s, fd_index fr)).
Proof.
  induction 1 as [|s l Hs Hl IH]; intros st.
  - exists st. split; [done |]. split; [apply tables_grow_refl |].
    split; [done |]. split; [done |]. intros s Hin. by apply elem_of_nil in Hin.
  - cbn [for_each]. rewrite bind_run.
    destruct (create_step_run s st Hs)
      as (st1 & Hrun & _ & Hg & Hst & Hfr & Hp & Hn & _).
    rewrite Hrun.
    destruct (IH st1) as (st' & Hrun' & Hg' & Hp' & Hn' & Hin).
    exists st'. rewrite Hrun', Hp', Hn'.
    split; [done |]. split; [by eapply tables_grow_trans |].
    split; [done |]. split; [done |].
    intros s' [->|Hin']%elem_of_cons; [|by apply Hin].
    destruct Hg' as (_ & Hst' & Hfr'). split.
    + apply Hst'. by rewrite Hst.
    + intros fr Hfrin. by apply Hfr', Hfr.
Qed.
End CatalogSteps.

(** ** The importer: one record of the stream *)

Section StreamRecord.
Import Importer ImporterSpec ImporterMore.

Lemma write_record_unfold (sCat : handle) (rec : stream_rec) (st : state) :
  write_record sCat rec st =
  match frame_ready rec st with
  | None => (Raise (KeyError (r_step rec)), st)
  | Some st1 =>
      match field_ready rec st1 with
      | None => (Raise (KeyError (r_step rec)), st1)
      | Some (fo, st2) =>
          match get_or_make_sp sCat (get_or_none (r_section_point rec)) st2 with
          | (Ok sp_obj, st3) =>
              match inst_map st3 !! r_instance rec with
              | None => (Raise (missing_instance rec), st3)
              | Some inst =>
                  (Ok tt,
                   with_call
                     (add_data_of rec fo inst
                        (if sc_eqb (pos_from_name (r_position rec)) INTEGRATION_POINT
                         then sp_obj else None)) st3)
              end
          | (Raise e, st3) => (Raise e, st3)
          end
      end
  end.
Proof.
  unfold write_record, frame_ready, field_ready, frame_key, api_Frame, api_FieldOutput,
    api_addData, set_frame_obj, set_nt11_cache, call, new_handle, modify, get_state,
    lift, raise.
  unfold mbind, prog_bind, mret, prog_ret. simpl.
  destruct (frame_objs st !! _) as [fobj|] eqn:Hf; simpl;
    [rewrite Hf
    |destruct (step_objs st !! _) as [stp|] eqn:Hs; simpl;
       [rewrite lookup_insert_eq | done]];
    simpl;
    (destruct (nt11_cache st !! _) as [fo|] eqn:Hn; simpl);
    (destruct (get_or_make_sp _ _ _) as [[sp_obj|e] st3]; [|done]);
    (destruct (inst_map st3 !! _); [|done]);
    destruct sp_obj; destruct (sc_eqb _ _); done.
Qed.
End StreamRecord.

(** ** The importer: what every run keeps true *)

Section Preservation.
Context {St : Type} (I : St -> Prop).

Lemma preserves_ret {A} (a : A) : preserves I (mret a : prog St A).
Proof. by intros st. Qed.

Lemma preserves_raise {A} (e : exn) : preserves I (raise e : prog St A).
Proof. by intros st. Qed.

Lemma preserves_lift {A} (r : result A) : preserves I (lift r : prog St A).
Proof. by intros st. Qed.

Lemma preserves_get_state : preserves I (get_state : prog St St).
Proof. by intros st. Qed.

Lemma preserves_bind {A B} (m : prog St A) (k : A -> prog St B) :
  preserves I m -> (forall a, preserves I (k a)) -> preserves I (m ≫= k).
Proof.
  intros Hm Hk st HI. rewrite bind_run. specialize (Hm st HI).
  destruct (m st) as [[a|e] st']; simpl in *; [by apply Hk | done].
Qed.

Lemma preserves_for_each {A} (xs : list A) (body : A -> prog St unit) :
  (forall x, x ∈ xs -> preserves I (body x)) -> preserves I (for_each xs body).
Proof.
  induction xs as [|x xs IH]; intros Hb; [apply preserves_ret |].
  cbn [for_each]. apply preserves_bind; [apply Hb; left |].
  intros _. apply IH. intros y Hy. apply Hb. by right.
Qed.

Lemma preserves_load_json {A} (files : string -> option A) (path : string) :
  preserves I (Importer.load_json files path : prog St A).
Proof.
  unfold Importer.load_json.
  destruct (files path); [apply preserves_ret | apply preserves_raise].
Qed.
End Preservation.

Section Consistency.
Import Importer ImporterSpec ImporterMore.

Lemma fo_frames_app (tr tr' : list event) :
  fo_frames (tr ++ tr') = fo_frames tr ++ fo_frames tr'.
Proof. apply omap_app. Qed.

Lemma sp_keys_app (tr tr' : list event) :
  sp_keys (tr ++ tr') = sp_keys tr ++ sp_keys tr'.
Proof. apply omap_app. Qed.

Lemma consistent_initial : consistent initial.
Proof.
  unfold consistent. simpl.
  split; [intros k h Hk; by rewrite lookup_empty in Hk |].
  split; [intros k k' h Hk; by rewrite lookup_empty in Hk |].
  split; [by intros f Hf%elem_of_nil |].
  split; [apply NoDup_nil_2 |].
  split; [by intros k Hk%elem_of_nil | apply NoDup_nil_2].
Qed.

(** A step that adds plain calls and hands out handles, with the tables of
    frames, field outputs and section points as they were. *)
Lemma consistent_plain (st st' : state) (tr : list event) :
  calls st' = calls st ++ tr -> fo_frames tr = [] -> sp_keys tr = [] ->
  (fresh st <= fresh st')%nat ->
  frame_objs st' = frame_objs st -> nt11_cache st' = nt11_cache st ->
  sp_pool st' = sp_pool st ->
  consistent st -> consistent st'.
Proof.
  intros Hc Hfo Hsp Hfr Hf Hn Hp (Ha & Hb & Hcc & Hd & He & Hg).
  unfold consistent.
  rewrite Hc, fo_frames_app, sp_keys_app, Hfo, Hsp, !app_nil_r, Hf, Hn, Hp.
  split; [intros k h Hk; specialize (Ha k h Hk); lia |].
  split; [done |]. split; [|done].
  intros f Hin. destruct (Hcc f Hin) as [Hlt Hcache]. split; [lia | done].
Qed.

Lemma preserves_call (e : event) : plain_call e -> preserves consistent (call e).
Proof.
  intros [Hfo Hsp] st. simpl. by apply (consistent_plain st _ [e]).
Qed.

Lemma preserves_new_handle : preserves consistent new_handle.
Proof.
  intros st. simpl. apply (consistent_plain st _ []); simpl; try done.
  - by rewrite app_nil_r.
  - lia.
Qed.

Lemma preserves_set_assembly f : preserves consistent (set_assembly f).
Proof.
  intros st. simpl. apply (consistent_plain st _ []); simpl; try done.
  by rewrite app_nil_r.
Qed.

Lemma preserves_set_inst_map m : preserves consistent (set_inst_map m).
Proof.
  intros st. simpl. apply (consistent_plain st _ []); simpl; try done.
  by rewrite app_nil_r.
Qed.

Lemma preserves_set_step_obj k h : preserves consistent (set_step_obj k h).
Proof.
  intros st. simpl. apply (consistent_plain st _ []); simpl; try done.
  by rewrite app_nil_r.
Qed.

(** A new frame under a new handle, whether its key was known or not. *)
Lemma consistent_add_frame (st : state) (k0 : string * Z) (e : event) :
  plain_call e -> consistent st ->
  consistent
    {| calls := calls st ++ [e]; fresh := S (fresh st); assembly := assembly st;
       inst_map := inst_map st; sp_pool := sp_pool st; step_objs := step_objs st;
       frame_objs := <[k0 := fresh st]> (frame_objs st);
       nt11_cache := nt11_cache st |}.
Proof.
  intros [Hfo Hsp] (Ha & Hb & Hc & Hd & He & Hg). unfold consistent. simpl.
  rewrite fo_frames_app, sp_keys_app, Hfo, Hsp, !app_nil_r.
  assert (Hlook : forall k h,
            <[k0 := fresh st]> (frame_objs st) !! k = Some h ->
            (k = k0 /\ h = fresh st) \/ (k <> k0 /\ frame_objs st !! k = Some h)).
  { intros k h. destruct (decide (k = k0)) as [->|Hne].
    - rewrite lookup_insert_eq. intros [= <-]. by left.
    - rewrite lookup_insert_ne by done. by right. }
  split; [|split; [|split; [|done]]].
  - intros k h [[_ ->]|[_ Hk] ]%Hlook; [lia |]. specialize (Ha k h Hk). lia.
  - intros k k' h [[-> ->]|[Hne Hk] ]%Hlook [[-> Hh]|[Hne' Hk'] ]%Hlook; try done.
    + specialize (Ha _ _ Hk'). lia.
    + subst h. specialize (Ha _ _ Hk). lia.
    + by eapply Hb.
  - intros f Hin. destruct (Hc f Hin) as [Hlt Hcache]. split; [lia |].
    intros k [[-> ->]|[Hne Hk] ]%Hlook; [lia | by apply Hcache].
Qed.

(** A first field output on a frame. *)
Lemma consistent_add_output (st : state) (k0 : string * Z) (fobj : handle) n d ty :
  frame_objs st !! k0 = Some fobj -> nt11_cache st !! k0 = None ->
  consistent st ->
  consistent
    {| calls := calls st ++ [NewFieldOutput (fresh st) fobj n d ty];
       fresh := S (fresh st); assembly := assembly st;
       inst_map := inst_map st; sp_pool := sp_pool st; step_objs := step_objs st;
       frame_objs := frame_objs st;
       nt11_cache := <[k0 := fresh st]> (nt11_cache st) |}.
Proof.
  intros Hf Hn (Ha & Hb & Hc & Hd & He & Hg). unfold consistent. simpl.
  rewrite fo_frames_app, sp_keys_app, !app_nil_r. simpl.
  split; [intros k h Hk; specialize (Ha k h Hk); lia |].
  split; [done |].
  split; [|split; [|done]].
  - intros f Hin. apply elem_of_app in Hin as [Hin | Hin].
    + destruct (Hc f Hin) as [Hlt Hk]. split; [lia |].
      intros k Hkf. destruct (decide (k = k0)) as [->|Hne].
      * rewrite lookup_insert_eq. by eexists.
      * rewrite lookup_insert_ne by done. by apply Hk.
    + apply list_elem_of_singleton in Hin as ->.
      split; [specialize (Ha _ _ Hf); lia |].
      intros k Hkf. rewrite (Hb k k0 fobj Hkf Hf), lookup_insert_eq. by eexists.
  - apply NoDup_app. split; [done |]. split; [|apply NoDup_singleton].
    intros f Hin Hf'. apply list_elem_of_singleton in Hf' as ->.
    destruct (Hc fobj Hin) as [_ Hk]. specialize (Hk k0 Hf).
    rewrite Hn in Hk. by destruct Hk.
Qed.

(** A section point that is not pooled yet. *)
Lemma consistent_add_point (st : state) (sCat : handle) (key : Z * string) :
  sp_pool st !! key = None -> consistent st ->
  consistent
    {| calls := calls st ++ [NewSectionPoint (fresh st) sCat key.1 key.2];
       fresh := S (fresh st); assembly := assembly st; inst_map := inst_map st;
       sp_pool := <[key := fresh st]> (sp_pool st);
       step_objs := step_objs st; frame_objs := frame_objs st;
       nt11_cache := nt11_cache st |}.
Proof.
  intros Hp (Ha & Hb & Hc & Hd & He & Hg). unfold consistent. simpl.
  rewrite fo_frames_app, sp_keys_app, !app_nil_r. simpl.
  rewrite <- (surjective_pairing key).
  split; [intros k h Hk; specialize (Ha k h Hk); lia |].
  split; [done |].
  split; [|split; [done |]; split].
  - intros f Hin. destruct (Hc f Hin) as [Hlt Hk]. split; [lia | done].
  - intros k Hk. destruct (decide (k = key)) as [->|Hne].
    + rewrite lookup_insert_eq. by eexists.
    + rewrite lookup_insert_ne by done.
      apply elem_of_app in Hk as [Hin | Hin]; [by apply He |].
      by apply list_elem_of_singleton in Hin.
  - apply NoDup_app. split; [done |]. split; [|apply NoDup_singleton].
    intros k Hin Hk. apply list_elem_of_singleton in Hk as ->.
    specialize (He key Hin). rewrite Hp in He. by destruct He.
Qed.

Lemma preserves_create_frame (sname : string) (stp : handle) (fr : frame_doc) :
  preserves consistent (create_frame sname stp fr).
Proof.
  intros st HI.
  assert (Hgo : fd_value fr <> Null -> consistent (create_frame sname stp fr st).2).
  { intros Hv. rewrite create_frame_run by done. cbn [snd].
    by apply consistent_add_frame. }
  destruct (fd_value fr) eqn:Hv; [by apply Hgo | | by apply Hgo].
  by rewrite create_frame_null.
Qed.

Lemma preserves_create_step (s : step_doc) : preserves consistent (create_step s).
Proof.
  intros st HI. rewrite create_step_unfold.
  assert (HI' : consistent (step_started s st)).
  { apply (consistent_plain st _ [step_call (fresh st) s]); simpl; try done. lia. }
  destruct (sd_frames s); try done;
    apply preserves_for_each; try done; intros; apply preserves_create_frame.
Qed.

Lemma preserves_get_or_make_sp (sCat : handle) (sp : option sp_obj) :
  preserves consistent (get_or_make_sp sCat sp).
Proof.
  intros st HI. pose proof (get_or_make_sp_run sCat sp st) as H.
  destruct sp as [d|]; [|by rewrite H].
  destruct (sp_pool st !! sp_key d) eqn:Hp; rewrite H; [done |].
  cbn [snd]. exact (consistent_add_point st sCat (sp_key d) Hp HI).
Qed.

Lemma frame_ready_consistent (rec : stream_rec) (st st1 : state) :
  frame_ready rec st = Some st1 -> consistent st -> consistent st1.
Proof.
  unfold frame_ready. intros H HI.
  destruct (frame_objs st !! frame_key rec); [by injection H as <- |].
  destruct (step_objs st !! r_step rec); [|done]. injection H as <-.
  by apply consistent_add_frame.
Qed.

Lemma field_ready_consistent (rec : stream_rec) (st st2 : state) (fo : handle) :
  field_ready rec st = Some (fo, st2) -> consistent st -> consistent st2.
Proof.
  unfold field_ready. intros H HI.
  destruct (frame_objs st !! frame_key rec) eqn:Hf; [|done].
  destruct (nt11_cache st !! frame_key rec) eqn:Hn; injection H as <- <-; [done |].
  by apply consistent_add_output.
Qed.

Lemma preserves_write_record (sCat : handle) (rec : stream_rec) :
  preserves consistent (write_record sCat rec).
Proof.
  intros st HI. rewrite write_record_unfold.
  destruct (frame_ready rec st) as [st1|] eqn:H1; [|done].
  apply frame_ready_consistent in H1; [|done].
  destruct (field_ready rec st1) as [[fo st2]|] eqn:H2; [|done].
  apply field_ready_consistent in H2; [|done].
  pose proof (preserves_get_or_make_sp sCat (get_or_none (r_section_point rec)) st2 H2)
    as H3.
  destruct (get_or_make_sp _ _ st2) as [[sp_obj|e] st3]; [|done]. simpl in H3.
  destruct (inst_map st3 !! r_instance rec); [|done]. simpl.
  eapply (consistent_plain st3 _ [_]); try done.
Qed.

Ltac preserves_auto :=
  repeat first
    [ apply preserves_create_step
    | apply preserves_write_record
    | apply preserves_ret
    | apply preserves_raise
    | apply preserves_lift
    | apply preserves_get_state
    | apply preserves_load_json
    | apply preserves_new_handle
    | apply preserves_set_assembly
    | apply preserves_set_inst_map
    | apply preserves_set_step_obj
    | apply preserves_call; by split
    | apply preserves_for_each; intros ? _
    | apply preserves_bind; [| intros ?]
    | match goal with
      | |- preserves _ (match ?x with _ => _ end) => destruct x
      | |- preserves _ (let '(_, _) := ?x in _) => destruct x
      end ].

Lemma preserves_build_instance (iname : string) (inst_rec : instance_doc) :
  preserves consistent (build_instance iname inst_rec).
Proof.
  unfold build_instance, api_Part, api_addNodes, api_addElements, api_Instance.
  preserves_auto.
Qed.

Lemma preserves_main (E : env) (argv : list string) : preserves consistent (main E argv).
Proof.
  unfold main, geometry_stage, results_stage, results_writes, api_Odb, api_save,
    api_close, api_openOdb, api_SectionCategory.
  preserves_auto; apply preserves_build_instance.
Qed.

(** X17. In every run of the importer no frame is given two field outputs:
    the frames on which a temperature field is created are pairwise
    distinct, whatever the catalog and the stream hold and however the run
    ends. *)
Theorem X17_one_field_output_per_frame (E : env) (argv : list string) :
  NoDup (fo_frames (calls (main E argv initial).2)).
Proof.
  pose proof (preserves_main E argv initial consistent_initial) as H.
  apply H.
Qed.

(** X18. In every run of the importer a section point is created at most
    once for each pair of number and description: the section points
    created are pairwise distinct. *)
Theorem X18_section_points_created_once (E : env) (argv : list string) :
  NoDup (sp_keys (calls (main E argv initial).2)).
Proof.
  pose proof (preserves_main E argv initial consistent_initial) as H.
  apply H.
Qed.
End Consistency.

(** ** From the exporter to the importer *)

Section ExportImport.
Import Importer ImporterSpec ImporterMore.

Lemma write_record_known (sCat : handle) (rec : stream_rec) (st : state) :
  is_Some (frame_objs st !! frame_key rec) ->
  exists st' tr,
    write_record sCat rec st =
    (match inst_map st !! r_instance rec with
     | Some _ => Ok tt
     | None => Raise (missing_instance rec)
     end, st') /\
    calls st' = calls st ++ tr /\ Forall (fun e => is_new_frame e = false) tr /\
    frame_objs st' = frame_objs st /\ inst_map st' = inst_map st.
Proof.
  intros [fobj Hf]. rewrite write_record_unfold.
  unfold frame_ready. rewrite Hf. cbv beta iota.
  unfold field_ready. rewrite Hf.
  pose proof (get_or_make_sp_run sCat (get_or_none (r_section_point rec))) as Hsp.
  destruct (nt11_cache st !! frame_key rec) as [fo|]; cbv beta iota;
    match goal with |- context [get_or_make_sp _ _ ?s] => specialize (Hsp s) end;
    (destruct (get_or_none (r_section_point rec)) as [d|]; cbv beta iota in Hsp;
     [match type of Hsp with context [sp_pool ?s !! ?k] =>
        destruct (sp_pool s !! k) end |]);
    rewrite Hsp; cbn [inst_map];
    (destruct (inst_map st !! r_instance rec);
     eexists _, _; (split; [reflexivity |]); cbn [calls with_call frame_objs inst_map];
     rewrite <- ?app_assoc;
     (split; [try reflexivity; symmetry; apply app_nil_r |]);
     (split; [by repeat constructor | done])).
Qed.

Lemma stream_known_frames (sCat : handle) (recs : list stream_rec) :
  forall st,
    (forall rec, rec ∈ recs -> is_Some (frame_objs st !! frame_key rec)) ->
    exists st' tr,
      (for_each recs (write_record sCat) st).2 = st' /\
      calls st' = calls st ++ tr /\ Forall (fun e => is_new_frame e = false) tr /\
      match (for_each recs (write_record sCat) st).1 with
      | Ok _ => forall rec, rec ∈ recs -> is_Some (inst_map st !! r_instance rec)
      | Raise e => exists rec, rec ∈ recs /\ inst_map st !! r_instance rec = None /\
                               e = missing_instance rec
      end.
Proof.
  induction recs as [|rec recs IH]; intros st Hall.
  - exists st, []. simpl. rewrite app_nil_r. repeat split; try done.
    by intros rec Hin%elem_of_nil.
  - cbn [for_each]. rewrite bind_run.
    destruct (write_record_known sCat rec st) as (st1 & tr1 & Hrun & Hc & Hnf & Hfo & Hi);
      [apply Hall; left |].
    rewrite Hrun. destruct (inst_map st !! r_instance rec) as [inst|] eqn:Hinst.
    + destruct (IH st1) as (st' & tr & Hst & Hc' & Hnf' & Hres).
      { intros rec' Hin. rewrite Hfo. apply Hall. by right. }
      exists st', (tr1 ++ tr). split; [done |].
      split; [by rewrite Hc', Hc, app_assoc |].
      split; [by apply Forall_app |].
      destruct (for_each recs (write_record sCat) st1).1 as [[]|e].
      * intros rec' [->|Hin]%elem_of_cons; [by rewrite Hinst |].
        rewrite <- Hi. by apply Hres.
      * destruct Hres as (rec' & Hin & Hnone & ->). exists rec'.
        split; [by right |]. by rewrite <- Hi.
    + exists st1, tr1. simpl. repeat split; try done.
      exists rec. split; [left | done].
Qed.

Lemma exported_catalog_sound (odb : Exporter.Odb) (step_filter : option (list string))
    (l : list step_doc) :
  steps (Exporter.steps_of odb step_filter) = Val l -> Forall sound_frames l.
Proof.
  intros [= <-]. apply Forall_fmap, Forall_true. intros [sname step].
  split; [done |]. unfold listed_frames. simpl.
  apply Forall_fmap, Forall_true. by intros [idx fr].
Qed.

(** X19. The importer finds every step and frame of a stream in the
    catalog of the same export: once the catalog written by an export is
    read, which never fails, the records written by that export are
    imported without creating any further frame, and the only error left is
    a record whose instance the store does not have; without such a record
    the loop over the stream returns normally. *)
Theorem X19_exported_stream_meets_its_catalog
    (odb : Exporter.Odb) (step_filter : option (list string)) (out_dir : string)
    (sCat : handle) (st : state) :
  exists l st1 st2 tr,
    steps (Exporter.steps_of odb step_filter) = Val l /\
    for_each l create_step st = (Ok tt, st1) /\
    (for_each (Exporter.lines_written
                 (Exporter.export_nt11 odb step_filter out_dir []).2)
       (write_record sCat) st1).2 = st2 /\
    calls st2 = calls st1 ++ tr /\ Forall (fun e => is_new_frame e = false) tr /\
    match (for_each (Exporter.lines_written
                       (Exporter.export_nt11 odb step_filter out_dir []).2)
             (write_record sCat) st1).1 with
    | Ok _ => True
    | Raise e =>
        exists rec,
          rec ∈ Exporter.lines_written
                  (Exporter.export_nt11 odb step_filter out_dir []).2 /\
          inst_map st !! r_instance rec = None /\ e = missing_instance rec
    end.
Proof.
  eexists. 
  destruct (create_steps_run _ (exported_catalog_sound odb step_filter _ eq_refl) st)
    as (st1 & Hrun & (Hi & _ & _) & _ & _ & Hcov).
  destruct (stream_known_frames sCat
              (Exporter.lines_written
                 (Exporter.export_nt11 odb step_filter out_dir []).2) st1)
    as (st2 & tr & Hst & Hc & Hnf & Hres).
  { intros rec Hrec.
    destruct (written_record_catalogued odb step_filter out_dir rec Hrec)
      as (l & s & fs & fd & [= <-] & Hs & Hname & Hfs & Hfd & Hidx & _).
    destruct (Hcov s Hs) as [_ Hfr]. unfold frame_key. simpl.
    rewrite <- Hname, <- Hidx. apply Hfr. unfold listed_frames. by rewrite Hfs. }
  exists st1, st2, tr. split; [reflexivity |]. split; [exact Hrun |].
  split; [done |]. split; [done |]. split; [done |].
  destruct (for_each _ _ st1).1 as [[]|e]; [done |].
  destruct Hres as (rec & Hin & Hnone & ->). exists rec. by rewrite <- Hi.
Qed.
End ExportImport.

(** ** From the exporter to the importer: one record *)

Section RecordRoundTrip.
Import Exporter ExporterSpec RoundTrip.

Lemma position_name_is_name (pos : SymbolicConstant) : position_name pos = sc_name pos.
Proof.
  unfold position_name, sc_eqb, sc_str.
  repeat case_bool_decide; by subst.
Qed.

Lemma pos_from_name_read (pos : SymbolicConstant) :
  Importer.pos_from_name (sc_name pos) = read_position pos.
Proof.
  destruct pos as [n]. unfold Importer.pos_from_name, read_position. simpl.
  destruct (String.eqb_spec n "NODAL") as [->|H1]; [done |].
  destruct (String.eqb_spec n "ELEMENT_NODAL") as [->|H2]; [done |].
  destruct (String.eqb_spec n "INTEGRATION_POINT") as [->|H3]; [done |].
  destruct (String.eqb_spec n "WHOLE_ELEMENT") as [->|H4]; [done |].
  rewrite bool_decide_eq_false_2; [done |].
  intros Hin. unfold NODAL, ELEMENT_NODAL, INTEGRATION_POINT, WHOLE_ELEMENT in Hin.
  repeat (apply elem_of_cons in Hin as [Hin|Hin]; [congruence |]).
  by apply elem_of_nil in Hin.
Qed.

Lemma ensure_tuple_seq_rows (rows : list (list float)) :
  Importer.ensure_tuple_seq (Seq <$> rows) = rows.
Proof.
  unfold Importer.ensure_tuple_seq. rewrite <- list_fmap_compose.
  induction rows as [|r rows IH]; simpl; [done | by f_equal].
Qed.

Lemma sp_key_read (sp : SectionPoint) (d : sp_obj) :
  sp_to_dict (Some sp) = Some d -> ImporterSpec.sp_key d = read_key sp.
Proof.
  intros [= <-]. unfold ImporterSpec.sp_key, read_key. simpl.
  by destruct (sp_number sp), (sp_description sp).
Qed.

(** X20. What the importer reads from a record the exporter wrote.  The
    record stands for the values that the temperature field of one frame
    of the store holds under one key, in the order of the field, the first
    of them [v0].  Its step, frame index and frame value are those of that
    frame and its instance is the instance of [v0].  Read back, its
    position is the position of [v0] when that is one of NODAL,
    ELEMENT_NODAL, INTEGRATION_POINT and WHOLE_ELEMENT and NODAL otherwise,
    its labels are the labels of those values and its data are their
    values as rows of one float.  Its section
    point is resolved by [get_or_make_sp] to nothing when [v0] has none,
    and otherwise under the number and description of the section point of
    [v0], with number 1 for no number and the text None for no description:
    the handle pooled under that key, or a section point created with that
    number and description and pooled under it. *)
Theorem X20_written_record_read_back
    (odb : Odb) (step_filter : option (list string)) (out_dir : string)
    (rec : stream_rec) :
  rec ∈ lines_written (export_nt11 odb step_filter out_dir []).2 ->
  exists sname step fr fo v0 rest es,
    (sname, step) ∈ odb_steps odb /\
    (r_frame_index rec, fr) ∈ enumerate (step_frames step) /\
    r_frame_value rec = fr_frameValue fr /\
    dict_get "NT11"%string (fr_fieldOutputs fr) = Some fo /\
    under_key (key_of v0) (fo_values fo) = v0 :: rest /\
    mapM entry_of (v0 :: rest) = Ok es /\
    r_step rec = sname /\
    r_instance rec = v_instance_name v0 /\
    Importer.pos_from_name (r_position rec) = read_position (v_position v0) /\
    Importer.ensure_tuple (r_labels rec) = es.*1 /\
    Importer.ensure_tuple_seq (r_values rec) = (fun x => [x]) <$> es.*2 /\
    forall sCat st,
      Importer.get_or_make_sp sCat (get_or_none (r_section_point rec)) st =
      match section_point_of v0 with
      | None => (Ok None, st)
      | Some sp =>
          let key := (default 1 (sp_number sp),
                      default "None"%string (sp_description sp)) in
          match Importer.sp_pool st !! key with
          | Some h => (Ok (Some h), st)
          | None =>
              (Ok (Some (Importer.fresh st)),
               {| Importer.calls :=
                    Importer.calls st
                    ++ [Importer.NewSectionPoint (Importer.fresh st) sCat key.1 key.2];
                  Importer.fresh := S (Importer.fresh st);
                  Importer.assembly := Importer.assembly st;
                  Importer.inst_map := Importer.inst_map st;
                  Importer.sp_pool := <[key := Importer.fresh st]> (Importer.sp_pool st);
                  Importer.step_objs := Importer.step_objs st;
                  Importer.frame_objs := Importer.frame_objs st;
                  Importer.nt11_cache := Importer.nt11_cache st |})
          end
      end.
Proof.
  intros Hrec. apply lines_written_elem in Hrec.
  destruct (export_nt11_appends odb step_filter out_dir []) as (tr & Htr & HP).
  simpl in Htr. rewrite Htr in Hrec.
  rewrite Forall_forall in HP. apply HP in Hrec as (fo & k & b & Hrb).
  destruct Hrb as (sname & step & fidx & fr & bs & Hs & _ & Hfr & Hfo & Hbs & Hkb & ->).
  destruct (bucket_values_spec _ _ _ _ Hbs Hkb) as (v0 & rest & es & Hu & Hes & ->).
  assert (Hk0 : key_of v0 = k).
  { assert (Hin : v0 ∈ under_key k (fo_values fo)) by (rewrite Hu; left).
    unfold under_key in Hin. by apply list_elem_of_filter in Hin as [? _]. }
  exists sname, step, fr, fo, v0, rest, es.
  split; [done |]. split; [done |]. split; [done |].
  split; [done |]. split; [by rewrite Hk0 |]. split; [done |].
  simpl. rewrite position_name_is_name, pos_from_name_read, ensure_tuple_seq_rows.
  do 5 (split; [done |]).
  intros sCat st. unfold value_sp, section_point_of.
  destruct (getattr (v_sectionPoint v0) None) as [sp|]; [|done].
  pose proof (get_or_make_sp_run sCat (sp_to_dict (Some sp)) st) as Hrun.
  assert (Hkey : forall d, sp_to_dict (Some sp) = Some d ->
                           ImporterSpec.sp_key d
                           = (default 1 (sp_number sp),
                              default "None"%string (sp_description sp))).
  { intros d Hd. by rewrite (sp_key_read sp d Hd). }
  destruct (sp_to_dict (Some sp)) as [d|] eqn:Hd; [|done].
  cbv beta iota zeta in Hrun |- *. rewrite (Hkey d eq_refl) in Hrun.
  cbn [get_or_none fst snd] in Hrun |- *.
  by destruct (Importer.sp_pool st !! _).
Qed.
End RecordRoundTrip.

(** ** The importer: when a run succeeds *)

Section ImportSucceeds.
Import Importer ImporterSpec ImporterMore.

Lemma bind_ok {St A B} (m : prog St A) (k : A -> prog St B) (st st1 : St) (a : A) :
  m st = (Ok a, st1) -> (m ≫= k) st = k a st1.
Proof. intros H. by rewrite bind_run, H. Qed.

Lemma bind_is_ok {St A B} (m : prog St A) (k : A -> prog St B) (st : St) :
  is_ok ((m ≫= k) st).1 =
  match m st with
  | (Ok a, st1) => is_ok (k a st1).1
  | (Raise _, _) => false
  end.
Proof. rewrite bind_run. by destruct (m st) as [[a|e] st1]. Qed.

Lemma insert_is_Some {K V} `{Countable K} (m : gmap K V) (k0 k : K) (v : V) :
  is_Some (<[k0 := v]> m !! k) <-> k = k0 \/ is_Some (m !! k).
Proof.
  destruct (decide (k = k0)) as [->|Hne].
  - rewrite lookup_insert_eq. split; [by left | by eexists].
  - rewrite lookup_insert_ne by done. split; [by right | by intros [?|?]].
Qed.

(** *** The geometry stage *)

Lemma geometry_loop (insts : list (string * instance_doc)) :
  forall st, exists st',
    for_each insts (fun '(iname_u, inst_rec) => build_instance iname_u inst_rec) st
    = (Ok tt, st') /\
    (forall n, is_Some (assembly st' !! n) <-> is_Some (assembly st !! n) \/ n ∈ insts.*1) /\
    step_objs st' = step_objs st /\ frame_objs st' = frame_objs st.
Proof.
  induction insts as [|[n r] insts IH]; intros st.
  - exists st. split; [done |]. split; [|done]. intros n. split; [by left |].
    by intros [?|?%elem_of_nil].
  - cbn [for_each]. erewrite bind_ok by apply build_instance_run.
    match goal with |- context [for_each insts _ ?s] =>
      destruct (IH s) as (st' & Hrun & Hdom & Hs & Hf) end.
    exists st'. split; [done |]. split; [|done].
    intros n'. rewrite Hdom, fmap_cons, elem_of_cons. simpl.
    rewrite insert_is_Some. tauto.
Qed.

Lemma geometry_stage_result (E : env) (mesh_path out_odb : string) :
  match mesh_at E mesh_path with
  | None => is_ok (geometry_stage E mesh_path out_odb initial).1 = false
  | Some mesh =>
      exists st',
        geometry_stage E mesh_path out_odb initial = (Ok tt, st') /\
        (forall n, is_Some (assembly st' !! n) <-> n ∈ (instances mesh).*1) /\
        step_objs st' = ∅ /\ frame_objs st' = ∅
  end.
Proof.
  unfold geometry_stage, api_Odb, api_save, api_close, load_json.
  destruct (mesh_at E mesh_path) as [mesh|]; [|done].
  erewrite bind_ok by reflexivity. erewrite bind_ok by reflexivity.
  match goal with |- context [(for_each (instances mesh) _ ≫= _) ?s] =>
    destruct (geometry_loop (instances mesh) s) as (st1 & Hrun & Hdom & Hs & Hf) end.
  erewrite bind_ok by exact Hrun. erewrite bind_ok by reflexivity.
  eexists. split; [reflexivity |]. simpl. split; [|done].
  intros n. rewrite Hdom. simpl. rewrite lookup_empty. split; [|by right].
  intros [[? [=]]|?]; done.
Qed.

(** *** The catalog *)

Lemma create_frames_keys (sname : string) (stp : handle) (fs : list frame_doc) :
  forall st,
    step_objs (for_each fs (create_frame sname stp) st).2 = step_objs st /\
    inst_map (for_each fs (create_frame sname stp) st).2 = inst_map st /\
    forall k, is_Some (frame_objs (for_each fs (create_frame sname stp) st).2 !! k) ->
              is_Some (frame_objs st !! k) \/ k.1 = sname.
Proof.
  induction fs as [|fr fs IH]; intros st; [by repeat split; try left |].
  cbn [for_each]. rewrite bind_run.
  assert (Hgo : fd_value fr <> Null ->
    step_objs (let (r, st'0) := create_frame sname stp fr st in
               match r with
               | Ok _ => for_each fs (create_frame sname stp) st'0
               | Raise e => (Raise e, st'0)
               end).2 = step_objs st /\
    inst_map (let (r, st'0) := create_frame sname stp fr st in
              match r with
              | Ok _ => for_each fs (create_frame sname stp) st'0
              | Raise e => (Raise e, st'0)
              end).2 = inst_map st /\
    forall k,
      is_Some (frame_objs (let (r, st'0) := create_frame sname stp fr st in
                           match r with
                           | Ok _ => for_each fs (create_frame sname stp) st'0
                           | Raise e => (Raise e, st'0)
                           end).2 !! k) ->
      is_Some (frame_objs st !! k) \/ k.1 = sname).
  { intros Hnn. rewrite create_frame_run by done.
    match goal with |- context [for_each fs _ ?s] =>
      destruct (IH s) as (Hs & Hi & Hk) end.
    split; [done |]. split; [done |].
    intros k [Hin|Hin]%Hk; [|by right]. simpl in Hin.
    apply insert_is_Some in Hin as [->|Hin]; [by right | by left]. }
  destruct (fd_value fr) eqn:Hv; [by apply Hgo | | by apply Hgo].
  rewrite create_frame_null by done. simpl. repeat split; try done. by left.
Qed.

Lemma create_step_keys (s : step_doc) (st : state) :
  (forall n, is_Some (step_objs (create_step s st).2 !! n) <->
             n = sd_name s \/ is_Some (step_objs st !! n)) /\
  inst_map (create_step s st).2 = inst_map st /\
  (frames_of_known_steps st -> frames_of_known_steps (create_step s st).2).
Proof.
  rewrite create_step_unfold.
  destruct (create_frames_keys (sd_name s) (fresh st) (listed_frames s) (step_started s st))
    as (Hs & Hi & Hk).
  assert (Hgo :
    (forall n,
        is_Some (step_objs (for_each (listed_frames s) (create_frame (sd_name s) (fresh st))
                              (step_started s st)).2 !! n) <->
        n = sd_name s \/ is_Some (step_objs st !! n)) /\
    inst_map (for_each (listed_frames s) (create_frame (sd_name s) (fresh st))
                (step_started s st)).2 = inst_map st /\
    (frames_of_known_steps st ->
     frames_of_known_steps (for_each (listed_frames s) (create_frame (sd_name s) (fresh st))
                              (step_started s st)).2)).
  { rewrite Hs, Hi. simpl. split; [intros n; apply insert_is_Some |]. split; [done |].
    intros Hfk n i Hin. rewrite Hs. simpl. apply insert_is_Some.
    apply Hk in Hin as [Hin|Hin]; [right; by eapply Hfk | by left]. }
  destruct (sd_frames s); [exact Hgo | | exact Hgo].
  simpl. split; [intros n; apply insert_is_Some |]. split; [done |].
  intros Hfk n i Hin. simpl in *. apply insert_is_Some. right. by eapply Hfk.
Qed.

Lemma create_steps_keys (l : list step_doc) :
  forall st,
    (forall n, is_Some (step_objs (for_each l create_step st).2 !! n) ->
               is_Some (step_objs st !! n) \/ n ∈ sd_name <$> l) /\
    inst_map (for_each l create_step st).2 = inst_map st /\
    (frames_of_known_steps st -> frames_of_known_steps (for_each l create_step st).2).
Proof.
  induction l as [|s l IH]; intros st; [by repeat split; try left |].
  cbn [for_each]. rewrite bind_run.
  destruct (create_step_keys s st) as (Hs & Hi & Hfk).
  destruct (create_step s st) as [[[]|e] st1]; simpl in Hs, Hi, Hfk.
  - destruct (IH st1) as (Hs' & Hi' & Hfk').
    split; [|split; [by rewrite Hi', Hi | by intros ?%Hfk%Hfk']].
    intros n [Hn|Hn]%Hs'.
    + apply Hs in Hn as [->|Hn]; [right; left | by left].
    + right. by right.
  - simpl. split; [|split; [done | done]].
    intros n [->|Hn]%Hs; [right; left | by left].
Qed.

Lemma sound_or_not (s : step_doc) :
  sound_frames s \/
  (sd_frames s = Null \/ Exists (fun fr => fd_value fr = Null) (listed_frames s)).
Proof.
  assert (Hl : forall fs : list frame_doc,
            Forall (fun fr => fd_value fr <> Null) fs \/
            Exists (fun fr => fd_value fr = Null) fs).
  { induction fs as [|fr fs [IH|IH]]; [by left | | by right; right].
    destruct (fd_value fr) eqn:Hv.
    - left. constructor; [by rewrite Hv | done].
    - right. by left.
    - left. constructor; [by rewrite Hv | done]. }
  unfold sound_frames. destruct (sd_frames s) eqn:Hf.
  - left. split; [done |]. unfold listed_frames. by rewrite Hf.
  - right. by left.
  - destruct (Hl (listed_frames s)) as [H|H]; [left | right; by right].
    split; [done | exact H].
Qed.

Lemma catalog_loop_ok (l : list step_doc) (st : state) :
  is_ok (for_each l create_step st).1 = true <-> Forall sound_frames l.
Proof.
  split.
  - intros Hok. apply Forall_forall. intros s Hs.
    destruct (sound_or_not s) as [?|Hbad]; [done |]. exfalso.
    rewrite (for_each_raises l create_step s Hs) in Hok; [done |].
    intros st0. destruct (create_step_malformed s st0 Hbad) as (st' & n & Hrun & _).
    by rewrite Hrun.
  - intros Hall. destruct (create_steps_run l Hall st) as (st' & Hrun & _).
    by rewrite Hrun.
Qed.

(** *** The stream *)

Lemma write_record_ok_iff (sCat : handle) (rec : stream_rec) (st : state) :
  frames_of_known_steps st ->
  (is_ok (write_record sCat rec st).1 = true <->
   is_Some (step_objs st !! r_step rec) /\ is_Some (inst_map st !! r_instance rec)) /\
  step_objs (write_record sCat rec st).2 = step_objs st /\
  inst_map (write_record sCat rec st).2 = inst_map st /\
  frames_of_known_steps (write_record sCat rec st).2.
Proof.
  intros Hfk. rewrite write_record_unfold.
  assert (Hready : match frame_ready rec st with
                   | None => step_objs st !! r_step rec = None
                   | Some st1 =>
                       is_Some (step_objs st !! r_step rec) /\
                       is_Some (frame_objs st1 !! frame_key rec) /\
                       step_objs st1 = step_objs st /\ inst_map st1 = inst_map st /\
                       frames_of_known_steps st1
                   end).
  { unfold frame_ready. destruct (frame_objs st !! frame_key rec) as [fobj|] eqn:Hf.
    - split; [apply (Hfk _ (r_frame_index rec));
              change (is_Some (frame_objs st !! frame_key rec)); by rewrite Hf |].
      by repeat split.
    - destruct (step_objs st !! r_step rec) as [stp|] eqn:Hs; [|done]. simpl.
      rewrite lookup_insert_eq. repeat split; try done; try by eexists.
      intros n i Hin. simpl in *. apply insert_is_Some in Hin as [[= -> ->]|Hin].
      + by rewrite Hs.
      + by eapply Hfk. }
  destruct (frame_ready rec st) as [st1|].
  2:{ simpl. rewrite Hready. repeat split; try done. by intros [[? [=]] _]. }
  destruct Hready as (Hstep & [fobj Hf] & Hs1 & Hi1 & Hfk1).
  unfold field_ready. rewrite Hf.
  pose proof (get_or_make_sp_run sCat (get_or_none (r_section_point rec))) as Hsp.
  assert (Hfin : forall fo st2,
    step_objs st2 = step_objs st -> inst_map st2 = inst_map st ->
    frames_of_known_steps st2 ->
    (is_ok (match get_or_make_sp sCat (get_or_none (r_section_point rec)) st2 with
            | (Ok sp_obj, st3) =>
                match inst_map st3 !! r_instance rec with
                | Some inst =>
                    (Ok tt,
                     with_call
                       (add_data_of rec fo inst
                          (if sc_eqb (pos_from_name (r_position rec)) INTEGRATION_POINT
                           then sp_obj else None)) st3)
                | None => (Raise (missing_instance rec), st3)
                end
            | (Raise e, st3) => (Raise e, st3)
            end).1 = true <->
     is_Some (step_objs st !! r_step rec) /\ is_Some (inst_map st !! r_instance rec)) /\
    step_objs (match get_or_make_sp sCat (get_or_none (r_section_point rec)) st2 with
            | (Ok sp_obj, st3) =>
                match inst_map st3 !! r_instance rec with
                | Some inst =>
                    (Ok tt,
                     with_call
                       (add_data_of rec fo inst
                          (if sc_eqb (pos_from_name (r_position rec)) INTEGRATION_POINT
                           then sp_obj else None)) st3)
                | None => (Raise (missing_instance rec), st3)
                end
            | (Raise e, st3) => (Raise e, st3)
            end).2 = step_objs st /\
    inst_map (match get_or_make_sp sCat (get_or_none (r_section_point rec)) st2 with
            | (Ok sp_obj, st3) =>
                match inst_map st3 !! r_instance rec with
                | Some inst =>
                    (Ok tt,
                     with_call
                       (add_data_of rec fo inst
                          (if sc_eqb (pos_from_name (r_position rec)) INTEGRATION_POINT
                           then sp_obj else None)) st3)
                | None => (Raise (missing_instance rec), st3)
                end
            | (Raise e, st3) => (Raise e, st3)
            end).2 = inst_map st /\
    frames_of_known_steps (match get_or_make_sp sCat (get_or_none (r_section_point rec)) st2 with
            | (Ok sp_obj, st3) =>
                match inst_map st3 !! r_instance rec with
                | Some inst =>
                    (Ok tt,
                     with_call
                       (add_data_of rec fo inst
                          (if sc_eqb (pos_from_name (r_position rec)) INTEGRATION_POINT
                           then sp_obj else None)) st3)
                | None => (Raise (missing_instance rec), st3)
                end
            | (Raise e, st3) => (Raise e, st3)
            end).2).
  { intros fo st2 Hs2 Hi2 Hfk2. specialize (Hsp st2).
    assert (Hst3 : exists sp_obj st3,
              get_or_make_sp sCat (get_or_none (r_section_point rec)) st2 = (Ok sp_obj, st3) /\
              step_objs st3 = step_objs st2 /\ inst_map st3 = inst_map st2 /\
              frame_objs st3 = frame_objs st2).
    { destruct (get_or_none (r_section_point rec)) as [d|]; [|by eexists _, _].
      destruct (sp_pool st2 !! sp_key d); by eexists _, _. }
    destruct Hst3 as (sp_obj & st3 & -> & Hs3 & Hi3 & Hf3).
    rewrite Hi3, Hi2.
    destruct (inst_map st !! r_instance rec) as [inst|]; simpl.
    - rewrite Hs3, Hs2, Hi3, Hi2. repeat split; try done; try by eexists.
      intros n i. simpl. rewrite Hf3, Hs3. apply Hfk2.
    - rewrite Hs3, Hs2, Hi3, Hi2. repeat split; try done.
      + by intros [_ [? [=]]].
      + intros n i. simpl. rewrite Hf3, Hs3. apply Hfk2. }
  destruct (nt11_cache st1 !! frame_key rec) as [fo|]; cbv beta iota.
  - by apply Hfin.
  - apply Hfin; try done; intros n i; apply Hfk1.
Qed.

Lemma stream_loop_ok (sCat : handle) (recs : list stream_rec) :
  forall st,
    frames_of_known_steps st ->
    (is_ok (for_each recs (write_record sCat) st).1 = true <->
     forall rec, rec ∈ recs ->
       is_Some (step_objs st !! r_step rec) /\ is_Some (inst_map st !! r_instance rec)).
Proof.
  induction recs as [|rec recs IH]; intros st Hfk.
  - split; [by intros _ rec ?%elem_of_nil | done].
  - cbn [for_each]. rewrite bind_is_ok.
    destruct (write_record_ok_iff sCat rec st Hfk) as (Hok & Hs & Hi & Hfk').
    destruct (write_record sCat rec st) as [[[]|e] st1]; simpl in Hok, Hs, Hi, Hfk'.
    + rewrite (IH st1 Hfk'), Hs, Hi. split.
      * intros Hall rec' [->|Hin]%elem_of_cons; [by apply Hok | by apply Hall].
      * intros Hall rec' Hin. apply Hall. by right.
    + split; [done |]. intros Hall. apply Hok, Hall. left.
Qed.

(** *** The results stage and the whole run *)

Lemma results_writes_ok (E : env) (steps_path nt11_path : string) (st : state) :
  frames_of_known_steps st -> step_objs st = ∅ ->
  (is_ok (results_writes E steps_path nt11_path st).1 = true <->
   exists doc recs,
     steps_at E steps_path = Some doc /\ nt11_at E nt11_path = Some recs /\
     steps doc <> Null /\ Forall sound_frames (catalog_steps doc) /\
     forall rec, rec ∈ recs ->
       r_step rec ∈ sd_name <$> catalog_steps doc /\
       is_Some (assembly st !! r_instance rec)).
Proof.
  intros Hfk Hempty.
  unfold results_writes, api_SectionCategory, load_json.
  erewrite bind_ok by reflexivity. erewrite bind_ok by reflexivity.
  erewrite bind_ok by reflexivity.
  destruct (steps_at E steps_path) as [doc|].
  2:{ split; [done |]. by intros (? & ? & [=] & _). }
  erewrite bind_ok by reflexivity.
  assert (Hnull : steps doc = Null \/
                  dict_get_default (steps doc) [] = Some (catalog_steps doc)).
  { unfold catalog_steps. destruct (steps doc); [by right | by left | by right]. }
  destruct Hnull as [Hnull|Hl].
  { rewrite Hnull. split; [done |].
    intros (? & ? & [= <-] & _ & Hnn & _). by destruct Hnn. }
  rewrite Hl. erewrite bind_ok by reflexivity.
  rewrite bind_is_ok.
  match goal with |- context [for_each _ create_step ?s] => set (s1 := s) end.
  pose proof (catalog_loop_ok (catalog_steps doc) s1) as Hcat.
  destruct (create_steps_keys (catalog_steps doc) s1) as (Hup & Hi & Hfk1).
  assert (Hfks1 : frames_of_known_steps s1) by exact Hfk.
  specialize (Hfk1 Hfks1).
  destruct (for_each (catalog_steps doc) create_step s1) as [[[]|e] st1] eqn:Hloop;
    simpl in Hcat, Hup, Hi, Hfk1.
  2:{ split; [done |]. intros (? & ? & [= <-] & _ & _ & Hall & _).
      apply Hcat in Hall. done. }
  assert (Hall : Forall sound_frames (catalog_steps doc)) by by apply Hcat.
  destruct (create_steps_run _ Hall s1) as (st1' & Hrun & _ & _ & _ & Hcov).
  rewrite Hloop in Hrun. injection Hrun as <-.
  assert (Hdom : forall n, is_Some (step_objs st1 !! n) <->
                           n ∈ sd_name <$> catalog_steps doc).
  { intros n. split.
    - intros [Hn|Hn]%Hup; [|done]. subst s1. simpl in Hn. rewrite Hempty in Hn.
      rewrite lookup_empty in Hn. by destruct Hn.
    - intros (s & -> & Hs)%list_elem_of_fmap. by apply Hcov. }
  destruct (nt11_at E nt11_path) as [recs|].
  2:{ split; [done |]. by intros (? & ? & _ & [=] & _). }
  erewrite bind_ok by reflexivity.
  rewrite (stream_loop_ok _ recs st1 Hfk1). split.
  - intros Hrecs. exists doc, recs. repeat split; try done.
    + intros Hn. unfold catalog_steps in Hl. by rewrite Hn in Hl.
    + apply Hdom, Hrecs, H.
    + destruct (Hrecs rec H) as [_ Hin]. by rewrite Hi in Hin.
  - intros (? & ? & [= <-] & [= <-] & _ & _ & Hrecs) rec Hin.
    destruct (Hrecs rec Hin) as [Hs Ha]. split; [by apply Hdom |].
    by rewrite Hi.
Qed.

Lemma main_ok_iff (E : env) (argv : list string) :
  is_ok (main E argv initial).1 = true <-> importable E argv.
Proof.
  unfold main, importable.
  destruct (parse_args argv) as [[[[mesh_path steps_path] nt11_path] out_odb]|e].
  2:{ split; [done |]. by intros (? & ? & ? & ? & ? & ? & ? & [=] & _). }
  erewrite bind_ok by reflexivity. cbn [to_str].
  pose proof (geometry_stage_result E mesh_path out_odb) as Hg.
  rewrite bind_is_ok.
  destruct (mesh_at E mesh_path) as [mesh|] eqn:Hm.
  2:{ destruct (geometry_stage E mesh_path out_odb initial) as [[[]|e] st0];
        [done |].
      split; [done |].
      intros (? & ? & ? & ? & ? & ? & ? & [= <- <- <- <-] & Hm' & _).
      by rewrite Hm in Hm'. }
  destruct Hg as (st0 & -> & Hdom & Hs0 & Hf0).
  unfold results_stage, api_openOdb, api_save, api_close.
  erewrite bind_ok by reflexivity. rewrite bind_is_ok.
  match goal with |- context [results_writes E steps_path nt11_path ?s] =>
    pose proof (results_writes_ok E steps_path nt11_path s) as Hres end.
  simpl in Hres.
  assert (Hfk : frames_of_known_steps st0).
  { intros n i. rewrite Hf0, lookup_empty. by intros [? [=]]. }
  specialize (Hres Hfk Hs0).
  match goal with |- context [results_writes E steps_path nt11_path ?s] =>
    destruct (results_writes E steps_path nt11_path s) as [[[]|e] st1] end;
    simpl in Hres.
  - split; [intros _ | done].
    destruct Hres as [Hres _]. destruct (Hres eq_refl)
      as (doc & recs & Hsd & Hnd & Hnn & Hall & Hrecs).
    exists mesh_path, steps_path, nt11_path, out_odb, mesh, doc, recs.
    repeat split; try done.
    + by apply Hrecs.
    + apply Hdom. by apply Hrecs.
  - split; [done |].
    intros (? & ? & ? & ? & ? & doc & recs & [= <- <- <- <-] & Hm' & Hsd & Hnd
            & Hnn & Hall & Hrecs).
    rewrite Hm in Hm'. injection Hm' as <-.
    apply Hres. exists doc, recs. repeat split; try done.
    + by apply Hrecs.
    + apply Hdom. by apply Hrecs.
Qed.

(** X21. When a run of the importer succeeds.  The importer returns
    normally exactly when its input is importable: the four arguments are
    given, the mesh document, the catalog and the stream can be read, the
    step list of the catalog is not null, no catalog entry has a null frame
    list or a listed frame with a null value, and every record of the
    stream names a step of the catalog and an instance of the mesh
    document.  In particular a record whose frame the catalog does not list
    is no obstacle as long as its step is listed. *)
Theorem X21_import_succeeds_iff (E : env) (argv : list string) :
  (exists st, main E argv initial = (Ok tt, st)) <-> importable E argv.
Proof.
  rewrite <- main_ok_iff. split.
  - by intros [st ->].
  - destruct (main E argv initial) as [[[]|e] st]; [by exists st | done].
Qed.
End ImportSucceeds.

(** ** From the exporter to the importer: a whole run *)

Section ExportThenImport.
Import Importer ImporterSpec ImporterMore RoundTrip.

Lemma exported_names (insts : list (string * Exporter.Instance))
    (docs : list (string * instance_doc)) :
  Forall2 ExporterMore.exported_instance insts docs -> docs.*1 = insts.*1.
Proof.
  induction 1 as [|src out insts docs [Hn _] _ IH]; [done |].
  rewrite !fmap_cons. by rewrite IH, Hn.
Qed.

Lemma written_record_instance
    (odb : Exporter.Odb) (step_filter : option (list string)) (out_dir : string)
    (rec : stream_rec) :
  values_in_instances odb ->
  rec ∈ Exporter.lines_written (Exporter.export_nt11 odb step_filter out_dir []).2 ->
  r_instance rec ∈ (Exporter.odb_instances odb).*1.
Proof.
  intros Hv Hrec. apply lines_written_elem in Hrec.
  destruct (export_nt11_appends odb step_filter out_dir []) as (tr & Htr & HP).
  simpl in Htr. rewrite Htr in Hrec.
  rewrite Forall_forall in HP. apply HP in Hrec as (fo & k & b & Hrb).
  destruct Hrb as (sname & step & fidx & fr & bs & Hs & _ & Hfr & Hfo & Hbs & Hkb & ->).
  destruct (bucket_values_spec _ _ _ _ Hbs Hkb) as (v0 & rest & es & Hu & _ & ->).
  simpl. apply (Hv sname step fr fo v0); try done.
  - by apply elem_of_enumerate_from in Hfr.
  - assert (Hin : v0 ∈ ExporterSpec.under_key k (Exporter.fo_values fo))
      by (rewrite Hu; left).
    unfold ExporterSpec.under_key in Hin. by apply list_elem_of_filter in Hin as [_ ?].
Qed.

(** X22. The files of one export are imported without error.  When the
    instance names of the store are distinct and every temperature value
    belongs to an instance of the store, the importer, given the mesh
    document, the catalog and the stream the exporter writes for that
    store, returns normally: it meets no unknown step or instance and no
    malformed catalog entry. *)
Theorem X22_exported_files_import
    (odb : Exporter.Odb) (step_filter : option (list string)) (out_dir : string)
    (mesh : mesh_doc) (E : env) (argv : list string)
    (mesh_path steps_path nt11_path out_odb : string) :
  NoDup (Exporter.odb_instances odb).*1 ->
  values_in_instances odb ->
  Exporter.mesh_of odb = Ok mesh ->
  parse_args argv = Ok (mesh_path, steps_path, nt11_path, out_odb) ->
  mesh_at E mesh_path = Some mesh ->
  steps_at E steps_path = Some (Exporter.steps_of odb step_filter) ->
  nt11_at E nt11_path
  = Some (Exporter.lines_written (Exporter.export_nt11 odb step_filter out_dir []).2) ->
  exists st, main E argv initial = (Ok tt, st).
Proof.
  intros Hnd Hv Hmesh Hargs Hm Hs Hn.
  assert (Hok : is_ok (main E argv initial).1 = true).
  { apply main_ok_iff.
    eexists mesh_path, steps_path, nt11_path, out_odb, mesh, _, _.
    split; [done |]. split; [done |]. split; [exact Hs |]. split; [exact Hn |].
    split; [done |].
    split; [by apply (exported_catalog_sound odb step_filter) |].
    intros rec Hrec. split.
    - destruct (written_record_catalogued odb step_filter out_dir rec Hrec)
        as (l & s & fs & fd & [= <-] & Hs' & Hname & _).
      rewrite <- Hname. by apply list_elem_of_fmap_2.
    - rewrite (exported_names _ _ (mesh_of_instances odb mesh Hnd Hmesh)).
      by apply (written_record_instance odb step_filter out_dir). }
  destruct (main E argv initial) as [[[]|e] st]; [by exists st | done].
Qed.
End ExportThenImport.

(** ** The importer: the data written, record by record *)

Section StreamOrder.
Import Importer ImporterSpec ImporterMore.

Lemma written_data_app (tr tr' : list event) :
  written_data (tr ++ tr') = written_data tr ++ written_data tr'.
Proof. apply omap_app. Qed.

Lemma written_data_none (tr : list event) :
  Forall (fun e => is_add_data e = false) tr -> written_data tr = [].
Proof.
  induction 1 as [|e tr He _ IH]; [done |].
  destruct e; simpl in He; try done; exact IH.
Qed.

Lemma unwritten_run {A} (m : prog state A) (st : state) :
  unwritten m -> written_data (calls (m st).2) = written_data (calls st).
Proof. intros Hm. by apply (Hm (written_data (calls st)) st). Qed.

Lemma unwritten_modify (f : state -> state) :
  (forall st, written_data (calls (f st)) = written_data (calls st)) ->
  unwritten (modify f).
Proof. intros Hf w st Hw. unfold keeps_data in *. simpl. by rewrite Hf. Qed.

Lemma unwritten_new_handle : unwritten new_handle.
Proof. by intros w st Hw. Qed.

Ltac unwritten_auto :=
  intros ?;
  repeat first
    [ apply preserves_ret
    | apply preserves_raise
    | apply preserves_lift
    | apply preserves_get_state
    | apply preserves_load_json
    | apply unwritten_new_handle
    | apply unwritten_modify; intros ?; simpl;
      rewrite ?written_data_app; simpl; by rewrite ?app_nil_r
    | apply preserves_for_each; intros ? _
    | apply preserves_bind; [| intros ?]
    | match goal with
      | |- preserves _ (match ?x with _ => _ end) => destruct x
      end ].

Lemma unwritten_build_instance (iname : string) (inst_rec : instance_doc) :
  unwritten (build_instance iname inst_rec).
Proof.
  unfold build_instance, api_Part, api_addNodes, api_addElements, api_Instance,
    set_assembly, call.
  unwritten_auto.
Qed.

Lemma unwritten_geometry_stage (E : env) (mesh_path out_odb : string) :
  unwritten (geometry_stage E mesh_path out_odb).
Proof.
  intros w. unfold geometry_stage, api_Odb, api_save, api_close, call.
  apply preserves_bind; [by revert w; unwritten_auto | intros _].
  apply preserves_bind; [apply preserves_load_json | intros mesh].
  apply preserves_bind.
  { apply preserves_for_each. intros [n r] _. apply unwritten_build_instance. }
  intros _. revert w. unwritten_auto.
Qed.

Lemma unwritten_create_step (s : step_doc) : unwritten (create_step s).
Proof.
  unfold create_step, create_frame, api_Step, api_Frame, set_step_obj, set_frame_obj,
    call.
  unwritten_auto.
Qed.

Lemma streams_raise {A} (recs : list stream_rec) (e : exn) :
  streams recs (raise e : prog state A).
Proof. intros st. exists 0%nat. simpl. by rewrite app_nil_r. Qed.

Lemma streams_bind_l {A B} (recs : list stream_rec) (m : prog state A)
    (k : A -> prog state B) :
  unwritten m -> (forall a, streams recs (k a)) -> streams recs (m ≫= k).
Proof.
  intros Hm Hk st. rewrite bind_run. pose proof (unwritten_run m st Hm) as Hw.
  destruct (m st) as [[a|e] st1]; simpl in Hw.
  - destruct (Hk a st1) as (n & Hn & Hok). exists n. by rewrite Hn, Hw.
  - exists 0%nat. simpl. by rewrite app_nil_r.
Qed.

Lemma streams_bind_r {A B} (recs : list stream_rec) (m : prog state A)
    (k : A -> prog state B) :
  streams recs m -> (forall a, unwritten (k a)) -> streams recs (m ≫= k).
Proof.
  intros Hm Hk st. rewrite bind_run. destruct (Hm st) as (n & Hn & Hok).
  destruct (m st) as [[a|e] st1]; simpl in *.
  - exists n. rewrite (unwritten_run (k a) st1 (Hk a)). split; [done |].
    intros _. by apply Hok.
  - exists n. by split.
Qed.

Lemma write_record_written (sCat : handle) (rec : stream_rec) (st : state) :
  written_data (calls (write_record sCat rec st).2)
  = written_data (calls st)
    ++ (if is_ok (write_record sCat rec st).1 then [record_data rec] else []).
Proof.
  pose proof (write_record_run sCat rec st) as H.
  assert (Hgo :
    (exists st3 pre fo sp_arg,
        calls st3 = calls st ++ pre /\
        Forall (fun e => is_add_data e = false) pre /\
        (is_Some sp_arg <-> is_Some (get_or_none (r_section_point rec))) /\
        write_record sCat rec st =
        match inst_map st !! to_str (Some (r_instance rec)) with
        | None => (Raise (missing_instance rec), st3)
        | Some inst =>
            (Ok tt,
             with_call
               (add_data_of rec fo inst
                  (if sc_eqb (pos_from_name (r_position rec)) INTEGRATION_POINT
                   then sp_arg else None)) st3)
        end) ->
    written_data (calls (write_record sCat rec st).2)
    = written_data (calls st)
      ++ (if is_ok (write_record sCat rec st).1 then [record_data rec] else [])).
  { intros (st3 & pre & fo & sp_arg & Hc & Hpre & _ & ->).
    destruct (inst_map st !! _); simpl;
      rewrite Hc, ?written_data_app, (written_data_none pre Hpre); simpl;
      by rewrite ?app_nil_r. }
  destruct (frame_objs st !! frame_key rec); [by apply Hgo |].
  destruct (step_objs st !! to_str (Some (r_step rec))); [by apply Hgo |].
  rewrite H. simpl. by rewrite app_nil_r.
Qed.

Lemma streams_loop (sCat : handle) (recs : list stream_rec) :
  streams recs (for_each recs (write_record sCat)).
Proof.
  induction recs as [|rec recs IH]; intros st.
  - exists 0%nat. simpl. by rewrite app_nil_r.
  - cbn [for_each]. rewrite bind_run.
    pose proof (write_record_written sCat rec st) as Hw.
    destruct (write_record sCat rec st) as [[[]|e] st1]; simpl in Hw.
    + destruct (IH st1) as (n & Hn & Hok). exists (S n).
      rewrite Hn, Hw, <- app_assoc. split; [done |].
      intros H. simpl. f_equal. by apply Hok.
    + exists 0%nat. simpl. rewrite Hw. split; [done | done].
Qed.

(** X23. The importer writes the records of the stream in order, each
    once and none skipped: the labeled data in the store log of a run are
    the position, labels and data of the first records of the stream, and
    of all of them when the run returns normally; a run that fails has
    written the records before the failing one and nothing after it. *)
Theorem X23_records_written_in_stream_order (E : env) (argv : list string) :
  exists n,
    written_data (calls (main E argv initial).2)
    = record_data <$> take n (stream_of E argv) /\
    (is_ok (main E argv initial).1 = true -> n = length (stream_of E argv)).
Proof.
  assert (Hmain : streams (stream_of E argv) (main E argv)).
  { unfold main, stream_of.
    destruct (parse_args argv) as [[[[mesh_path steps_path] nt11_path] out_odb]|e];
      [|intros st; exists 0%nat; simpl; by rewrite app_nil_r].
    cut (streams (default [] (nt11_at E nt11_path))
           (geometry_stage E mesh_path out_odb ;;
            results_stage E steps_path nt11_path out_odb)).
    { intros Hrest st. exact (Hrest st). }
    apply streams_bind_l; [apply unwritten_geometry_stage | intros _].
    unfold results_stage, api_openOdb, api_save, api_close, call.
    apply streams_bind_l; [by unwritten_auto | intros _].
    apply streams_bind_r; [|intros _; by unwritten_auto].
    unfold results_writes, api_SectionCategory, set_inst_map, call.
    apply streams_bind_l; [by unwritten_auto | intros st0].
    apply streams_bind_l; [by unwritten_auto | intros _].
    apply streams_bind_l; [by unwritten_auto | intros sCat].
    apply streams_bind_l; [intros w; apply preserves_load_json | intros doc].
    apply streams_bind_l; [by unwritten_auto | intros l].
    apply streams_bind_l;
      [intros w; apply preserves_for_each; intros s _; apply unwritten_create_step |
       intros _].
    unfold load_json. destruct (nt11_at E nt11_path) as [recs|]; simpl.
    - intros st. exact (streams_loop sCat recs st).
    - intros st. exists 0%nat. simpl. by rewrite app_nil_r. }
  destruct (Hmain initial) as (n & Hn & Hok). by exists n.
Qed.
End StreamOrder.

(** ** The importer: the geometry of a mesh document *)

Section GeometryOrder.
Import Importer ImporterSpec ImporterMore.

Lemma element_calls_names (p : handle) (inst_rec : instance_doc) :
  created_parts (element_calls p inst_rec) = [] /\
  created_instances (element_calls p inst_rec) = [].
Proof.
  unfold element_calls. destruct (id_elements inst_rec) as [| |es]; try done.
  induction (group_elements es) as [|[ety eData] gs [IH1 IH2]]; [done |].
  split; [exact IH1 | exact IH2].
Qed.

Lemma node_calls_names (p : handle) (inst_rec : instance_doc) :
  created_parts (node_calls p inst_rec) = [] /\
  created_instances (node_calls p inst_rec) = [].
Proof. unfold node_calls. by destruct (id_nodes inst_rec) as [| |[|n ns]]. Qed.

Lemma geometry_loop_names (insts : list (string * instance_doc)) :
  forall st st',
    for_each insts (fun '(iname_u, inst_rec) => build_instance iname_u inst_rec) st
    = (Ok tt, st') ->
    created_instances (calls st') = created_instances (calls st) ++ insts.*1 /\
    created_parts (calls st')
    = created_parts (calls st) ++ ((fun n => "PART_FROM_" +:+ n) <$> insts.*1).
Proof.
  induction insts as [|[n r] insts IH]; intros st st' Hrun.
  - injection Hrun as <-. by rewrite !app_nil_r.
  - cbn [for_each] in Hrun. erewrite bind_ok in Hrun by apply build_instance_run.
    apply IH in Hrun as [Hi Hp]. rewrite Hi, Hp. simpl.
    unfold created_instances, created_parts. rewrite !omap_app. simpl.
    destruct (node_calls_names (fresh st) r) as [Hn1 Hn2].
    destruct (element_calls_names (fresh st) r) as [He1 He2].
    unfold created_instances, created_parts in Hn1, Hn2, He1, He2.
    rewrite !omap_app, Hn1, Hn2, He1, He2. simpl.
    by rewrite <- !app_assoc.
Qed.

(** X24. Given a mesh document of the schema and store calls that
    succeed, the geometry stage returns normally once the document is
    read, and it rebuilds every instance of the document: one instance per
    entry under its own name, in the order in which the dictionary of the
    instances is iterated, which the source does not fix; each on a part of
    its own, created in the same order and named PART_FROM_ followed by the
    instance name; afterwards the assembly holds exactly the instances the
    document names. *)
Theorem X24_geometry_one_part_per_instance
    (E : env) (mesh_path out_odb : string) (mesh : mesh_doc) :
  mesh_at E mesh_path = Some mesh ->
  exists st',
    geometry_stage E mesh_path out_odb initial = (Ok tt, st') /\
    created_instances (calls st') ≡ₚ (instances mesh).*1 /\
    created_parts (calls st')
    = (fun n => "PART_FROM_" +:+ n) <$> created_instances (calls st') /\
    forall n, is_Some (assembly st' !! n) <-> n ∈ (instances mesh).*1.
Proof.
  intros Hm. unfold geometry_stage, api_Odb, api_save, api_close, load_json.
  rewrite Hm. erewrite bind_ok by reflexivity. erewrite bind_ok by reflexivity.
  match goal with |- context [(for_each (instances mesh) _ ≫= _) ?s] =>
    destruct (geometry_loop (instances mesh) s) as (st1 & Hrun & Hdom & _);
    pose proof (geometry_loop_names (instances mesh) s st1 Hrun) as [Hi Hp]
  end.
  erewrite bind_ok by exact Hrun. erewrite bind_ok by reflexivity.
  eexists. split; [reflexivity |]. simpl in *.
  unfold created_instances, created_parts in *. rewrite !omap_app, Hi, Hp. simpl.
  rewrite !app_nil_r. split; [done |]. split; [done |].
  intros n. rewrite Hdom, lookup_empty. split; [|by right].
  intros [[? [=]]|?]; done.
Qed.
End GeometryOrder.

Lemma X24_geometry_one_part_per_instance_witness :
  Importer.mesh_at MoreSamples.files_two "mesh.json" = Some MoreSamples.mesh_two /\
  exists st',
    Importer.geometry_stage MoreSamples.files_two "mesh.json" "out.odb" Importer.initial
    = (Ok tt, st') /\
    ImporterMore.created_instances (Importer.calls st')
    ≡ₚ (instances MoreSamples.mesh_two).*1 /\
    ImporterMore.created_parts (Importer.calls st')
    = (fun n => "PART_FROM_" +:+ n) <$> ImporterMore.created_instances (Importer.calls st') /\
    forall n, is_Some (Importer.assembly st' !! n)
              <-> n ∈ (instances MoreSamples.mesh_two).*1.
Proof.
  split; [reflexivity |].
  exact (X24_geometry_one_part_per_instance MoreSamples.files_two
           "mesh.json"%string "out.odb"%string MoreSamples.mesh_two eq_refl).
Defined.

(** ** The importer: the domain of the steps (C9) *)

Section StepDomain.
Import Importer ImporterSpec ImporterMore.

Lemma created_steps_app (tr tr' : list event) :
  created_steps (tr ++ tr') = created_steps tr ++ created_steps tr'.
Proof. apply omap_app. Qed.

Lemma stepless_run {A} (m : prog state A) (st : state) :
  stepless m -> created_steps (calls (m st).2) = created_steps (calls st).
Proof. intros Hm. by apply (Hm (created_steps (calls st)) st). Qed.

Lemma stepless_modify (f : state -> state) :
  (forall st, created_steps (calls (f st)) = created_steps (calls st)) ->
  stepless (modify f).
Proof. intros Hf w st Hw. simpl. by rewrite Hf. Qed.

Lemma stepless_new_handle : stepless new_handle.
Proof. by intros w st Hw. Qed.

Ltac stepless_auto :=
  intros ?;
  repeat first
    [ apply preserves_ret
    | apply preserves_raise
    | apply preserves_lift
    | apply preserves_get_state
    | apply preserves_load_json
    | apply stepless_new_handle
    | apply stepless_modify; intros ?; simpl;
      rewrite ?created_steps_app; simpl; by rewrite ?app_nil_r
    | apply preserves_for_each; intros ? _
    | apply preserves_bind; [| intros ?]
    | match goal with
      | |- preserves _ (match ?x with _ => _ end) => destruct x
      | |- preserves _ (if ?x then _ else _) => destruct x
      end ].

Lemma stepless_build_instance (iname : string) (inst_rec : instance_doc) :
  stepless (build_instance iname inst_rec).
Proof.
  unfold build_instance, api_Part, api_addNodes, api_addElements, api_Instance,
    set_assembly, call.
  stepless_auto.
Qed.

Lemma stepless_geometry_stage (E : env) (mesh_path out_odb : string) :
  stepless (geometry_stage E mesh_path out_odb).
Proof.
  intros w. unfold geometry_stage, api_Odb, api_save, api_close, call.
  apply preserves_bind; [by revert w; stepless_auto | intros _].
  apply preserves_bind; [apply preserves_load_json | intros mesh].
  apply preserves_bind.
  { apply preserves_for_each. intros [n r] _. apply stepless_build_instance. }
  intros _. revert w. stepless_auto.
Qed.

Lemma stepless_write_record (sCat : handle) (rec : stream_rec) :
  stepless (write_record sCat rec).
Proof.
  unfold write_record, get_or_make_sp, api_Frame, api_FieldOutput, api_SectionPoint,
    api_addData, set_frame_obj, set_nt11_cache, set_sp_pool, call.
  stepless_auto.
Qed.

(** What [create_step] logs, whether the frames of the entry can be read
    or not. *)
Lemma create_step_logged (s : step_doc) (st : state) :
  exists tr,
    calls (create_step s st).2
    = calls st ++ NewStep (fresh st) (sd_name s) "Imported step" TIME
                    (py_max (default float_zero (last_frame_value s)) float_zero)
                  :: tr /\
    created_steps tr = [].
Proof.
  rewrite create_step_unfold.
  assert (Hloop : forall fs st0,
            exists tr, calls (for_each fs (create_frame (sd_name s) (fresh st)) st0).2
                       = calls st0 ++ tr /\ created_steps tr = []).
  { induction fs as [|fr fs IH]; intros st0.
    - exists []. by rewrite app_nil_r.
    - cbn [for_each]. rewrite bind_run.
      assert (Hgo : fd_value fr <> Null ->
        exists tr,
          calls (let (r, st') := create_frame (sd_name s) (fresh st) fr st0 in
                 match r with
                 | Ok _ => for_each fs (create_frame (sd_name s) (fresh st)) st'
                 | Raise e => (Raise e, st')
                 end).2 = calls st0 ++ tr /\ created_steps tr = []).
      { intros Hv. rewrite create_frame_run by done.
        match goal with |- context [for_each fs _ ?s0] =>
          destruct (IH s0) as (tr & Htr & Hnone) end.
        eexists (_ :: tr). rewrite Htr. simpl. by rewrite <- app_assoc. }
      destruct (fd_value fr) eqn:Hv; [by apply Hgo | | by apply Hgo].
      rewrite create_frame_null by done. exists []. by rewrite app_nil_r. }
  destruct (sd_frames s).
  - destruct (Hloop (listed_frames s) (step_started s st)) as (tr & Htr & Hnone).
    exists tr. rewrite Htr. simpl. by rewrite <- app_assoc.
  - by exists [].
  - destruct (Hloop (listed_frames s) (step_started s st)) as (tr & Htr & Hnone).
    exists tr. rewrite Htr. simpl. by rewrite <- app_assoc.
Qed.

Lemma steps_from_bind_l {A B} (l : list step_doc) (m : prog state A)
    (k : A -> prog state B) :
  stepless m -> (forall a, steps_from l (k a)) -> steps_from l (m ≫= k).
Proof.
  intros Hm Hk st. rewrite bind_run. pose proof (stepless_run m st Hm) as Hw.
  destruct (m st) as [[a|e] st1]; simpl in Hw.
  - destruct (Hk a st1) as (n & Hn & Hok). exists n. by rewrite Hn, Hw.
  - exists 0%nat. simpl. by rewrite app_nil_r.
Qed.

Lemma steps_from_bind_r {A B} (l : list step_doc) (m : prog state A)
    (k : A -> prog state B) :
  steps_from l m -> (forall a, stepless (k a)) -> steps_from l (m ≫= k).
Proof.
  intros Hm Hk st. rewrite bind_run. destruct (Hm st) as (n & Hn & Hok).
  destruct (m st) as [[a|e] st1]; simpl in *.
  - exists n. rewrite (stepless_run (k a) st1 (Hk a)). split; [done |].
    intros _. by apply Hok.
  - exists n. by split.
Qed.

Lemma steps_from_bind_ret {A B} (l : list step_doc) (a : A) (m : prog state A)
    (k : A -> prog state B) :
  (forall st, m st = (Ok a, st)) -> steps_from l (k a) -> steps_from l (m ≫= k).
Proof. intros Hm Hk st. rewrite bind_run, Hm. apply Hk. Qed.

Lemma steps_from_loop (l : list step_doc) : steps_from l (for_each l create_step).
Proof.
  induction l as [|s l IH]; intros st.
  - exists 0%nat. simpl. by rewrite app_nil_r.
  - cbn [for_each]. rewrite bind_run.
    destruct (create_step_logged s st) as (tr & Htr & Hnone).
    destruct (create_step s st) as [[[]|e] st1]; simpl in Htr.
    + destruct (IH st1) as (n & Hn & Hok). exists (S n).
      rewrite Hn, Htr, created_steps_app. simpl.
      change (created_steps (?e :: tr)) with ((sd_name s, "Imported step"%string, TIME)
                                              :: created_steps tr).
      rewrite Hnone, <- app_assoc. split; [done |].
      intros H. simpl. f_equal. by apply Hok.
    + exists 1%nat. simpl. rewrite Htr, created_steps_app. simpl.
      change (created_steps (?e :: tr)) with ((sd_name s, "Imported step"%string, TIME)
                                              :: created_steps tr).
      rewrite Hnone. split; [|done]. by destruct l.
Qed.

Lemma steps_from_main (E : env) (argv : list string) :
  steps_from (catalog_of E argv) (main E argv).
Proof.
  unfold main, catalog_of.
  destruct (parse_args argv) as [[[[mesh_path steps_path] nt11_path] out_odb]|e];
    [|intros st; exists 0%nat; simpl; by rewrite app_nil_r].
  cut (steps_from (match steps_at E steps_path with
                   | Some doc => catalog_steps doc
                   | None => []
                   end)
         (geometry_stage E mesh_path out_odb ;;
          results_stage E steps_path nt11_path out_odb)).
  { intros Hrest st. exact (Hrest st). }
  apply steps_from_bind_l; [apply stepless_geometry_stage | intros _].
  unfold results_stage, api_openOdb, api_save, api_close, call.
  apply steps_from_bind_l; [by stepless_auto | intros _].
  apply steps_from_bind_r; [|intros _; by stepless_auto].
  unfold results_writes, api_SectionCategory, set_inst_map, call.
  apply steps_from_bind_l; [by stepless_auto | intros st0].
  apply steps_from_bind_l; [by stepless_auto | intros _].
  apply steps_from_bind_l; [by stepless_auto | intros sCat].
  change (load_json (steps_at E) steps_path)
    with (match steps_at E steps_path with
          | Some doc => mret doc
          | None => raise (IOError steps_path)
          end : prog state steps_doc).
  destruct (steps_at E steps_path) as [doc|].
  2:{ intros st. exists 0%nat. rewrite bind_run. simpl. by rewrite app_nil_r. }
  assert (Hrest : forall l,
            steps_from l
              (for_each l create_step ;;
               recs ← load_json (nt11_at E) nt11_path;
               for_each recs (write_record sCat))).
  { intros l. apply steps_from_bind_r; [apply steps_from_loop |].
    intros _ w. apply preserves_bind; [apply preserves_load_json |].
    intros recs. apply preserves_for_each. intros rec _.
    apply stepless_write_record. }
  apply (steps_from_bind_ret _ doc); [done |].
  unfold catalog_steps. destruct (steps doc) as [| |l]; simpl.
  - apply (steps_from_bind_ret _ []); [done | apply Hrest].
  - intros st. exists 0%nat. rewrite bind_run. simpl. by rewrite app_nil_r.
  - apply (steps_from_bind_ret _ l); [done | apply Hrest].
Qed.

(** C9. Every catalog entry is given its step in the time domain, whatever
    domain the entry records: [create_step] begins by creating the step
    under the name of the entry with domain TIME; in a run the steps
    created are those of the first entries of the catalog, in order and all
    in the time domain, and those of all entries when the run returns
    normally; no step of the log has another domain; and the domain strings
    of the catalog have no influence on a run: two sets of input files that
    differ only in the domains recorded for the steps lead to the same
    result, store log and tables. *)
Theorem C9_step_domain_always_time (E : env) (argv : list string) :
  (forall s st, exists tp tr,
      time_period s = Ok tp /\
      calls (create_step s st).2
      = calls st ++ NewStep (fresh st) (sd_name s) "Imported step" TIME
                      (py_max tp float_zero) :: tr) /\
  (exists n,
      created_steps (calls (main E argv initial).2)
      = (fun s => (sd_name s, "Imported step"%string, TIME))
          <$> take n (catalog_of E argv) /\
      (is_ok (main E argv initial).1 = true -> n = length (catalog_of E argv))) /\
  Forall step_in_time (calls (main E argv initial).2) /\
  (forall E' st,
      (forall p, mesh_at E p = mesh_at E' p) ->
      (forall p, nt11_at E p = nt11_at E' p) ->
      (forall p, forget_domains <$> steps_at E p = forget_domains <$> steps_at E' p) ->
      main E argv st = main E' argv st).
Proof.
  split.
  { intros s st. destruct (create_step_logged s st) as (tr & Htr & _).
    exists (default float_zero (last_frame_value s)), tr.
    split; [apply time_period_value | exact Htr]. }
  split; [exact (steps_from_main E argv initial) |].
  split; [|intros E' st; apply main_forget].
  pose proof (main_run E argv) as H.
  destruct (parse_args argv) as [[[[mesh_path steps_path] nt11_path] out_odb]|e].
  - simpl in H. destruct (mesh_at E mesh_path) as [mesh|].
    + destruct H as (res & st & g & r & -> & Hcalls & Hg & Hr). simpl.
      rewrite Hcalls. constructor; [done |].
      apply Forall_app. split; [by apply geometry_in_time |].
      do 3 (constructor; [done |]).
      apply Forall_app. split; [by apply timed_results_in_time |].
      destruct (is_ok res); by repeat constructor.
    + destruct H as (st & -> & Hcalls). simpl. rewrite Hcalls.
      by apply Forall_singleton.
  - rewrite H. simpl. constructor.
Qed.
End StepDomain.

Lemma C9_step_domain_always_time_witness :
  let E := ImportSamples.files (ImportSamples.catalog "TIME")
             [ImportSamples.record "Step-1" "NODAL" Null] in
  let E' := ImportSamples.files (ImportSamples.catalog "FREQUENCY")
              [ImportSamples.record "Step-1" "NODAL" Null] in
  ImporterMore.created_steps
    (Importer.calls (Importer.main E' ImportSamples.argv Importer.initial).2)
  = [("Step-1", "Imported step", TIME)]%string /\
  Forall ImporterSpec.step_in_time
    (Importer.calls (Importer.main E' ImportSamples.argv Importer.initial).2) /\
  Importer.main E' ImportSamples.argv Importer.initial
  = Importer.main E ImportSamples.argv Importer.initial.
Proof.
  intros E E'.
  destruct (C9_step_domain_always_time E' ImportSamples.argv)
    as (_ & (n & Hn & Hok) & H1 & H2).
  split.
  { etrans; [exact Hn |]. rewrite Hok by by vm_compute. by vm_compute. }
  split; [exact H1 |]. apply H2; intros p; simpl; try reflexivity.
  by destruct (String.eqb p "steps.json").
Defined.

(** ** Sample runs of the further properties *)

Lemma X3_written_records_well_formed_witness :
  Samples.record_ok ∈
    Exporter.lines_written (Exporter.export_nt11 Samples.odb_ok None "out" []).2 /\
  (r_labels Samples.record_ok <> [] /\
   Forall (fun e => exists x, e = Seq [x]) (r_values Samples.record_ok) /\
   r_section_point Samples.record_ok <> Absent /\
   (forall d, r_section_point Samples.record_ok = Val d ->
      so_number d <> Absent /\ so_description d <> Absent) /\
   Exporter.filtered_out None (r_step Samples.record_ok) = false /\
   (0 <= r_frame_index Samples.record_ok)%Z).
Proof.
  assert (Hrec : Samples.record_ok ∈
            Exporter.lines_written (Exporter.export_nt11 Samples.odb_ok None "out" []).2)
    by (vm_compute; repeat constructor).
  split; [exact Hrec |].
  exact (X3_written_records_well_formed Samples.odb_ok None "out"%string _ Hrec).
Defined.

Lemma X4_no_temperature_data_empty_stream_witness :
  (forall sname step fr,
      (sname, step) ∈ Exporter.odb_steps MoreSamples.odb_no_values ->
      Exporter.filtered_out None sname = false ->
      fr ∈ Exporter.step_frames step -> ExporterMore.no_nt11 fr) /\
  Exporter.export_nt11 MoreSamples.odb_no_values None "out" []
  = (Ok tt, [] ++ [Exporter.OpenFile (os_path_join "out" "nt11.jsonl"); Exporter.CloseFile]).
Proof.
  assert (H : forall sname step fr,
      (sname, step) ∈ Exporter.odb_steps MoreSamples.odb_no_values ->
      Exporter.filtered_out None sname = false ->
      fr ∈ Exporter.step_frames step -> ExporterMore.no_nt11 fr).
  { intros sname step fr Hs _ Hfr. simpl in Hs.
    apply list_elem_of_singleton in Hs. injection Hs as -> ->. simpl in Hfr.
    apply list_elem_of_singleton in Hfr. by subst fr. }
  split; [exact H |].
  exact (X4_no_temperature_data_empty_stream MoreSamples.odb_no_values None "out"%string [] H).
Defined.

Lemma X15_catalog_step_created_witness :
  ImporterMore.sound_frames MoreSamples.step_ok /\
  exists st',
    Importer.create_step MoreSamples.step_ok Importer.initial = (Ok tt, st') /\
    Importer.calls st'
    = Importer.calls Importer.initial
      ++ ImporterMore.step_call (Importer.fresh Importer.initial) MoreSamples.step_ok
         :: imap (fun i => ImporterMore.frame_call (Importer.fresh Importer.initial)
                             (S (Importer.fresh Importer.initial) + i)%nat)
              (ImporterMore.listed_frames MoreSamples.step_ok) /\
    Importer.step_objs st' !! sd_name MoreSamples.step_ok
    = Some (Importer.fresh Importer.initial) /\
    forall fr, fr ∈ ImporterMore.listed_frames MoreSamples.step_ok ->
               is_Some (Importer.frame_objs st'
                          !! (sd_name MoreSamples.step_ok, fd_index fr)).
Proof.
  assert (H : ImporterMore.sound_frames MoreSamples.step_ok).
  { split; [done |]. by repeat constructor. }
  split; [exact H |].
  exact (X15_catalog_step_created MoreSamples.step_ok Importer.initial H).
Defined.

Lemma X16_malformed_catalog_entry_witness :
  (sd_frames MoreSamples.step_null_value = Null \/
   Exists (fun fr => fd_value fr = Null)
     (ImporterMore.listed_frames MoreSamples.step_null_value)) /\
  exists st' n,
    Importer.create_step MoreSamples.step_null_value Importer.initial
    = (Raise TypeError, st') /\
    Importer.calls st'
    = Importer.calls Importer.initial
      ++ ImporterMore.step_call (Importer.fresh Importer.initial)
           MoreSamples.step_null_value
         :: imap (fun i => ImporterMore.frame_call (Importer.fresh Importer.initial)
                             (S (Importer.fresh Importer.initial) + i)%nat)
              (take n (ImporterMore.listed_frames MoreSamples.step_null_value)) /\
    Importer.step_objs st' !! sd_name MoreSamples.step_null_value
    = Some (Importer.fresh Importer.initial) /\
    (sd_frames MoreSamples.step_null_value <> Null ->
     exists fr, ImporterMore.listed_frames MoreSamples.step_null_value !! n = Some fr /\
                fd_value fr = Null).
Proof.
  assert (H : sd_frames MoreSamples.step_null_value = Null \/
              Exists (fun fr => fd_value fr = Null)
                (ImporterMore.listed_frames MoreSamples.step_null_value)).
  { right. apply Exists_cons_tl, Exists_cons_hd. reflexivity. }
  split; [exact H |].
  exact (X16_malformed_catalog_entry MoreSamples.step_null_value Importer.initial H).
Defined.

Lemma X20_written_record_read_back_witness :
  Samples.record_ok ∈
    Exporter.lines_written (Exporter.export_nt11 Samples.odb_ok None "out" []).2 /\
  exists sname step fr fo v0 rest es,
    (sname, step) ∈ Exporter.odb_steps Samples.odb_ok /\
    (r_frame_index Samples.record_ok, fr) ∈ enumerate (Exporter.step_frames step) /\
    r_frame_value Samples.record_ok = Exporter.fr_frameValue fr /\
    dict_get "NT11"%string (Exporter.fr_fieldOutputs fr) = Some fo /\
    ExporterSpec.under_key (Exporter.key_of v0) (Exporter.fo_values fo) = v0 :: rest /\
    mapM ExporterSpec.entry_of (v0 :: rest) = Ok es /\
    r_step Samples.record_ok = sname /\
    r_instance Samples.record_ok = Exporter.v_instance_name v0 /\
    Importer.pos_from_name (r_position Samples.record_ok)
    = RoundTrip.read_position (Exporter.v_position v0) /\
    Importer.ensure_tuple (r_labels Samples.record_ok) = es.*1 /\
    Importer.ensure_tuple_seq (r_values Samples.record_ok) = (fun x => [x]) <$> es.*2 /\
    forall sCat st,
      Importer.get_or_make_sp sCat (get_or_none (r_section_point Samples.record_ok)) st =
      match ExporterSpec.section_point_of v0 with
      | None => (Ok None, st)
      | Some sp =>
          let key := (default 1 (Exporter.sp_number sp),
                      default "None"%string (Exporter.sp_description sp)) in
          match Importer.sp_pool st !! key with
          | Some h => (Ok (Some h), st)
          | None =>
              (Ok (Some (Importer.fresh st)),
               {| Importer.calls :=
                    Importer.calls st
                    ++ [Importer.NewSectionPoint (Importer.fresh st) sCat key.1 key.2];
                  Importer.fresh := S (Importer.fresh st);
                  Importer.assembly := Importer.assembly st;
                  Importer.inst_map := Importer.inst_map st;
                  Importer.sp_pool := <[key := Importer.fresh st]> (Importer.sp_pool st);
                  Importer.step_objs := Importer.step_objs st;
                  Importer.frame_objs := Importer.frame_objs st;
                  Importer.nt11_cache := Importer.nt11_cache st |})
          end
      end.
Proof.
  assert (Hrec : Samples.record_ok ∈
            Exporter.lines_written (Exporter.export_nt11 Samples.odb_ok None "out" []).2)
    by (vm_compute; repeat constructor).
  split; [exact Hrec |].
  exact (X20_written_record_read_back Samples.odb_ok None "out"%string _ Hrec).
Defined.

Lemma X22_exported_files_import_witness :
  NoDup (Exporter.odb_instances Samples.odb_ok).*1 /\
  RoundTrip.values_in_instances Samples.odb_ok /\
  Exporter.mesh_of Samples.odb_ok = Ok MoreSamples.exported_mesh /\
  Importer.parse_args ImportSamples.argv
  = Ok ("mesh.json", "steps.json", "nt11.jsonl", "out.odb")%string /\
  exists st,
    Importer.main MoreSamples.exported_files ImportSamples.argv Importer.initial
    = (Ok tt, st).
Proof.
  assert (Hnd : NoDup (Exporter.odb_instances Samples.odb_ok).*1)
    by apply NoDup_singleton.
  assert (Hv : RoundTrip.values_in_instances Samples.odb_ok).
  { intros sname step fr fo v Hs Hfr Hfo H. simpl in Hs.
    apply list_elem_of_singleton in Hs. injection Hs as -> ->. simpl in Hfr.
    apply list_elem_of_singleton in Hfr. subst fr. simpl in Hfo.
    injection Hfo as <-. simpl in *.
    repeat (apply elem_of_cons in H as [->|H]; [simpl; left |]).
    by apply elem_of_nil in H. }
  assert (Hmesh : Exporter.mesh_of Samples.odb_ok = Ok MoreSamples.exported_mesh)
    by (vm_compute; reflexivity).
  assert (Hargs : Importer.parse_args ImportSamples.argv
                  = Ok ("mesh.json", "steps.json", "nt11.jsonl", "out.odb")%string)
    by (vm_compute; reflexivity).
  split; [exact Hnd |]. split; [exact Hv |]. split; [exact Hmesh |].
  split; [exact Hargs |].
  exact (X22_exported_files_import Samples.odb_ok None "out"%string
           MoreSamples.exported_mesh MoreSamples.exported_files ImportSamples.argv
           "mesh.json"%string "steps.json"%string "nt11.jsonl"%string "out.odb"%string
           Hnd Hv Hmesh Hargs eq_refl eq_refl eq_refl).
Defined.
